(** * mongodb-restore: the streaming restore pipeline of [index.js]

    A shallow embedding of the restore pipeline: the entry dispatcher
    ([streamListener]), the batched writer ([writer]), the collection
    dropper ([someCollections]) and the session driver ([wrapper], [go]).

    The JavaScript source is written in continuation-passing style: every
    operation takes a callback.  The embedding keeps that shape.  An
    operation is a function from its callback and the current [World] to an
    [Outcome]; calling the callback is applying the continuation, a thrown
    exception is an outcome that never reaches the callback.

    Everything outside the file (the database driver, the file system, the
    decoders, the logger, the user's completion callback) is an external
    collaborator.  Every call to one of them is recorded, in program order,
    in the [trace] of the world, and its answer is read from an [Env]
    that may depend on the whole history.

    The pipeline starts from the parsed options [my]; the option checks
    of [restore] are modelled apart, after it.  Left out: the
    [stream.resume()] of the archive source (it changes nothing the
    listener or the writer can see), and the lines the driver itself sends
    to the logger. *)

From Stdlib Require Import Ascii String DecimalString.
From stdpp Require Import gmap strings list fin_maps.

Set Warnings "-register-all".
Open Scope string_scope.
Open Scope nat_scope.
Open Scope list_scope.

(** ** Values *)

(** A chunk of bytes delivered by a stream ([Buffer]). *)
Definition Buffer := list Byte.byte.

(** [Buffer.concat(buffers)] *)
Definition Buffer_concat (buffers : list Buffer) : Buffer := List.concat buffers.

(** A decoded document, the result of [JSON.parse] / [BSON.deserialize]. *)
Inductive Document : Type :=
| VNull
| VBool (b : bool)
| VNumber (z : Z)
| VString (s : string)
| VArray (items : list Document)
| VObject (fields : list (string * Document)).

(** What the program passes around as [err]: an [Error]-like object with a
    [message], or (in [fileSystemDataSource.begin]) a bare string.  Both
    are truthy. *)
Inductive Err : Type :=
| ErrorObject (message : string)
| ErrorText (text : string).

(** An argument of a [logger] call.  [err.message] of a bare string is
    [undefined]. *)
Inductive LogArg : Type :=
| LogString (s : string)
| LogUndefined
| LogErr (e : Err).

Definition err_message (e : Err) : LogArg :=
  match e with
  | ErrorObject message => LogString message
  | ErrorText _ => LogUndefined
  end.

(** One element of the [operations] array handed to [bulkWrite]:
    [{insertOne: {document: document}}]. *)
Inductive Operation : Type :=
| insertOne (document : Document).

(** Which decoder function a [parse] call reaches. *)
Inductive Decoder : Type :=
| JSON_parse
| BSON_deserialize
| Custom_parse.

(** ** Calls to the external collaborators *)

Inductive Event : Type :=
| MongoConnect (uri : string)
| DbCreateCollection (collectionName : string)
| DbCollection (collectionName : string)
| CollectionBulkWrite (collectionName : string) (operations : list Operation)
| DbCommandCreateIndexes (collectionName : string) (indexes : Document)
| DbDropDatabase
| DbCollections
| CollectionDrop (collectionName : string)
| DbClose
| LoggerCall (arg : LogArg)
| FsReaddirSync (path : string)
| FsCreateReadStream (path : string)
| StreamOn (name : string)
| Parse (decoder : Decoder) (data : Buffer)
| UserCallback (err : option Err).

(** A metadata record pushed by [onFile]:
    [{collectionName: metadataName, document: ...}]. *)
Record MetadataRecord : Type := mkMetadata {
  collectionName : string;
  document : Document
}.

(** The mutable state of one run: the calls made so far, the writer's
    [dataToWrite] object and the listener's [metadata] array.  The array is
    passed by reference to [addIndices], which pops from it, so it lives in
    the world and not in an argument.

    [dataToWrite] is a plain object used as a map.  The field
    [dataToWrite] is the finite map of its own properties, the buffers.
    The field [prototype] is its prototype: [None] while that is
    [Object.prototype], as for the [{}] the writer starts from, and
    [Some array] once [dataToWrite['__proto__'] = [document]] has made
    that array the prototype. *)
Record World : Type := mkWorld {
  trace : list Event;
  dataToWrite : gmap string (list Document);
  metadata : list MetadataRecord;
  prototype : option (list Document)
}.

Definition initial_world : World :=
  {| trace := []; dataToWrite := ∅; metadata := []; prototype := None |}.

Definition emit (e : Event) (w : World) : World :=
  {| trace := trace w ++ [e]; dataToWrite := dataToWrite w; metadata := metadata w;
     prototype := prototype w |}.

Definition set_dataToWrite (m : gmap string (list Document)) (w : World) : World :=
  {| trace := trace w; dataToWrite := m; metadata := metadata w;
     prototype := prototype w |}.

Definition set_metadata (l : list MetadataRecord) (w : World) : World :=
  {| trace := trace w; dataToWrite := dataToWrite w; metadata := l;
     prototype := prototype w |}.

Definition set_prototype (p : option (list Document)) (w : World) : World :=
  {| trace := trace w; dataToWrite := dataToWrite w; metadata := metadata w;
     prototype := p |}.

(** The property name that reaches the prototype of an object. *)
Definition proto_name : string := "__proto__".

(** The property name of the element [k] of an array. *)
Definition index_name (k : nat) : string := NilZero.string_of_uint (Nat.to_uint k).

(** The element of an array of length [n] that the property name [name]
    denotes, if any. *)
Definition array_index (n : nat) (name : string) : option nat :=
  List.find (fun k => bool_decide (index_name k = name)) (seq 0 n).

(** Where the read [dataToWrite[name]] finds an array: in an own property,
    in the prototype itself (under [__proto__]), or in an element of the
    prototype array that is itself an array. *)
Inductive Slot : Type :=
| OwnSlot (documents : list Document)
| ProtoSlot (documents : list Document)
| ElementSlot (array : list Document) (k : nat) (items : list Document).

Definition slot_documents (s : Slot) : list Document :=
  match s with
  | OwnSlot documents | ProtoSlot documents | ElementSlot _ _ documents => documents
  end.

(** [dataToWrite[name]] when [Array.isArray] holds of it: an own property
    is found first; otherwise the read follows the prototype chain.  No
    property of [Object.prototype] or of [Array.prototype] is an array, and
    [__proto__] reads the prototype itself; the properties of a prototype
    array are its elements and [length]. *)
Definition get_array (w : World) (name : string) : option Slot :=
  match dataToWrite w !! name with
  | Some documents => Some (OwnSlot documents)
  | None =>
      match prototype w with
      | None => None
      | Some array =>
          if decide (name = proto_name) then Some (ProtoSlot array)
          else
            match array_index (length array) name with
            | Some k =>
                match array !! k with
                | Some (VArray items) => Some (ElementSlot array k items)
                | _ => None
                end
            | None => None
            end
      end
  end.

(** Uncaught exceptions. *)
Inductive Exception : Type :=
| TypeError
| SyntaxError
| FsError
| UnhandledStreamError (e : option Err)
| MissingParserOption.

(** How a run ends: the callback chain ran to its end, an exception
    escaped, or the recursion never stopped (the model ran out of fuel). *)
Inductive Outcome : Type :=
| Returned (w : World)
| Thrown (ex : Exception) (w : World)
| Diverged (w : World).

Definition world_of (o : Outcome) : World :=
  match o with
  | Returned w | Thrown _ w | Diverged w => w
  end.

(** A Node-style callback [function (err) { ... }]. *)
Definition Callback := option Err → World → Outcome.

(** A byte stream handed to [onFile]: the chunks its ['data'] events
    deliver before ['end'], or a stream that emits ['error']. *)
Inductive ReadStream : Type :=
| Chunks (buffers : list Buffer)
| Failing (e : Err).

Inductive EntryType : Type :=
| directory
| file
| other_type.

(** A decoded archive entry: the [header] and its [stream]. *)
Record TarEntry : Type := mkEntry {
  header_type : EntryType;
  header_name : string;
  entry_stream : ReadStream
}.

(** ** The environment

    The answers of the collaborators.  Every answer may depend on the
    calls made so far.  A database callback receives [(err, result)]:
    [reply_err] is the first component, [reply_handle] tells whether
    [db.collection] delivered a collection object, [reply_names] is the
    [collections] array of [db.collections] ([None] when it is absent).
    [drop_order] picks which of the pending [drop] requests completes
    next.  [tar_extract] is the entry sequence the archive file at a path
    decodes to.  [Object_keys] is the enumeration order of [Object.keys]. *)
Record Env : Type := mkEnv {
  reply_err : list Event → Event → option Err;
  reply_handle : list Event → string → bool;
  reply_names : list Event → option (list string);
  drop_order : list Event → nat;
  decode : Decoder → Buffer → option Document;
  readdirSync : list Event → string → option (list string);
  createReadStream : list Event → string → ReadStream;
  tar_extract : list Event → string → list TarEntry;
  Object_keys : list Event → gmap string (list Document) → list string;
  Object_keys_spec : ∀ h m k, k ∈ Object_keys h m ↔ is_Some (m !! k)
}.

(** ** Path handling *)

Definition slash : ascii := "/"%char.
Definition backslash : ascii := "\"%char.

(** [name.replace(/\\/g, '/')] *)
Fixpoint replace_backslashes (s : string) : string :=
  match s with
  | EmptyString => EmptyString
  | String c r =>
      String (if Ascii.eqb c backslash then slash else c) (replace_backslashes r)
  end.

(** The maximal slash-free pieces of a path, in order. *)
Fixpoint segments (s : string) : list string :=
  match s with
  | EmptyString => [EmptyString]
  | String c r =>
      if Ascii.eqb c slash then EmptyString :: segments r
      else match segments r with
           | [] => [String c EmptyString]
           | seg :: rest => String c seg :: rest
           end
  end.

Definition nonempty (s : string) : option string :=
  match s with
  | EmptyString => None
  | _ => Some s
  end.

(** [new RegExp('.*/([^/]+)/?$').exec(s)]: group 1, or [None] when
    [exec] returns [null].  The pattern is not anchored at the start, so it
    matches when the text ends in a slash, a non-empty slash-free segment
    and at most one more slash ([collectionNameForDirectory_spec]). *)
Definition collectionNameForDirectory (s : string) : option string :=
  let r := rev (segments s) in
  let r' := match r with EmptyString :: t => t | _ => r end in
  match r' with
  | c :: _ :: _ => nonempty c
  | _ => None
  end.

(** [new RegExp('.*/([^/]+)/[^/]+$').exec(s)]: group 1 is the parent
    segment of the last one; both must be non-empty and a slash must come
    before the parent ([collectionNameForFiles_spec]). *)
Definition collectionNameForFiles (s : string) : option string :=
  match rev (segments s) with
  | f :: c :: _ :: _ =>
      match nonempty f with
      | Some _ => nonempty c
      | None => None
      end
  | _ => None
  end.

(** [new RegExp('.*/[^/]+/([^/]+)$').exec(s)]: same shape, group 1 is the
    last segment. *)
Definition metadataFilenameRegexp (s : string) : option string :=
  match rev (segments s) with
  | f :: c :: _ :: _ =>
      match nonempty c with
      | Some _ => nonempty f
      | None => None
      end
  | _ => None
  end.

(** The pieces joined by single slashes. *)
Fixpoint join_slash (l : list string) : string :=
  match l with
  | [] => ""
  | [s] => s
  | s :: rest => s +:+ "/" +:+ join_slash rest
  end.

(** The walk of [path.normalize] over the segments of a path: empty
    segments and [.] are dropped and [..] removes the segment kept before
    it; where there is none, [..] is kept in a relative path and dropped
    in an absolute one.  [stack] holds the segments kept so far, the last
    one first. *)
Fixpoint normalize_segments (absolute : bool) (stack segs : list string) : list string :=
  match segs with
  | [] => rev stack
  | s :: rest =>
      if decide (s = "" ∨ s = ".") then normalize_segments absolute stack rest
      else if decide (s = "..") then
        match stack with
        | top :: below =>
            if decide (top = "..") then normalize_segments absolute (s :: stack) rest
            else normalize_segments absolute below rest
        | [] =>
            if absolute then normalize_segments absolute [] rest
            else normalize_segments absolute [s] rest
        end
      else normalize_segments absolute (s :: stack) rest
  end.

(** [path.normalize(p)] (POSIX). *)
Definition path_normalize (p : string) : string :=
  if decide (p = "") then "."
  else
    let absolute := String.prefix "/" p in
    let trailing := match rev (segments p) with
                    | EmptyString :: _ :: _ => true
                    | _ => false
                    end in
    let body := join_slash (normalize_segments absolute [] (segments p)) in
    if decide (body = "") then
      if absolute then "/" else if trailing then "./" else "."
    else (if absolute then "/" else "") +:+ body +:+ (if trailing then "/" else "").

(** [path.join(a, b)] (POSIX): the non-empty arguments joined by a slash,
    then normalized. *)
Definition path_join (a b : string) : string :=
  path_normalize (if decide (a = "") then b
                  else if decide (b = "") then a
                  else a +:+ "/" +:+ b).

Definition metadata_name : string := ".metadata".

(** [/^system\./.test(name)] *)
Definition systemRegex (name : string) : bool := String.prefix "system." name.

Definition lower_ascii (c : ascii) : ascii :=
  let n := nat_of_ascii c in
  if (65 <=? n)%nat && (n <=? 90)%nat then ascii_of_nat (n + 32) else c.

(** [s.toLowerCase()] on the letters that matter for the two tags. *)
Fixpoint toLowerCase (s : string) : string :=
  match s with
  | EmptyString => EmptyString
  | String c r => String (lower_ascii c) (toLowerCase r)
  end.

(** [collections.pop()]: the last element and the array without it. *)
Definition pop {A : Type} (l : list A) : option (list A * A) :=
  match rev l with
  | [] => None
  | x :: r => Some (rev r, x)
  end.

(** ** Options *)

(** [my.parser]: a function (with or without a [parse] property), a
    string, or something else. *)
Inductive ParserOption : Type :=
| ParserFunction (has_parse : bool)
| ParserString (s : string)
| ParserOther.

(** [my.tar] : [null], a string, or [true]. *)
Inductive TarOption : Type :=
| TarNull
| TarString (s : string)
| TarTrue.

(** [my.dropCollections]: [null], an array of names, or another truthy
    value. *)
Inductive DropCollections : Type :=
| DropNull
| DropArray (names : list string)
| DropTruthy.

(** The parsed options [my]; [my_stream] holds the entries the live
    archive stream decodes to. *)
Record Options : Type := mkOptions {
  my_uri : string;
  my_root : string;
  my_stream : option (list TarEntry);
  my_parser : ParserOption;
  my_callback : bool;
  my_tar : TarOption;
  my_logger : option string;
  my_metadata : bool;
  my_drop : bool;
  my_dropCollections : DropCollections
}.

(** The object a parser factory returns: its [parse] property, if any. *)
Record Parser : Type := mkParser { parse : option Decoder }.

Definition jsonParser : Parser := {| parse := Some JSON_parse |}.
Definition bsonParser : Parser := {| parse := Some BSON_deserialize |}.

(** The object [streamListener(...)] returns. *)
Record StreamListener : Type := mkListener {
  onDirectory : string → Callback → World → Outcome;
  onFile : string → ReadStream → Callback → World → Outcome;
  finish : Callback → World → Outcome
}.

(** The object [writer(db)] returns. *)
Record Writer : Type := mkWriter {
  createCollection : string → Callback → World → Outcome;
  addDocument : string → Document → Callback → World → Outcome;
  drain : Callback → World → Outcome;
  addIndices : Callback → World → Outcome
}.

Section Pipeline.

(** The collaborators, and the bound on the depth of the two
    self-referential callbacks ([drain], [addIndices]). *)
Variable env : Env.
Variable fuel : nat.

Definition logger (arg : LogArg) (w : World) : World := emit (LoggerCall arg) w.

(** [function error(err) { if (err) { logger(err.message); } }] *)
Definition error (err : option Err) (w : World) : World :=
  match err with
  | Some e => logger (err_message e) w
  | None => w
  end.

(** A call to the driver: the call is recorded and the [err] its callback
    receives is read from the environment. *)
Definition request (e : Event) (w : World) : option Err * World :=
  (reply_err env (trace w) e, emit e w).

(** *** The batched writer *)

(** [dataToWrite[collectionName].map(...)] reads through the prototype
    chain; [delete dataToWrite[collectionName]] removes an own property
    and does nothing when there is none. *)
Definition writeAllInCollection (name : string) (callback : Callback) (w : World) : Outcome :=
  match get_array w name with
  | None => Thrown TypeError w
  | Some slot =>
      let operations := insertOne <$> slot_documents slot in
      if decide (length operations = 0) then callback None w
      else
        let '(err, w1) := request (DbCollection name) w in
        let w2 := error err w1 in
        if reply_handle env (trace w) name then
          let '(err', w3) := request (CollectionBulkWrite name operations) w2 in
          callback err' (set_dataToWrite (delete name (dataToWrite w3)) w3)
        else Thrown TypeError w2
  end.

Definition writer_createCollection (name : string) (next : Callback) (w : World) : Outcome :=
  let '(err, w1) := request (DbCreateCollection name) w in
  next err w1.

(** The [push] goes to the array the read finds, wherever it is.  The
    assignment [dataToWrite[collectionName] = [document]], made when the
    read finds no array, creates an own property, except under the name
    [__proto__], where it makes the new array the prototype. *)
Definition writer_addDocument (name : string) (doc : Document) (next : Callback) (w : World) : Outcome :=
  let w1 :=
    match get_array w name with
    | Some (OwnSlot documents) =>
        set_dataToWrite (<[name := documents ++ [doc]]> (dataToWrite w)) w
    | Some (ProtoSlot documents) => set_prototype (Some (documents ++ [doc])) w
    | Some (ElementSlot array k items) =>
        set_prototype (Some (<[k := VArray (items ++ [doc])]> array)) w
    | None =>
        if decide (name = proto_name) then set_prototype (Some [doc]) w
        else set_dataToWrite (<[name := [doc]]> (dataToWrite w)) w
    end in
  match get_array w1 name with
  | None => Thrown TypeError w1
  | Some slot =>
      if decide (50 < length (slot_documents slot))
      then writeAllInCollection name (fun err => next err) w1
      else next None w1
  end.

Fixpoint drain_from (n : nat) (callback : Callback) (w : World) : Outcome :=
  match n with
  | O => Diverged w
  | S n' =>
      match Object_keys env (trace w) (dataToWrite w) with
      | [] => callback None w
      | name :: _ =>
          writeAllInCollection name
            (fun err w' => drain_from n' callback (error err w')) w
      end
  end.

Definition writer_drain : Callback → World → Outcome := drain_from fuel.

(** [indices] is the listener's [metadata] array itself. *)
Fixpoint addIndices_from (n : nat) (callback : Callback) (w : World) : Outcome :=
  match n with
  | O => Diverged w
  | S n' =>
      if decide (length (metadata w) = 0) then callback None w
      else
        match pop (metadata w) with
        | None => Thrown TypeError w
        | Some (rest, collectionAndIndexes) =>
            let '(err, w1) :=
              request (DbCommandCreateIndexes (collectionName collectionAndIndexes)
                                              (document collectionAndIndexes))
                      (set_metadata rest w) in
            addIndices_from n' callback (error err w1)
        end
  end.

Definition writer_addIndices : Callback → World → Outcome := addIndices_from fuel.

(** [writer(db)]: a fresh, empty [dataToWrite] belongs to the world the
    writer is created in. *)
Definition writer : Writer :=
  {| createCollection := writer_createCollection;
     addDocument := writer_addDocument;
     drain := writer_drain;
     addIndices := writer_addIndices |}.

(** *** The entry dispatcher *)

(** [stream.on('data', ...)] and [stream.on('end', ...)]: the chunks are
    collected and handed to the ['end'] handler; an ['error'] event has no
    listener. *)
Definition stream_on (name : string) (stream : ReadStream)
    (on_end : list Buffer → World → Outcome) (w : World) : Outcome :=
  let w1 := emit (StreamOn name) w in
  match stream with
  | Chunks buffers => on_end buffers w1
  | Failing e => Thrown (UnhandledStreamError (Some e)) w1
  end.

(** [p.parse(data)]; a decoder that fails throws. *)
Definition call_parse (p : Parser) (data : Buffer)
    (k : Document → World → Outcome) (w : World) : Outcome :=
  match parse p with
  | None => Thrown TypeError w
  | Some d =>
      let w1 := emit (Parse d data) w in
      match decode env d data with
      | None => Thrown SyntaxError w1
      | Some doc => k doc w1
      end
  end.

Section Listener.

Variable parser : Parser.
Variable the_writer : Writer.
Variable supportMetadata : bool.

Definition listener_onDirectory (directoryName : string) (callback : Callback) (w : World) : Outcome :=
  match collectionNameForDirectory (replace_backslashes directoryName) with
  | None => Thrown TypeError w
  | Some name =>
      if decide (name = metadata_name) then callback None w
      else createCollection the_writer name callback w
  end.

(** The ['end'] handler tests [collectionName === '.metadata'] again; the
    two branches below are its two arms. *)
Definition listener_onFile (name : string) (stream : ReadStream) (callback : Callback) (w : World) : Outcome :=
  match collectionNameForFiles (replace_backslashes name) with
  | None => Thrown TypeError w
  | Some collection =>
      if decide (collection = metadata_name) then
        match metadataFilenameRegexp (replace_backslashes name) with
        | None => Thrown TypeError w
        | Some metadataName =>
            if negb supportMetadata then callback None w
            else
              stream_on name stream (fun buffers =>
                call_parse jsonParser (Buffer_concat buffers) (fun doc w' =>
                  callback None
                    (set_metadata (metadata w' ++ [mkMetadata metadataName doc]) w'))) w
        end
      else
        stream_on name stream (fun buffers =>
          call_parse parser (Buffer_concat buffers) (fun doc =>
            addDocument the_writer collection doc callback)) w
  end.

Definition listener_finish (callback : Callback) (w : World) : Outcome :=
  drain the_writer (fun err w1 =>
    let w2 := error err w1 in
    if negb supportMetadata then callback None w2
    else addIndices the_writer (fun err w3 => callback None (error err w3)) w2) w.

Definition streamListener : StreamListener :=
  {| onDirectory := listener_onDirectory;
     onFile := listener_onFile;
     finish := listener_finish |}.

End Listener.

(** *** The dump sources *)

(** [next] of the archive decoder: an error destroys the extraction, which
    emits ['error'] with no listener. *)
Definition tar_next (continue : World → Outcome) : Callback :=
  fun err w =>
    match err with
    | Some e => Thrown (UnhandledStreamError (Some e)) w
    | None => continue w
    end.

(** [extract.on('entry', ...)] for each entry in turn, then
    [extract.on('finish', ...)]. *)
Fixpoint extract_entries (L : StreamListener) (entries : list TarEntry)
    (callback : Callback) (w : World) : Outcome :=
  match entries with
  | [] => finish L callback w
  | entry :: rest =>
      let next := tar_next (extract_entries L rest callback) in
      match header_type entry with
      | directory => onDirectory L (header_name entry) next w
      | file => onFile L (header_name entry) (entry_stream entry) next w
      | other_type => next None w
      end
  end.

Definition streamingTarDataSource_begin (tarStream : list TarEntry)
    (L : StreamListener) (callback : Callback) (w : World) : Outcome :=
  extract_entries L tarStream callback w.


(** [fs.readdirSync(path)]; it throws when the path cannot be listed. *)
Definition fs_readdirSync (path : string)
    (k : list string → World → Outcome) (w : World) : Outcome :=
  let w1 := emit (FsReaddirSync path) w in
  match readdirSync env (trace w) path with
  | None => Thrown FsError w1
  | Some names => k names w1
  end.

(** [addCollections]: [pending] is the array seen from its end, the next
    [pop()] first. *)
Fixpoint addCollections_popping (L : StreamListener) (pending : list string)
    (callback : Callback) (w : World) : Outcome :=
  match pending with
  | [] => callback None w
  | name :: rest =>
      onDirectory L name
        (fun err w' => addCollections_popping L rest callback (error err w')) w
  end.

Definition addCollections (L : StreamListener) (collections : list string) :=
  addCollections_popping L (rev collections).

Fixpoint addFiles_popping (L : StreamListener) (pending : list string)
    (callback : Callback) (w : World) : Outcome :=
  match pending with
  | [] => callback None w
  | filename :: rest =>
      onFile L filename (createReadStream env (trace w) filename)
        (fun err w' => addFiles_popping L rest callback (error err w'))
        (emit (FsCreateReadStream filename) w)
  end.

Definition addFiles (L : StreamListener) (files : list string) :=
  addFiles_popping L (rev files).

(** [fs.readdirSync(dbRootDir).map(function(dirname) { return
    fs.readdirSync(path.join(dbRootDir, dirname)).map(...) })] *)
Fixpoint readdir_each (dbRootDir : string) (dirnames : list string)
    (k : list (list string) → World → Outcome) (w : World) : Outcome :=
  match dirnames with
  | [] => k [] w
  | dirname :: rest =>
      fs_readdirSync (path_join dbRootDir dirname) (fun filenames =>
        readdir_each dbRootDir rest (fun arrays =>
          k ((path_join (path_join dbRootDir dirname) <$> filenames) :: arrays))) w
  end.

(** ['Found multiple directories and only support one: ' +
    JSON.toString(dirs)]: [JSON.toString] is [Object.prototype.toString]. *)
Definition multiple_directories : Err :=
  ErrorText "Found multiple directories and only support one: [object JSON]".

Definition fileSystemDataSource_begin (rootDir : string)
    (L : StreamListener) (callback : Callback) (w : World) : Outcome :=
  fs_readdirSync rootDir (fun dirs w1 =>
    if decide (length dirs ≠ 1) then callback (Some multiple_directories) w1
    else
      match dirs !! 0%nat with
      | None => Thrown TypeError w1
      | Some dir0 =>
          let dbRootDir := path_join rootDir dir0 in
          fs_readdirSync dbRootDir (fun names =>
            addCollections L (path_join dbRootDir <$> names) (fun err w2 =>
              fs_readdirSync dbRootDir (fun dirnames =>
                readdir_each dbRootDir dirnames (fun directoryArrays =>
                  addFiles L (List.concat directoryArrays) (fun err w3 =>
                    finish L callback (error err w3)))) (error err w2))) w1
      end) w.

(** *** The collection dropper *)

(** What runs after a synchronous call returns. *)
Definition and_then (o : Outcome) (k : World → Outcome) : Outcome :=
  match o with
  | Returned w => k w
  | _ => o
  end.

(** The [forEach] of [someCollections].  [db.collection] calls back at
    once; [collection.drop] is only issued here and completes later, so the
    names of the issued drops are collected in [pending]. *)
Fixpoint forEach_collection (last : nat) (collections : list string)
    (counter : nat) (pending : list string) (next : Callback)
    (k : nat → list string → World → Outcome) (w : World) : Outcome :=
  match collections with
  | [] => k counter pending w
  | collection :: rest =>
      let '(err, w1) := request (DbCollection collection) w in
      if reply_handle env (trace w) collection then
        let w2 := logger (LogString ("select collection " +:+ collection)) w1 in
        match err with
        | Some e =>
            let counter' := S counter in
            if decide (last = counter')
            then and_then (next (Some e) w2)
                          (forEach_collection last rest counter' pending next k)
            else forEach_collection last rest counter' pending next k
                                    (error (Some e) w2)
        | None =>
            forEach_collection last rest counter (pending ++ [collection]) next k
              (emit (CollectionDrop collection) w2)
        end
      else Thrown TypeError w1
  end.

(** The callbacks of the issued drops, in the order the environment
    completes them; [n] bounds their number. *)
Fixpoint drop_completions (n : nat) (last counter : nat) (pending : list string)
    (next : Callback) (w : World) : Outcome :=
  match n with
  | O => Returned w
  | S n' =>
      let i := (drop_order env (trace w) `mod` length pending)%nat in
      match pending !! i with
      | None => Returned w
      | Some collection =>
          let err := reply_err env (trace w) (CollectionDrop collection) in
          let w1 := error err w in
          let counter' := S counter in
          let pending' := delete i pending in
          if decide (last = counter')
          then and_then (next None w1)
                        (drop_completions n' last counter' pending' next)
          else drop_completions n' last counter' pending' next w1
      end
  end.

Definition someCollections (collections : list string) (next : Callback) (w : World) : Outcome :=
  let last := length collections in
  if decide (last = 0) then next None w
  else
    forEach_collection last collections 0 [] next
      (fun counter pending =>
         drop_completions (length pending) last counter pending next) w.

(** *** The session *)

(** A dump source: its [begin] method. *)
Definition DataSource := StreamListener → Callback → World → Outcome.

(** [tarDataSource(tarFile)]: the file is opened when the source is
    built, before [go] runs.  The stream reports a file that cannot be
    opened or read with an ['error'] event, for which there is no
    listener, so the exception escapes.  [createReadStream] of the
    environment tells whether the file can be read, [tar_extract] what it
    decodes to. *)
Definition tarDataSource (tarFile : string) (w : World) : option Err * DataSource * World :=
  (match createReadStream env (trace w) tarFile with
   | Failing e => Some e
   | Chunks _ => None
   end,
   streamingTarDataSource_begin (tar_extract env (trace w) tarFile),
   emit (FsCreateReadStream tarFile) w).

(** The [callback] of [wrapper]: the last callback of the run. *)
Definition latest_callback (my : Options) : Callback :=
  fun err w =>
    let w1 := logger (LogString "restore stop") w in
    if my_callback my
    then Returned (emit (UserCallback err) (logger (LogString "callback run") w1))
    else match err with
         | Some e => Returned (logger (LogErr e) w1)
         | None => Returned w1
         end.

(** [importDataToDb]: the writer and the listener are created here, with
    a fresh [dataToWrite], which is [{}], and a fresh [metadata]. *)
Definition importDataToDb (my : Options) (parser : Parser) (datasource : DataSource) : Callback :=
  fun err w =>
    match err with
    | Some e =>
        latest_callback my (Some e) (emit DbClose (logger (LogString "db close") w))
    | None =>
        datasource (streamListener parser writer (my_metadata my))
          (fun err w' =>
             latest_callback my err (emit DbClose (logger (LogString "db close") w')))
          (set_prototype None (set_metadata [] (set_dataToWrite ∅ w)))
    end.

Definition go (my : Options) (parser : Parser) (datasource : DataSource) (w : World) : Outcome :=
  let '(err, w1) := request (MongoConnect (my_uri my)) w in
  let w2 := logger (LogString "db open") w1 in
  match err with
  | Some e => latest_callback my (Some e) w2
  | None =>
      if my_drop my then
        let '(err, w3) := request DbDropDatabase (logger (LogString "drop database") w2) in
        importDataToDb my parser datasource err w3
      else
        match my_dropCollections my with
        | DropArray names =>
            someCollections names (importDataToDb my parser datasource)
              (logger (LogString "drop collections") w2)
        | DropTruthy =>
            let w3 := logger (LogString "drop collections") w2 in
            let '(err, w4) := request DbCollections w3 in
            let w5 := error err w4 in
            match reply_names env (trace w3) with
            | None => Thrown TypeError w5
            | Some collections =>
                someCollections (filter (fun name => systemRegex name = false) collections)
                  (importDataToDb my parser datasource) w5
            end
        | DropNull => importDataToDb my parser datasource None w2
        end
  end.

(** The parser selection at the head of [wrapper]. *)
Definition select_parser (p : ParserOption) : Exception + Parser :=
  match p with
  | ParserFunction has_parse =>
      inr {| parse := if has_parse then Some Custom_parse else None |}
  | ParserString s =>
      let tag := toLowerCase s in
      if decide (tag = "bson") then inr bsonParser
      else if decide (tag = "json") then inr jsonParser
      else inl MissingParserOption
  | ParserOther => inl TypeError
  end.

(** [!my.tar] *)
Definition tar_falsy (t : TarOption) : bool :=
  match t with
  | TarNull => true
  | TarString s => bool_decide (s = "")
  | TarTrue => false
  end.

(** [my.root + my.tar] *)
Definition tar_path (root : string) (t : TarOption) : string :=
  match t with
  | TarNull => root +:+ "null"
  | TarString s => root +:+ s
  | TarTrue => root +:+ "true"
  end.

(** [wrapper(my)].  With an archive file that cannot be read, the
    ['error'] event of its stream arrives while the connection attempt,
    which [go] has started by then, is still pending. *)
Definition wrapper (my : Options) (w : World) : Outcome :=
  match select_parser (my_parser my) with
  | inl ex => Thrown ex w
  | inr parser =>
      let w1 :=
        match my_logger my with
        | None => w
        | Some _ => logger (LogString "restore start") w
        end in
      if tar_falsy (my_tar my)
      then go my parser (fileSystemDataSource_begin (my_root my)) w1
      else
        match my_stream my with
        | Some tarStream => go my parser (streamingTarDataSource_begin tarStream) w1
        | None =>
            let '(failure, datasource, w2) :=
              tarDataSource (tar_path (my_root my) (my_tar my)) w1 in
            match failure with
            | Some e =>
                Thrown (UnhandledStreamError (Some e))
                       (emit (MongoConnect (my_uri my)) w2)
            | None => go my parser datasource w2
            end
        end
  end.

End Pipeline.

(** ** Sample environments *)

(** One admissible enumeration order: the keys of the map as stdpp lists
    them. *)
Definition keys_of (m : gmap string (list Document)) : list string :=
  (map_to_list m).*1.

Lemma keys_of_spec (h : list Event) (m : gmap string (list Document)) (k : string) :
  k ∈ keys_of m ↔ is_Some (m !! k).
Proof.
  unfold keys_of. rewrite list_elem_of_fmap. split.
  - intros [[k' v] [-> Hin]]. apply elem_of_map_to_list in Hin. eauto.
  - intros [v Hv]. exists (k, v). split; [done|]. by apply elem_of_map_to_list.
Qed.

(** An environment built from the answers of the database and of the file
    system; decoding a blob yields its length. *)
Definition sample_env
    (errs : list Event → Event → option Err)
    (handles : list Event → string → bool)
    (names : list Event → option (list string))
    (ls : string → option (list string)) : Env :=
  {| reply_err := errs;
     reply_handle := handles;
     reply_names := names;
     drop_order := fun _ => 0%nat;
     decode := fun _ data => Some (VNumber (Z.of_nat (length data)));
     readdirSync := fun _ path => ls path;
     createReadStream := fun _ _ => Chunks [];
     tar_extract := fun _ _ => [];
     Object_keys := fun _ => keys_of;
     Object_keys_spec := keys_of_spec |}.

(** Every call succeeds; the dump root is empty. *)
Definition calm_env : Env :=
  sample_env (fun _ _ => None) (fun _ _ => true) (fun _ => Some []) (fun _ => Some []).

(** ** Reading the world *)

(** The pending buffer of a collection ([[]] when it has no key). *)
Definition pending (w : World) (name : string) : list Document :=
  default [] (dataToWrite w !! name).

(** What [error(err)] adds to the trace. *)
Definition log_events (err : option Err) : list Event :=
  match err with
  | Some e => [LoggerCall (err_message e)]
  | None => []
  end.

(** The trace once [db.collection(name, ...)] has called back and its
    error, if any, was logged. *)
Definition flush_history (env : Env) (name : string) (w : World) : list Event :=
  trace w ++ DbCollection name :: log_events (reply_err env (trace w) (DbCollection name)).

(** The [bulkWrite] call of a flush. *)
Definition flush_request (name : string) (docs : list Document) : Event :=
  CollectionBulkWrite name (insertOne <$> docs).

(** The world the callback of a flush runs in. *)
Definition flushed (env : Env) (name : string) (docs : list Document) (w : World) : World :=
  {| trace := flush_history env name w ++ [flush_request name docs];
     dataToWrite := delete name (dataToWrite w);
     metadata := metadata w;
     prototype := prototype w |}.

(** Every key of the pending map has a non-empty buffer. *)
Definition buffers_nonempty (w : World) : Prop :=
  ∀ name docs, dataToWrite w !! name = Some docs → docs ≠ [].

(** [db.collection] always delivers a collection object. *)
Definition handles_delivered (env : Env) : Prop :=
  ∀ h name, reply_handle env h name = true.

(** The create-indexes requests of a trace, in order: the collection named
    and its index specifications. *)
Definition createIndexes_requests (t : list Event) : list (string * Document) :=
  omap (fun e => match e with
                 | DbCommandCreateIndexes name indexes => Some (name, indexes)
                 | _ => None
                 end) t.

Definition is_createIndexes (e : Event) : Prop :=
  match e with
  | DbCommandCreateIndexes _ _ => True
  | _ => False
  end.

Definition is_logger (e : Event) : Prop :=
  match e with
  | LoggerCall _ => True
  | _ => False
  end.

(** The requests a flush or an index replay makes. *)
Definition is_write_request (e : Event) : Prop :=
  match e with
  | DbCollection _ | CollectionBulkWrite _ _ | DbCommandCreateIndexes _ _ => True
  | _ => False
  end.

(** The events of a flush of a collection that has a key in [m]. *)
Definition flush_event (m : gmap string (list Document)) (e : Event) : Prop :=
  match e with
  | DbCollection name | CollectionBulkWrite name _ => is_Some (m !! name)
  | LoggerCall _ => True
  | _ => False
  end.

(** In the events [t] that follow the history [h], every write request the
    database answers with an error is followed at once by the log of that
    error's message. *)
Definition errors_logged (env : Env) (h t : list Event) : Prop :=
  ∀ pre e post x,
    t = pre ++ e :: post →
    is_write_request e →
    reply_err env (h ++ pre) e = Some x →
    ∃ post', post = LoggerCall (err_message x) :: post'.

(** The events of a flush of the collection [name]. *)
Definition flush_event_for (name : string) (e : Event) : Prop :=
  match e with
  | DbCollection n | CollectionBulkWrite n _ => n = name
  | LoggerCall _ => True
  | _ => False
  end.

(** The create-collection and the batched insert fail. *)
Definition failing_env : Env :=
  sample_env
    (fun _ e => match e with
                | DbCreateCollection _ => Some (ErrorObject "collection already exists")
                | CollectionBulkWrite _ _ => Some (ErrorObject "insert failed")
                | DbCommandCreateIndexes _ _ => Some (ErrorObject "index failed")
                | _ => None
                end)
    (fun _ _ => true) (fun _ => Some []) (fun _ => Some []).

(** Fifty pending documents for [users]. *)
Definition fifty_pending : World :=
  set_dataToWrite {[ "users" := replicate 50 VNull ]} initial_world.

(** Two metadata records, [users] pushed first. *)
Definition two_records : World :=
  set_metadata [mkMetadata "users" (VArray [VString "name"]);
                mkMetadata "orders" (VArray [VString "date"])] initial_world.

(** The calls a run may make, with metadata replay switched to [sm] and
    index replay allowed ([ix]) or not: the reserved name is never
    created and never written to, a blob under the reserved directory is
    listened to only when metadata replay is on, and create-indexes
    requests appear only when index replay is allowed. *)
Definition permitted (sm ix : bool) (e : Event) : Prop :=
  match e with
  | DbCreateCollection name => name ≠ metadata_name
  | CollectionBulkWrite name _ => name ≠ metadata_name
  | DbCommandCreateIndexes _ _ => ix = true
  | StreamOn name =>
      sm = true ∨ collectionNameForFiles (replace_backslashes name) ≠ Some metadata_name
  | _ => True
  end.

(** The invariant of the dispatch: only permitted calls so far, no pending
    buffer under the reserved name, no empty pending buffer. *)
Record Inv (sm ix : bool) (w : World) : Prop := mkInv {
  inv_trace : Forall (permitted sm ix) (trace w);
  inv_reserved : dataToWrite w !! metadata_name = None;
  inv_nonempty : buffers_nonempty w
}.

(** The operation calls its callback, or throws, in a world where [P]
    holds. *)
Definition steps (P : World → Prop) (k : Callback) (o : Outcome) : Prop :=
  ∃ w', P w' ∧ ((∃ err, o = k err w') ∨ (∃ ex, o = Thrown ex w')).

(** The same, for an operation whose recursion is bounded: it may also
    exhaust the bound. *)
Definition reaches (P : World → Prop) (k : Callback) (o : Outcome) : Prop :=
  ∃ w', P w' ∧ ((∃ err, o = k err w') ∨ (∃ ex, o = Thrown ex w') ∨ o = Diverged w').

(** [P] holds of the world the run ends in. *)
Definition ends (P : World → Prop) (o : Outcome) : Prop := P (world_of o).

(** The calls of the session itself and of the collection dropper. *)
Definition session_event (e : Event) : Prop :=
  match e with
  | MongoConnect _ | DbDropDatabase | DbCollections | DbCollection _
  | CollectionDrop _ | DbClose | LoggerCall _ | UserCallback _ => True
  | _ => False
  end.

(** The calls of the import proper: creating collections, reading and
    decoding blobs, inserting documents, creating indexes. *)
Definition import_event (e : Event) : Prop :=
  match e with
  | DbCreateCollection _ | CollectionBulkWrite _ _ | DbCommandCreateIndexes _ _
  | FsCreateReadStream _ | StreamOn _ | Parse _ _ => True
  | _ => False
  end.

(** A small archive: one collection with one document, and the index
    specifications of that collection. *)
Definition dump_entries : list TarEntry :=
  [ mkEntry directory "mydb/users/" (Chunks []);
    mkEntry file "mydb/users/doc1.json" (Chunks [[Byte.x7b; Byte.x7d]]);
    mkEntry directory "mydb/.metadata/" (Chunks []);
    mkEntry file "mydb/.metadata/users" (Chunks [[Byte.x5b]; [Byte.x5d]]) ].

(** A restore from a live archive stream, with metadata replay [sm]. *)
Definition stream_options (sm : bool) : Options :=
  {| my_uri := "mongodb://localhost/test";
     my_root := "/dump/";
     my_stream := Some dump_entries;
     my_parser := ParserString "json";
     my_callback := true;
     my_tar := TarTrue;
     my_logger := None;
     my_metadata := sm;
     my_drop := false;
     my_dropCollections := DropNull |}.

(** A restore from the directory [/dump/], with drop policy [d]. *)
Definition directory_options (d : DropCollections) : Options :=
  {| my_uri := "mongodb://localhost/test";
     my_root := "/dump/";
     my_stream := None;
     my_parser := ParserString "bson";
     my_callback := true;
     my_tar := TarNull;
     my_logger := None;
     my_metadata := true;
     my_drop := false;
     my_dropCollections := d |}.

(** A dump root with two top-level directories. *)
Definition two_roots_env : Env :=
  sample_env (fun _ _ => None) (fun _ _ => true) (fun _ => Some [])
    (fun path => if decide (path = "/dump/") then Some ["mydb"; "other"] else Some []).

(** A dump root that holds no directory, only the regular file
    [notes.txt]: listing it as a directory throws. *)
Definition file_only_env : Env :=
  sample_env (fun _ _ => None) (fun _ _ => true) (fun _ => Some [])
    (fun path => if decide (path = "/dump/") then Some ["notes.txt"] else None).

(** A dump root [/dump/mydb] with the collection [users] holding one
    document, and the index specifications of [users]. *)
Definition one_root_env : Env :=
  sample_env (fun _ _ => None) (fun _ _ => true) (fun _ => Some ["users"; "system.indexes"])
    (fun path =>
       if decide (path = "/dump/") then Some ["mydb"]
       else if decide (path = "/dump/mydb") then Some ["users"; ".metadata"]
       else if decide (path = "/dump/mydb/users") then Some ["doc1.bson"]
       else if decide (path = "/dump/mydb/.metadata") then Some ["users"]
       else None).

(** The listing of the collections fails: an error and no array. *)
Definition listing_fails_env : Env :=
  sample_env
    (fun _ e => match e with
                | DbCollections => Some (ErrorObject "connection lost")
                | _ => None
                end)
    (fun _ _ => true) (fun _ => None) (fun _ => Some ["mydb"]).

(** The completion callback [importDataToDb] gives its dump source: close
    the connection, then the last callback. *)
Definition closing (my : Options) : Callback :=
  fun err w => latest_callback my err (emit DbClose (logger (LogString "db close") w)).

(** The listing of the collections answers with an error and with an
    array. *)
Definition listing_error_with_names_env : Env :=
  sample_env
    (fun _ e => match e with
                | DbCollections => Some (ErrorObject "connection lost")
                | _ => None
                end)
    (fun _ _ => true) (fun _ => Some ["users"]) (fun _ => Some []).

(** No slash occurs in the text. *)
Fixpoint slash_free (s : string) : bool :=
  match s with
  | EmptyString => true
  | String c r => negb (Ascii.eqb c slash) && slash_free r
  end.

(** A path segment: non-empty and without slash, what [[^/]+] matches. *)
Definition is_segment (s : string) : Prop := s ≠ "" ∧ slash_free s = true.



(** The name is read and written as an ordinary key of [dataToWrite]:
    the prototype is still [Object.prototype] and the name is not
    [__proto__]. *)
Definition plain (w : World) (name : string) : Prop :=
  prototype w = None ∧ name ≠ proto_name.

(** The world after the first statement of [addDocument]: the document
    pushed onto the array the read finds, or assigned as a new array. *)
Definition appended (name : string) (doc : Document) (w : World) : World :=
  match get_array w name with
  | Some (OwnSlot documents) =>
      set_dataToWrite (<[name := documents ++ [doc]]> (dataToWrite w)) w
  | Some (ProtoSlot documents) => set_prototype (Some (documents ++ [doc])) w
  | Some (ElementSlot array k items) =>
      set_prototype (Some (<[k := VArray (items ++ [doc])]> array)) w
  | None =>
      if decide (name = proto_name) then set_prototype (Some [doc]) w
      else set_dataToWrite (<[name := [doc]]> (dataToWrite w)) w
  end.

(** The documents [dataToWrite[name]] holds, when it is an array. *)
Definition held (w : World) (name : string) : list Document :=
  default [] (slot_documents <$> get_array w name).

(** [addDocument] called for each document in turn, each call from the
    callback of the one before. *)
Fixpoint addDocuments (env : Env) (name : string) (docs : list Document)
    (next : Callback) (w : World) : Outcome :=
  match docs with
  | [] => next None w
  | doc :: rest =>
      writer_addDocument env name doc (fun _ => addDocuments env name rest next) w
  end.

(** The documents [1], ..., [n]. *)
Definition numbered (n : nat) : list Document :=
  (fun k => VNumber (Z.of_nat k)) <$> seq 1 n.

(** An archive with one document for a collection named [__proto__] and
    the index specifications of the collection [users]. *)
Definition proto_entries : list TarEntry :=
  [ mkEntry file "mydb/__proto__/doc1.json" (Chunks [[Byte.x7b; Byte.x7d]]);
    mkEntry file "mydb/.metadata/users" (Chunks [[Byte.x5b]; [Byte.x5d]]) ].
(** ** Further vocabulary *)

(** No backslash occurs in the text. *)
Fixpoint backslash_free (s : string) : bool :=
  match s with
  | EmptyString => true
  | String c r => negb (Ascii.eqb c backslash) && backslash_free r
  end.

(** The documents of the batched inserts a trace holds for the collection
    [name], in the order they were sent. *)
Definition sent (name : string) (t : list Event) : list Document :=
  flat_map (fun e =>
              match e with
              | CollectionBulkWrite n operations =>
                  if decide (n = name)
                  then (fun o => match o with insertOne d => d end) <$> operations
                  else []
              | _ => []
              end) t.

(** The collections a trace asks [db.collection] for, in order. *)
Definition collection_requests (t : list Event) : list string :=
  omap (fun e => match e with DbCollection name => Some name | _ => None end) t.

(** The collections a trace asks to drop, in order. *)
Definition drop_requests (t : list Event) : list string :=
  omap (fun e => match e with CollectionDrop name => Some name | _ => None end) t.


(** [w'] is [w] after some more calls, all in the class [C]. *)
Definition Ext (C : Event → Prop) (w w' : World) : Prop :=
  ∃ t, trace w' = trace w ++ t ∧ Forall C t.

(** The calls of the writer. *)
Definition writer_event (e : Event) : Prop :=
  match e with
  | DbCreateCollection _ | DbCollection _ | CollectionBulkWrite _ _
  | DbCommandCreateIndexes _ _ | LoggerCall _ => True
  | _ => False
  end.

(** The calls of a flush. *)
Definition flush_call (e : Event) : Prop :=
  match e with
  | DbCollection _ | CollectionBulkWrite _ _ | LoggerCall _ => True
  | _ => False
  end.

(** The calls [onFile] can lead to. *)
Definition onFile_event (e : Event) : Prop :=
  match e with
  | StreamOn _ | Parse _ _ | DbCollection _ | CollectionBulkWrite _ _
  | LoggerCall _ => True
  | _ => False
  end.

(** The calls [finish] can lead to. *)
Definition finish_event (e : Event) : Prop :=
  match e with
  | DbCollection _ | CollectionBulkWrite _ _ | DbCommandCreateIndexes _ _
  | LoggerCall _ => True
  | _ => False
  end.

(** The calls of the dispatcher and of the writer behind it. *)
Definition listener_event (e : Event) : Prop :=
  match e with
  | DbCreateCollection _ | DbCollection _ | CollectionBulkWrite _ _
  | DbCommandCreateIndexes _ _ | LoggerCall _ | StreamOn _ | Parse _ _ => True
  | _ => False
  end.

(** The calls by which the file-system source announces the
    collections. *)
Definition announce_event (e : Event) : Prop :=
  match e with
  | DbCreateCollection _ | LoggerCall _ => True
  | _ => False
  end.

(** The log line of [someCollections] for a resolved collection. *)
Definition select_line (name : string) : Event :=
  LoggerCall (LogString ("select collection " +:+ name)).

(** The calls of [someCollections] over the collections [names]. *)
Definition dropper_event (names : list string) (e : Event) : Prop :=
  match e with
  | DbCollection name | CollectionDrop name => name ∈ names
  | LoggerCall _ => True
  | _ => False
  end.

(** Every drop fails: the collections do not exist. *)
Definition drop_fails_env : Env :=
  sample_env
    (fun _ e => match e with
                | CollectionDrop _ => Some (ErrorObject "ns not found")
                | _ => None
                end)
    (fun _ _ => true) (fun _ => Some ["users"; "system.indexes"; "orders"])
    (fun _ => Some []).

(** No collection resolves: [db.collection] answers with an error (and a
    collection object). *)
Definition resolve_fails_env : Env :=
  sample_env
    (fun _ e => match e with
                | DbCollection _ => Some (ErrorObject "no such collection")
                | _ => None
                end)
    (fun _ _ => true) (fun _ => Some []) (fun _ => Some []).

(** The collections the drop policy of [my] allows to drop one by one. *)
Definition droppable (my : Options) (name : string) : Prop :=
  match my_dropCollections my with
  | DropArray names => name ∈ names
  | DropTruthy => systemRegex name = false
  | DropNull => False
  end.

(** The calls a run with the options [my] may make before it closes the
    connection: the connection attempt to the configured address, the drops
    its policy allows, the file-system calls of its source (the listing of
    directories and the opening of blobs for a directory dump, the opening
    of the archive file for an archive dump without a live stream), and
    the calls of the dispatcher and the writer.  Closing the connection and
    calling the user's callback are not among them. *)
Definition run_call (my : Options) (e : Event) : Prop :=
  match e with
  | MongoConnect uri => uri = my_uri my
  | DbDropDatabase => my_drop my = true
  | DbCollections => my_drop my = false ∧ my_dropCollections my = DropTruthy
  | CollectionDrop name => my_drop my = false ∧ droppable my name
  | FsReaddirSync _ => tar_falsy (my_tar my) = true
  | FsCreateReadStream path =>
      tar_falsy (my_tar my) = true
      ∨ (my_stream my = None ∧ path = tar_path (my_root my) (my_tar my))
  | DbClose | UserCallback _ => False
  | _ => True
  end.

(** What the last callback adds to the trace. *)
Definition final_events (my : Options) (err : option Err) : list Event :=
  LoggerCall (LogString "restore stop")
  :: (if my_callback my
      then [LoggerCall (LogString "callback run"); UserCallback err]
      else match err with
           | Some e => [LoggerCall (LogErr e)]
           | None => []
           end).

(** What closing the connection adds to the trace. *)
Definition close_events : list Event :=
  [LoggerCall (LogString "db close"); DbClose].

(** The calls of the file-system source while it announces the
    collections. *)
Definition directory_phase_event (e : Event) : Prop :=
  match e with
  | FsReaddirSync _ | DbCreateCollection _ | LoggerCall _ => True
  | _ => False
  end.

(** The calls of the file-system source from the second listing of the
    database directory on: everything the dispatcher and the writer can
    do except creating a collection. *)
Definition file_phase_event (e : Event) : Prop :=
  match e with
  | FsReaddirSync _ | FsCreateReadStream _ | StreamOn _ | Parse _ _
  | DbCollection _ | CollectionBulkWrite _ _ | DbCommandCreateIndexes _ _
  | LoggerCall _ => True
  | _ => False
  end.

(** The first log line of a run, when a log file is configured. *)
Definition log_start (my : Options) : list Event :=
  match my_logger my with
  | Some _ => [LoggerCall (LogString "restore start")]
  | None => []
  end.

(** The archive file of the run, if the run reads one, can be read. *)
Definition archive_readable (env : Env) (my : Options) : Prop :=
  tar_falsy (my_tar my) = false →
  my_stream my = None →
  ∃ buffers,
    createReadStream env (log_start my) (tar_path (my_root my) (my_tar my))
    = Chunks buffers.

(** What a run does before it connects: the first log line when a log
    file is configured, and the opening of the archive file when the dump
    is an archive that is not a live stream. *)
Definition prelude (my : Options) : list Event :=
  match my_logger my with
  | Some _ => [LoggerCall (LogString "restore start")]
  | None => []
  end
  ++ (if tar_falsy (my_tar my) then []
      else match my_stream my with
           | Some _ => []
           | None => [FsCreateReadStream (tar_path (my_root my) (my_tar my))]
           end).

(** The dump root cannot be listed. *)
Definition unreadable_root_env : Env :=
  sample_env (fun _ _ => None) (fun _ _ => true) (fun _ => Some []) (fun _ => None).

(** The server cannot be reached. *)
Definition unreachable_env : Env :=
  sample_env
    (fun _ e => match e with
                | MongoConnect _ => Some (ErrorObject "connection refused")
                | _ => None
                end)
    (fun _ _ => true) (fun _ => Some []) (fun _ => Some []).

(** Dropping the database fails. *)
Definition dropDatabase_fails_env : Env :=
  sample_env
    (fun _ e => match e with
                | DbDropDatabase => Some (ErrorObject "not authorized")
                | _ => None
                end)
    (fun _ _ => true) (fun _ => Some []) (fun _ => Some []).

(** A restore from the archive file [/dump/db.tar] that drops the database
    first and logs to a file. *)
Definition archive_options : Options :=
  {| my_uri := "mongodb://localhost/test";
     my_root := "/dump/";
     my_stream := None;
     my_parser := ParserString "bson";
     my_callback := true;
     my_tar := TarString "db.tar";
     my_logger := Some "/var/log/restore.log";
     my_metadata := false;
     my_drop := true;
     my_dropCollections := DropArray ["users"] |}.

(** The document the blob at [path] holds for the collection [name]: the
    decoded content of the blob when its path names that collection, the
    collection is not the reserved one, the stream can be read and the
    content decodes; nothing otherwise. *)
Definition file_document (env : Env) (parser : Parser) (name path : string)
    (stream : ReadStream) : list Document :=
  match collectionNameForFiles (replace_backslashes path), stream, parse parser with
  | Some collection, Chunks buffers, Some d =>
      if decide (collection = name ∧ collection ≠ metadata_name) then
        match decode env d (Buffer_concat buffers) with
        | Some doc => [doc]
        | None => []
        end
      else []
  | _, _, _ => []
  end.

(** The documents an archive holds for the collection [name], in the
    order of its entries. *)
Definition dump_documents (env : Env) (parser : Parser) (name : string)
    (entries : list TarEntry) : list Document :=
  flat_map (fun entry =>
              match header_type entry with
              | file => file_document env parser name (header_name entry) (entry_stream entry)
              | _ => []
              end) entries.

(** The calls of a session before the import begins: the connection
    attempt, the drops and what they need, and log lines. *)
Definition drop_phase_event (e : Event) : Prop :=
  match e with
  | MongoConnect _ | DbDropDatabase | DbCollections | DbCollection _
  | CollectionDrop _ | LoggerCall _ => True
  | _ => False
  end.

(** The calls of a session once the import has begun: anything but a
    connection attempt, a drop or the listing of the collections. *)
Definition import_phase_event (e : Event) : Prop :=
  match e with
  | MongoConnect _ | DbDropDatabase | DbCollections | CollectionDrop _ => False
  | _ => True
  end.

(** The server refuses to create collections and to drop them. *)
Definition reluctant_env : Env :=
  sample_env
    (fun _ e => match e with
                | DbCreateCollection _ => Some (ErrorObject "collection already exists")
                | CollectionDrop _ => Some (ErrorObject "ns not found")
                | _ => None
                end)
    (fun _ _ => true) (fun _ => Some ["users"; "system.indexes"]) (fun _ => Some []).

(** A restore from a live archive stream that first drops every
    collection of the database. *)
Definition dropping_stream_options : Options :=
  {| my_uri := "mongodb://localhost/test";
     my_root := "/dump/";
     my_stream := Some dump_entries;
     my_parser := ParserString "JSON";
     my_callback := false;
     my_tar := TarTrue;
     my_logger := None;
     my_metadata := true;
     my_drop := false;
     my_dropCollections := DropTruthy |}.

(** The two phases of a session, as worlds: from [w], calls of the drop
    phase lead to some world, and calls of the import phase lead from
    there to the world [o] ends in. *)
Definition in_phases (w : World) (o : Outcome) : Prop :=
  ∃ w1, Ext drop_phase_event w w1 ∧ Ext import_phase_event w1 (world_of o).


(** No blob of the archive belongs to a collection named [__proto__]. *)
Definition no_proto_collection (entries : list TarEntry) : Prop :=
  Forall (fun entry =>
            header_type entry = file →
            collectionNameForFiles (replace_backslashes (header_name entry))
            ≠ Some proto_name) entries.




(** ** The option checks

    [restore(options)], the exported function: it checks the options,
    builds the parsed options [my] and runs [wrapper(my)].  The options
    object is modelled field by field with what [restore] tests of it:
    a text option is absent ([None]: [undefined], or a value that is not a
    string where the code tests [typeof]) or a string; a flag is modelled
    by its truth value.  [uri] and [root], which the code converts with
    [String(...)], are taken to be strings when present, as the README
    asks. *)

Record RawOptions : Type := mkRawOptions {
  opt_uri : option string;
  opt_root : option string;
  (** [opt.stream]: the entries the stream decodes to; [None] if falsy. *)
  opt_stream : option (list TarEntry);
  (** [opt.parser]; [None] if absent or a falsy value that is not a string. *)
  opt_parser : option ParserOption;
  (** [typeof opt.callback === 'function'] *)
  opt_callback : bool;
  (** [opt.tar] if [typeof opt.tar === 'string'] *)
  opt_tar : option string;
  (** [opt.logger] if [typeof opt.logger === 'string'] *)
  opt_logger : option string;
  (** [Boolean(opt.metadata)] *)
  opt_metadata : bool;
  (** [Boolean(opt.drop)] *)
  opt_drop : bool;
  (** [opt.dropCollections]; [DropNull] if falsy. *)
  opt_dropCollections : DropCollections
}.

(** [Object.create(null)]: no option at all. *)
Definition no_options : RawOptions :=
  {| opt_uri := None; opt_root := None; opt_stream := None; opt_parser := None;
     opt_callback := false; opt_tar := None; opt_logger := None;
     opt_metadata := false; opt_drop := false; opt_dropCollections := DropNull |}.

(** What [restore] itself asks of the host: [fs.existsSync],
    [fs.statSync(path).isDirectory()] ([None] when [statSync] throws),
    [path.resolve] and [path.sep]. *)
Record Host : Type := mkHost {
  existsSync : string → bool;
  statSync_isDirectory : string → option bool;
  path_resolve : string → string;
  path_sep : string
}.

(** What [restore] throws before it starts a run. *)
Inductive OptionError : Type :=
| MissingUriOption
| MissingRootOption
| RootNotADirectory
| StatError.

(** Truthiness of a text option: absent and the empty string are
    falsy. *)
Definition truthy_text (s : option string) : bool :=
  match s with
  | Some s => negb (bool_decide (s = ""))
  | None => false
  end.

(** [String(x)] of a text option. *)
Definition String_of (s : option string) : string := default "undefined" s.

(** [opt.parser || 'bson'] *)
Definition parser_or_bson (p : option ParserOption) : ParserOption :=
  match p with
  | None => ParserString "bson"
  | Some (ParserString s) => if bool_decide (s = "") then ParserString "bson" else ParserString s
  | Some p => p
  end.

(** The object [my] as the literal builds it. *)
Definition my_literal (host : Host) (opt : RawOptions) : Options :=
  {| my_uri := String_of (opt_uri opt);
     my_root := path_resolve host (String_of (opt_root opt)) +:+ path_sep host;
     my_stream := opt_stream opt;
     my_parser := parser_or_bson (opt_parser opt);
     my_callback := opt_callback opt;
     my_tar := match opt_tar opt with
               | Some s => TarString s
               | None => TarNull
               end;
     my_logger := path_resolve host <$> opt_logger opt;
     my_metadata := opt_metadata opt;
     my_drop := opt_drop opt;
     my_dropCollections := opt_dropCollections opt |}.

(** [my.tar = true] *)
Definition set_tar_true (my : Options) : Options :=
  {| my_uri := my_uri my;
     my_root := my_root my;
     my_stream := my_stream my;
     my_parser := my_parser my;
     my_callback := my_callback my;
     my_tar := TarTrue;
     my_logger := my_logger my;
     my_metadata := my_metadata my;
     my_drop := my_drop my;
     my_dropCollections := my_dropCollections my |}.

(** The parsed options: [if (my.stream) { my.tar = true; }]. *)
Definition parsed_options (host : Host) (opt : RawOptions) : Options :=
  let my := my_literal host opt in
  match my_stream my with
  | Some _ => set_tar_true my
  | None => my
  end.

(** The check of [root], made only when there is no stream. *)
Definition check_root (host : Host) (opt : RawOptions) : option OptionError :=
  if negb (truthy_text (opt_root opt)) then Some MissingRootOption
  else
    let root := String_of (opt_root opt) in
    if negb (existsSync host root) then Some RootNotADirectory
    else
      match statSync_isDirectory host root with
      | None => Some StatError
      | Some false => Some RootNotADirectory
      | Some true => None
      end.

Definition restore (env : Env) (fuel : nat) (host : Host)
    (options : option RawOptions) (w : World) : OptionError + Outcome :=
  let opt := default no_options options in
  if negb (truthy_text (opt_uri opt)) then inl MissingUriOption
  else
    match (match opt_stream opt with
           | Some _ => None
           | None => check_root host opt
           end) with
    | Some e => inl e
    | None => inr (wrapper env fuel (parsed_options host opt) w)
    end.

(** A host on which nothing exists. *)
Definition bare_host : Host :=
  {| existsSync := fun _ => false;
     statSync_isDirectory := fun _ => None;
     path_resolve := fun p => "/srv/" +:+ p;
     path_sep := "/" |}.

(** A restore from a live stream, with a [root] that does not exist and
    a [tar] name besides. *)
Definition stream_call : RawOptions :=
  {| opt_uri := Some "mongodb://localhost/test";
     opt_root := Some "nowhere";
     opt_stream := Some dump_entries;
     opt_parser := Some (ParserString "json");
     opt_callback := true;
     opt_tar := Some "db.tar";
     opt_logger := None;
     opt_metadata := true;
     opt_drop := false;
     opt_dropCollections := DropNull |}.

(** ** The three path patterns *)

Section PathFacts.

Lemma string_app_assoc (a b c : string) : (a +:+ b) +:+ c = a +:+ b +:+ c.
Proof.
  induction a as [|x a IH]; [done|].
  change (String x (a +:+ b +:+ c)) with (String x a +:+ b +:+ c) in *.
  change ((String x a +:+ b) +:+ c) with (String x ((a +:+ b) +:+ c)).
  by rewrite IH.
Qed.

Lemma segments_nonempty (s : string) : segments s ≠ [].
Proof.
  destruct s as [|c r]; [done|]. cbn.
  destruct (Ascii.eqb c slash); [done|]. by destruct (segments r).
Qed.

Lemma segments_slash_free (s : string) : slash_free s = true → segments s = [s].
Proof.
  induction s as [|c r IH]; [done|]. cbn.
  destruct (Ascii.eqb c slash); [done|]. cbn. intros Hr. by rewrite IH.
Qed.

Lemma segments_app_slash (a b : string) :
  segments (a +:+ "/" +:+ b) = segments a ++ segments b.
Proof.
  induction a as [|c r IH]; [done|].
  change (String c r +:+ "/" +:+ b) with (String c (r +:+ "/" +:+ b)).
  cbn [segments]. rewrite IH.
  destruct (Ascii.eqb c slash); [done|].
  pose proof (segments_nonempty r). by destruct (segments r).
Qed.

Lemma segments_join (s : string) : join_slash (segments s) = s.
Proof.
  induction s as [|c r IH]; [done|]. cbn [segments].
  destruct (Ascii.eqb_spec c slash) as [->|Hc].
  - pose proof (segments_nonempty r).
    cbn [join_slash]. destruct (segments r); [done|]. by rewrite IH.
  - pose proof (segments_nonempty r).
    destruct (segments r) as [|seg rest]; [done|].
    destruct rest; cbn [join_slash] in *; by rewrite <- IH.
Qed.

Lemma segments_all_slash_free (s : string) :
  Forall (fun seg => slash_free seg = true) (segments s).
Proof.
  induction s as [|c r IH]; [by constructor|]. cbn [segments].
  destruct (Ascii.eqb c slash) eqn:Hc; [by constructor|].
  destruct (segments r) as [|seg rest]; [by repeat constructor; cbn; rewrite Hc|].
  inversion IH; subst. constructor; [|done]. cbn. by rewrite Hc.
Qed.

Lemma join_slash_app (l1 l2 : list string) :
  l1 ≠ [] → l2 ≠ [] →
  join_slash (l1 ++ l2) = join_slash l1 +:+ "/" +:+ join_slash l2.
Proof.
  intros H1 H2. induction l1 as [|s [|s' rest] IH]; [done| |].
  - cbn. by destruct l2.
  - change ((s :: s' :: rest) ++ l2) with (s :: (s' :: rest) ++ l2).
    cbn [join_slash]. cbn [app]. rewrite <- app_comm_cons in IH.
    rewrite IH by done. cbn [join_slash].
    by rewrite !string_app_assoc.
Qed.

Lemma nonempty_Some (s c : string) : nonempty s = Some c ↔ s = c ∧ s ≠ "".
Proof.
  destruct s; cbn; split; try done.
  - by intros [_ ?].
  - by intros [= <-].
  - by intros [-> _].
Qed.

(** [collectionNameForFiles] returns [c] exactly on the texts that end in
    a slash, the segment [c], a slash and one more segment: the matches
    of [.*/([^/]+)/[^/]+$]. *)
Lemma collectionNameForFiles_spec (s c : string) :
  collectionNameForFiles s = Some c ↔
  ∃ p f, s = p +:+ "/" +:+ c +:+ "/" +:+ f ∧ is_segment c ∧ is_segment f.
Proof.
  unfold collectionNameForFiles. split.
  - destruct (rev (segments s)) as [|f [|c' [|x rest]]] eqn:Hrev; try done.
    destruct (nonempty f) as [f'|] eqn:Hf; [|done].
    apply nonempty_Some in Hf as [_ Hf].
    intros [-> Hc]%nonempty_Some.
    assert (segments s = (rev rest ++ [x]) ++ [c] ++ [f]) as Hseg.
    { rewrite <- (rev_involutive (segments s)), Hrev. cbn.
      by rewrite <- !app_assoc. }
    pose proof (segments_all_slash_free s) as Hall. rewrite Hseg in Hall.
    apply Forall_app in Hall as [_ Hall].
    apply Forall_app in Hall as [Hcs Hfs].
    inversion Hcs; subst. inversion Hfs; subst.
    exists (join_slash (rev rest ++ [x])), f. split; [|done].
    rewrite <- (segments_join s) at 1. rewrite Hseg.
    rewrite join_slash_app; [|by destruct (rev rest)|done].
    done.
  - intros (p & f & -> & [Hc Hcs] & [Hf Hfs]).
    rewrite !segments_app_slash, (segments_slash_free c), (segments_slash_free f) by done.
    rewrite !rev_app_distr. cbn.
    pose proof (segments_nonempty p) as Hp.
    destruct (rev (segments p)) as [|x rest] eqn:Hrev.
    { exfalso. apply Hp. by rewrite <- (rev_involutive (segments p)), Hrev. }
    destruct f; [done|]. destruct c; done.
Qed.

(** [metadataFilenameRegexp] returns the last segment on the same texts:
    the matches of [.*/[^/]+/([^/]+)$]. *)
Lemma metadataFilenameRegexp_spec (s f : string) :
  metadataFilenameRegexp s = Some f ↔
  ∃ p c, s = p +:+ "/" +:+ c +:+ "/" +:+ f ∧ is_segment c ∧ is_segment f.
Proof.
  unfold metadataFilenameRegexp. split.
  - destruct (rev (segments s)) as [|f' [|c [|x rest]]] eqn:Hrev; try done.
    destruct (nonempty c) as [c'|] eqn:Hc; [|done].
    apply nonempty_Some in Hc as [_ Hc].
    intros [-> Hf]%nonempty_Some.
    assert (segments s = (rev rest ++ [x]) ++ [c] ++ [f]) as Hseg.
    { rewrite <- (rev_involutive (segments s)), Hrev. cbn.
      by rewrite <- !app_assoc. }
    pose proof (segments_all_slash_free s) as Hall. rewrite Hseg in Hall.
    apply Forall_app in Hall as [_ Hall].
    apply Forall_app in Hall as [Hcs Hfs].
    inversion Hcs; subst. inversion Hfs; subst.
    exists (join_slash (rev rest ++ [x])), c. split; [|done].
    rewrite <- (segments_join s) at 1. rewrite Hseg.
    rewrite join_slash_app; [|by destruct (rev rest)|done].
    done.
  - intros (p & c & -> & [Hc Hcs] & [Hf Hfs]).
    rewrite !segments_app_slash, (segments_slash_free c), (segments_slash_free f) by done.
    rewrite !rev_app_distr. cbn.
    pose proof (segments_nonempty p) as Hp.
    destruct (rev (segments p)) as [|x rest] eqn:Hrev.
    { exfalso. apply Hp. by rewrite <- (rev_involutive (segments p)), Hrev. }
    destruct c; [done|]. destruct f; done.
Qed.

(** [collectionNameForDirectory] returns [c] exactly on the texts that end
    in a slash and the segment [c], with or without one more slash: the
    matches of [.*/([^/]+)/?$]. *)
Lemma collectionNameForDirectory_spec (s c : string) :
  collectionNameForDirectory s = Some c ↔
  ∃ p, (s = p +:+ "/" +:+ c ∨ s = p +:+ "/" +:+ c +:+ "/") ∧ is_segment c.
Proof.
  unfold collectionNameForDirectory. split.
  - pose proof (segments_all_slash_free s) as Hall.
    pose proof (segments_join s) as Hjoin.
    destruct (rev (segments s)) as [|l r] eqn:Hrev; [done|].
    assert (segments s = rev r ++ [l]) as Hseg.
    { by rewrite <- (rev_involutive (segments s)), Hrev. }
    destruct l as [|a l].
    + destruct r as [|c' [|x rest]]; try done.
      intros [-> Hc]%nonempty_Some.
      assert (segments s = (rev rest ++ [x]) ++ [c] ++ [""]) as Hseg'.
      { rewrite Hseg. cbn. by rewrite <- !app_assoc. }
      rewrite Hseg' in Hall, Hjoin.
      apply Forall_app in Hall as [_ Hall]. apply Forall_cons in Hall as [Hcs _].
      exists (join_slash (rev rest ++ [x])). split; [|done]. right.
      rewrite <- Hjoin. rewrite join_slash_app; [|by destruct (rev rest)|done].
      done.
    + destruct r as [|x rest]; [done|].
      intros [<- Hc]%nonempty_Some.
      assert (segments s = (rev rest ++ [x]) ++ [String a l]) as Hseg'.
      { rewrite Hseg. by cbn. }
      rewrite Hseg' in Hall, Hjoin.
      apply Forall_app in Hall as [_ Hall]. apply Forall_cons in Hall as [Hcs _].
      exists (join_slash (rev rest ++ [x])). split; [|done]. left.
      rewrite <- Hjoin. rewrite join_slash_app; [|by destruct (rev rest)|done].
      done.
  - intros (p & [-> | ->] & [Hc Hcs]).
    + rewrite segments_app_slash, (segments_slash_free c) by done.
      rewrite rev_app_distr. cbn.
      pose proof (segments_nonempty p) as Hp.
      destruct (rev (segments p)) as [|x rest] eqn:Hrev.
      { exfalso. apply Hp. by rewrite <- (rev_involutive (segments p)), Hrev. }
      destruct c; done.
    + change (c +:+ "/") with (c +:+ "/" +:+ "").
      rewrite !segments_app_slash, (segments_slash_free c) by done.
      rewrite !rev_app_distr. cbn.
      pose proof (segments_nonempty p) as Hp.
      destruct (rev (segments p)) as [|x rest] eqn:Hrev.
      { exfalso. apply Hp. by rewrite <- (rev_involutive (segments p)), Hrev. }
      destruct c; done.
Qed.

End PathFacts.
(** ** The writer: flushing *)

Section WriterFacts.

Variable env : Env.

Lemma trace_error (err : option Err) (w : World) :
  trace (error err w) = trace w ++ log_events err.
Proof. destruct err; simpl; [done|]. by rewrite app_nil_r. Qed.

Lemma dataToWrite_error (err : option Err) (w : World) :
  dataToWrite (error err w) = dataToWrite w.
Proof. by destruct err. Qed.

Lemma metadata_error (err : option Err) (w : World) :
  metadata (error err w) = metadata w.
Proof. by destruct err. Qed.

Lemma prototype_error (err : option Err) (w : World) :
  prototype (error err w) = prototype w.
Proof. by destruct err. Qed.

Lemma error_world (err : option Err) (w : World) :
  error err w =
  {| trace := trace w ++ log_events err;
     dataToWrite := dataToWrite w;
     metadata := metadata w;
     prototype := prototype w |}.
Proof. destruct err; simpl; [done|]. rewrite app_nil_r. by destruct w. Qed.

(** An own property is found first. *)
Lemma get_array_own (name : string) (docs : list Document) (w : World) :
  dataToWrite w !! name = Some docs → get_array w name = Some (OwnSlot docs).
Proof. intros Hdocs. unfold get_array. by rewrite Hdocs. Qed.

(** With the first prototype and a name other than [__proto__], only own
    properties are arrays. *)
Lemma get_array_plain (name : string) (w : World) :
  plain w name → get_array w name = OwnSlot <$> dataToWrite w !! name.
Proof.
  intros [Hproto _]. unfold get_array. rewrite Hproto.
  by destruct (dataToWrite w !! name).
Qed.

(** A flush of a non-empty array, wherever it was found: one
    [db.collection], the error logged, then with a collection object one
    [bulkWrite] with every document of the array, the own key, if any,
    deleted, and the callback with the error of the [bulkWrite]; without a
    collection object a [TypeError]. *)
Lemma writeAllInCollection_slot (name : string) (slot : Slot)
    (callback : Callback) (w : World) :
  get_array w name = Some slot →
  slot_documents slot ≠ [] →
  writeAllInCollection env name callback w =
  if reply_handle env (trace w) name
  then callback (reply_err env (flush_history env name w)
                           (flush_request name (slot_documents slot)))
                (flushed env name (slot_documents slot) w)
  else Thrown TypeError
         {| trace := flush_history env name w;
            dataToWrite := dataToWrite w;
            metadata := metadata w;
            prototype := prototype w |}.
Proof.
  intros Hslot Hne. unfold writeAllInCollection. rewrite Hslot.
  destruct (decide (length (insertOne <$> slot_documents slot) = 0)) as [Hz|_].
  { rewrite length_fmap in Hz. by destruct (slot_documents slot). }
  cbn [request]. unfold flushed, flush_history, flush_request.
  rewrite !error_world. unfold set_dataToWrite, emit. cbn.
  destruct (reply_handle env (trace w) name); by rewrite <- ?app_assoc.
Qed.

(** A flush of a non-empty buffer: one [db.collection], one [bulkWrite]
    with every pending document, the key deleted, then the callback with
    the error of the [bulkWrite]. *)
Lemma writeAllInCollection_flush (name : string) (docs : list Document)
    (callback : Callback) (w : World) :
  dataToWrite w !! name = Some docs →
  docs ≠ [] →
  reply_handle env (trace w) name = true →
  writeAllInCollection env name callback w =
  callback (reply_err env (flush_history env name w) (flush_request name docs))
           (flushed env name docs w).
Proof.
  intros Hdocs Hne Hh.
  rewrite (writeAllInCollection_slot name (OwnSlot docs)); [|by apply get_array_own|done].
  by rewrite Hh.
Qed.

(** Without a collection object the flush throws, after the log. *)
Lemma writeAllInCollection_no_handle (name : string) (docs : list Document)
    (callback : Callback) (w : World) :
  dataToWrite w !! name = Some docs →
  docs ≠ [] →
  reply_handle env (trace w) name = false →
  writeAllInCollection env name callback w =
  Thrown TypeError
    {| trace := flush_history env name w;
       dataToWrite := dataToWrite w;
       metadata := metadata w;
       prototype := prototype w |}.
Proof.
  intros Hdocs Hne Hh.
  rewrite (writeAllInCollection_slot name (OwnSlot docs)); [|by apply get_array_own|done].
  by rewrite Hh.
Qed.

(** [addDocument] after its first statement. *)
Lemma writer_addDocument_appended (name : string) (doc : Document) (next : Callback)
    (w : World) :
  writer_addDocument env name doc next w =
  match get_array (appended name doc w) name with
  | None => Thrown TypeError (appended name doc w)
  | Some slot =>
      if decide (50 < length (slot_documents slot))
      then writeAllInCollection env name (fun err => next err) (appended name doc w)
      else next None (appended name doc w)
  end.
Proof. reflexivity. Qed.

Lemma array_index_lt (n : nat) (name : string) (k : nat) :
  array_index n name = Some k → k < n ∧ index_name k = name.
Proof.
  unfold array_index. intros Hfind. apply find_some in Hfind as [Hin Hk].
  apply in_seq in Hin. split; [lia|]. by apply bool_decide_eq_true in Hk.
Qed.

(** After the first statement the read finds an array: the documents it
    held before, followed by the new one. *)
Lemma appended_held (name : string) (doc : Document) (w : World) :
  ∃ slot,
    get_array (appended name doc w) name = Some slot
    ∧ slot_documents slot = held w name ++ [doc].
Proof.
  unfold appended, held. destruct (get_array w name) as [[docs|array|array k items]|] eqn:Hget.
  - exists (OwnSlot (docs ++ [doc])). split; [|done].
    apply get_array_own. cbn. apply lookup_insert_eq.
  - exists (ProtoSlot (array ++ [doc])). split; [|done].
    unfold get_array in *. cbn.
    destruct (dataToWrite w !! name); [done|].
    destruct (prototype w) as [array'|]; [|done].
    destruct (decide (name = proto_name)); [done|].
    destruct (array_index _ _); [|done]. by destruct (array' !! _) as [[]|].
  - exists (ElementSlot (<[k := VArray (items ++ [doc])]> array) k (items ++ [doc])).
    split; [|done].
    unfold get_array in *. cbn.
    destruct (dataToWrite w !! name); [done|].
    destruct (prototype w) as [array'|]; [|done].
    destruct (decide (name = proto_name)); [done|].
    destruct (array_index (length array') name) as [k'|] eqn:Hk; [|done].
    destruct (array' !! k') as [[| | | |items'|]|] eqn:Hlook; try done.
    injection Hget as -> -> ->.
    rewrite length_insert, Hk.
    apply array_index_lt in Hk as [Hlt _].
    by rewrite list_lookup_insert_eq.
  - unfold get_array in *.
    destruct (dataToWrite w !! name) eqn:Hown; [done|].
    destruct (decide (name = proto_name)) as [Hname|Hname].
    + exists (ProtoSlot [doc]). split; [|done]. cbn. rewrite Hown.
      by destruct (decide (name = proto_name)).
    + exists (OwnSlot [doc]). split; [|done]. cbn. by rewrite lookup_insert_eq.
Qed.

(** The first statement makes no call and leaves the metadata and the
    other own keys as they are; the own key of its collection, if there
    is one, has a non-empty buffer. *)
Lemma appended_frame (name : string) (doc : Document) (w : World) :
  trace (appended name doc w) = trace w
  ∧ metadata (appended name doc w) = metadata w
  ∧ (∀ k, k ≠ name → dataToWrite (appended name doc w) !! k = dataToWrite w !! k)
  ∧ (∀ docs, dataToWrite (appended name doc w) !! name = Some docs → docs ≠ []).
Proof.
  unfold appended. destruct (get_array w name) as [[docs|array|array k items]|] eqn:Hget.
  - cbn. split; [done|]. split; [done|]. split.
    + intros k Hk. by rewrite lookup_insert_ne.
    + intros d. rewrite lookup_insert_eq. intros [= <-]. by destruct docs.
  - cbn. split; [done|]. split; [done|]. split; [done|].
    intros d Hd. unfold get_array in Hget. by rewrite Hd in Hget.
  - cbn. split; [done|]. split; [done|]. split; [done|].
    intros d Hd. unfold get_array in Hget. by rewrite Hd in Hget.
  - destruct (decide (name = proto_name)); cbn.
    + split; [done|]. split; [done|]. split; [done|].
      intros d Hd. unfold get_array in Hget. by rewrite Hd in Hget.
    + split; [done|]. split; [done|]. split.
      * intros k Hk. by rewrite lookup_insert_ne.
      * intros d. rewrite lookup_insert_eq. by intros [= <-].
Qed.


(** For an ordinary key the first statement extends the own buffer. *)
Lemma appended_plain (name : string) (doc : Document) (w : World) :
  plain w name →
  appended name doc w =
  set_dataToWrite (<[name := pending w name ++ [doc]]> (dataToWrite w)) w.
Proof.
  intros Hplain. unfold appended. rewrite (get_array_plain _ _ Hplain).
  destruct Hplain as [_ Hname].
  unfold pending. destruct (dataToWrite w !! name); cbn; [done|].
  by destruct (decide (name = proto_name)).
Qed.

Lemma flushed_after_append (name : string) (docs : list Document) (w : World) :
  flushed env name docs (set_dataToWrite (<[name := docs]> (dataToWrite w)) w) =
  flushed env name docs w.
Proof. unfold flushed, flush_history. simpl. by rewrite delete_insert_eq. Qed.

Lemma addDocument_below (name : string) (doc : Document) (next : Callback) (w : World) :
  plain w name →
  length (pending w name ++ [doc]) ≤ 50 →
  writer_addDocument env name doc next w =
  next None (set_dataToWrite (<[name := pending w name ++ [doc]]> (dataToWrite w)) w).
Proof.
  intros Hplain Hle. rewrite writer_addDocument_appended, appended_plain by done.
  rewrite (get_array_own name (pending w name ++ [doc])) by apply lookup_insert_eq.
  cbn [slot_documents].
  destruct (decide (50 < length (pending w name ++ [doc]))); [lia|done].
Qed.

Lemma addDocument_above (name : string) (doc : Document) (next : Callback) (w : World) :
  plain w name →
  50 < length (pending w name ++ [doc]) →
  reply_handle env (trace w) name = true →
  writer_addDocument env name doc next w =
  next (reply_err env (flush_history env name w)
                  (flush_request name (pending w name ++ [doc])))
       (flushed env name (pending w name ++ [doc]) w).
Proof.
  intros Hplain Hgt Hh. rewrite writer_addDocument_appended, appended_plain by done.
  rewrite (get_array_own name (pending w name ++ [doc])) by apply lookup_insert_eq.
  cbn [slot_documents].
  destruct (decide (50 < length (pending w name ++ [doc]))); [|lia].
  rewrite (writeAllInCollection_flush name (pending w name ++ [doc])).
  - by rewrite flushed_after_append.
  - cbn. apply lookup_insert_eq.
  - by destruct (pending w name).
  - done.
Qed.

Lemma addDocument_above_no_handle (name : string) (doc : Document) (next : Callback) (w : World) :
  plain w name →
  50 < length (pending w name ++ [doc]) →
  reply_handle env (trace w) name = false →
  writer_addDocument env name doc next w =
  Thrown TypeError
    {| trace := flush_history env name w;
       dataToWrite := <[name := pending w name ++ [doc]]> (dataToWrite w);
       metadata := metadata w;
       prototype := prototype w |}.
Proof.
  intros Hplain Hgt Hh. rewrite writer_addDocument_appended, appended_plain by done.
  rewrite (get_array_own name (pending w name ++ [doc])) by apply lookup_insert_eq.
  cbn [slot_documents].
  destruct (decide (50 < length (pending w name ++ [doc]))); [|lia].
  rewrite (writeAllInCollection_no_handle name (pending w name ++ [doc])).
  - done.
  - cbn. apply lookup_insert_eq.
  - by destruct (pending w name).
  - done.
Qed.

End WriterFacts.

(** ** The writer: [addIndices] and [drain] *)

Section LoopFacts.

Variable env : Env.

Lemma errors_logged_nil (h : list Event) : errors_logged env h [].
Proof. intros pre e post x Heq. by destruct pre. Qed.

Lemma errors_logged_app (h t1 t2 : list Event) :
  errors_logged env h t1 →
  errors_logged env (h ++ t1) t2 →
  errors_logged env h (t1 ++ t2).
Proof.
  intros H1 H2 pre e post x Heq Hreq Hrep.
  apply app_eq_app in Heq as [l [[Ht1 Hpost]|[Hpre Ht2]]].
  - destruct l as [|e' l].
    + rewrite app_nil_r in Ht1. subst t1. simpl in Hpost.
      apply (H2 [] e post x); [done|done|]. by rewrite app_nil_r.
    + simpl in Hpost. injection Hpost as <- ->. subst t1.
      destruct (H1 pre e l x) as [post' ->]; [done|done|done|].
      by eexists.
  - subst pre t2. apply (H2 l e post x); [done|done|].
    by rewrite <- app_assoc.
Qed.

(** One request and the log of its error. *)
Lemma errors_logged_request (h : list Event) (e : Event) :
  errors_logged env h (e :: log_events (reply_err env h e)).
Proof.
  intros pre e0 post x Heq Hreq Hrep.
  destruct pre as [|e1 pre].
  - simpl in Heq. injection Heq as He Hp. subst e0 post.
    rewrite app_nil_r in Hrep. rewrite Hrep. simpl. by eexists.
  - simpl in Heq. injection Heq as He Heq. subst e1.
    destruct (reply_err env h e) as [y|]; simpl in Heq.
    + destruct pre as [|e2 pre]; simpl in Heq.
      * injection Heq as <- _. done.
      * injection Heq as _ Heq. by destruct pre.
    + by destruct pre.
Qed.

Lemma pop_snoc {A : Type} (l : list A) (x : A) (r : list A) :
  rev l = x :: r → pop l = Some (rev r, x) ∧ l = rev r ++ [x].
Proof.
  intros Hrev. unfold pop. rewrite Hrev. split; [done|].
  rewrite <- (rev_involutive l), Hrev. done.
Qed.

(** [addIndices]: the records are replayed from the last one pushed to
    the first, one request each, every error logged, and the callback
    receives no error. *)
Lemma addIndices_from_replays (n : nat) (callback : Callback) (w : World) :
  length (metadata w) < n →
  ∃ t,
    addIndices_from env n callback w =
    callback None {| trace := trace w ++ t;
                     dataToWrite := dataToWrite w;
                     metadata := [];
                     prototype := prototype w |}
    ∧ createIndexes_requests t =
      (fun r => (collectionName r, document r)) <$> rev (metadata w)
    ∧ Forall (fun e => is_createIndexes e ∨ is_logger e) t
    ∧ errors_logged env (trace w) t
    ∧ (metadata w = [] → t = []).
Proof.
  revert w. induction n as [|n IH]; intros w Hlt; [lia|].
  simpl. destruct (rev (metadata w)) as [|r stack] eqn:Hrev.
  - assert (metadata w = []) as Hnil.
    { rewrite <- (rev_involutive (metadata w)), Hrev. done. }
    rewrite Hnil. simpl. exists []. rewrite app_nil_r.
    split; [|split; [|split; [|split]]]; try done.
    + destruct w; simpl in *; by subst.
    + apply errors_logged_nil.
  - destruct (pop_snoc _ _ _ Hrev) as [Hpop Hsnoc].
    destruct (decide (length (metadata w) = 0)) as [Hz|_].
    { rewrite Hsnoc, length_app in Hz. simpl in Hz. lia. }
    rewrite Hpop. cbn [request].
    set (e := DbCommandCreateIndexes (collectionName r) (document r)).
    set (err := reply_err env (trace w) e).
    destruct (IH (error err (emit e (set_metadata (rev stack) w)))) as (t & Heq & Hreq & Hall & Hlog & _).
    { rewrite metadata_error. simpl. rewrite Hsnoc, length_app in Hlt.
      simpl in Hlt. lia. }
    exists (e :: log_events err ++ t).
    rewrite Heq, trace_error, dataToWrite_error, prototype_error. simpl.
    split; [|split; [|split; [|split]]].
    + by rewrite <- !app_assoc.
    + rewrite metadata_error in Hreq. simpl in Hreq.
      rewrite rev_involutive in Hreq.
      unfold createIndexes_requests in *. simpl.
      rewrite omap_app, Hreq.
      destruct err; simpl; done.
    + constructor; [by left|]. apply Forall_app. split; [|done].
      destruct err; simpl; [|done]. constructor; [by right|done].
    + change (e :: log_events err ++ t) with ((e :: log_events err) ++ t).
      apply errors_logged_app.
      * apply errors_logged_request.
      * rewrite trace_error in Hlog. simpl in Hlog.
        by rewrite <- app_assoc in Hlog.
    + intros Hnil. rewrite Hnil in Hrev. done.
Qed.

Lemma Object_keys_nil (h : list Event) (m : gmap string (list Document)) :
  Object_keys env h m = [] → m = ∅.
Proof.
  intros Hk. apply map_empty. intros k.
  destruct (m !! k) as [v|] eqn:Hv; [|done].
  assert (k ∈ Object_keys env h m) as Hin by (apply Object_keys_spec; eauto).
  rewrite Hk in Hin. by apply elem_of_nil in Hin.
Qed.

Lemma Object_keys_head (h : list Event) (m : gmap string (list Document))
    (name : string) (rest : list string) :
  Object_keys env h m = name :: rest → is_Some (m !! name).
Proof.
  intros Hk. apply (Object_keys_spec env h). rewrite Hk. apply list_elem_of_here.
Qed.

Lemma flush_event_delete (m : gmap string (list Document)) (name : string) (e : Event) :
  flush_event (delete name m) e → flush_event m e.
Proof.
  destruct e; simpl; try done;
    rewrite lookup_delete_is_Some; by intros [_ ?].
Qed.

Lemma buffers_nonempty_flushed (name : string) (docs : list Document)
    (err : option Err) (w : World) :
  buffers_nonempty w → buffers_nonempty (error err (flushed env name docs w)).
Proof.
  intros Hne k v. rewrite dataToWrite_error. simpl.
  rewrite lookup_delete_Some. intros [_ Hk]. by eapply Hne.
Qed.

(** [drain]: every key is flushed and deleted in turn, every error is
    logged, and the callback receives no error; the only other way out is
    the exception of a flush that got no collection object. *)
Lemma drain_from_drains (n : nat) (callback : Callback) (w : World) :
  buffers_nonempty w →
  size (dataToWrite w) < n →
  ∃ t,
    Forall (flush_event (dataToWrite w)) t
    ∧ errors_logged env (trace w) t
    ∧ (drain_from env n callback w =
       callback None {| trace := trace w ++ t;
                        dataToWrite := ∅;
                        metadata := metadata w;
                        prototype := prototype w |}
       ∨ ∃ m h name,
           reply_handle env h name = false
           ∧ drain_from env n callback w =
             Thrown TypeError {| trace := trace w ++ t;
                                 dataToWrite := m;
                                 metadata := metadata w;
                                 prototype := prototype w |}).
Proof.
  revert w. induction n as [|n IH]; intros w Hne Hlt; [lia|].
  simpl. destruct (Object_keys env (trace w) (dataToWrite w)) as [|name rest] eqn:Hk.
  - apply Object_keys_nil in Hk. exists []. rewrite app_nil_r.
    split; [done|]. split; [apply errors_logged_nil|]. left.
    destruct w; simpl in *; by subst.
  - destruct (Object_keys_head _ _ _ _ Hk) as [docs Hdocs].
    pose proof (Hne _ _ Hdocs) as Hdne.
    set (b1 := DbCollection name :: log_events (reply_err env (trace w) (DbCollection name))).
    assert (flush_history env name w = trace w ++ b1) as Hh by done.
    destruct (reply_handle env (trace w) name) eqn:Hhandle.
    + rewrite (writeAllInCollection_flush env name docs) by done.
      set (err2 := reply_err env (flush_history env name w) (flush_request name docs)).
      set (b2 := flush_request name docs :: log_events err2).
      destruct (IH (error err2 (flushed env name docs w))) as (t & Hall & Hlog & Hout).
      { by apply buffers_nonempty_flushed. }
      { rewrite dataToWrite_error. simpl.
        rewrite map_size_delete_Some by eauto.
        assert (size (dataToWrite w) ≠ 0); [|lia].
        apply map_size_non_empty_iff. intros Hm. rewrite Hm in Hdocs.
        by rewrite lookup_empty in Hdocs. }
      rewrite trace_error, dataToWrite_error, metadata_error, ?prototype_error in *.
      cbn [trace dataToWrite metadata flushed] in *.
      exists (b1 ++ b2 ++ t).
      assert ((flush_history env name w ++ [flush_request name docs]) ++ log_events err2
              = trace w ++ b1 ++ b2) as Htr.
      { rewrite Hh. unfold b2. by rewrite <- !app_assoc. }
      rewrite Htr in *.
      split; [|split].
      * apply Forall_app. split.
        { constructor; [simpl; eauto|].
          destruct (reply_err env (trace w) (DbCollection name)); simpl; [|done].
          by constructor. }
        apply Forall_app. split.
        { constructor; [simpl; eauto|]. destruct err2; simpl; [|done].
          by constructor. }
        eapply Forall_impl; [exact Hall|]. intros e. apply flush_event_delete.
      * apply errors_logged_app; [apply errors_logged_request|].
        apply errors_logged_app.
        { unfold b2, err2. rewrite Hh. apply errors_logged_request. }
        by rewrite <- app_assoc.
      * rewrite <- !app_assoc in Hout. exact Hout.
    + rewrite (writeAllInCollection_no_handle env name docs) by done.
      exists b1. split; [|split].
      * constructor; [simpl; eauto|].
        destruct (reply_err env (trace w) (DbCollection name)); simpl; [|done].
        by constructor.
      * apply errors_logged_request.
      * right. exists (dataToWrite w), (trace w), name. by rewrite Hh.
Qed.

End LoopFacts.

(** ** The writer: what [addDocument] leaves behind *)

Section AddDocumentFacts.

Variable env : Env.

Lemma Object_keys_empty (h : list Event) : Object_keys env h ∅ = [].
Proof.
  destruct (Object_keys env h ∅) as [|k rest] eqn:Hk; [done|].
  apply Object_keys_head in Hk as [v Hv]. by rewrite lookup_empty in Hv.
Qed.

(** [addDocument] calls back, or throws for want of a collection object.
    Either way only flush events of its collection were added, the other
    buffers are untouched and the buffer of its collection, if it still has
    a key, is not empty. *)
Lemma addDocument_outcome (name : string) (doc : Document) (next : Callback) (w : World) :
  ∃ w' t,
    ((∃ err, writer_addDocument env name doc next w = next err w')
     ∨ writer_addDocument env name doc next w = Thrown TypeError w')
    ∧ trace w' = trace w ++ t
    ∧ Forall (flush_event_for name) t
    ∧ metadata w' = metadata w
    ∧ (∀ k, k ≠ name → dataToWrite w' !! k = dataToWrite w !! k)
    ∧ (∀ docs, dataToWrite w' !! name = Some docs → docs ≠ []).
Proof.
  rewrite writer_addDocument_appended.
  destruct (appended_held name doc w) as (slot & Hslot & Hdocs).
  destruct (appended_frame name doc w) as (Htr & Hmd & Hother & Hown).
  rewrite Hslot.
  assert (slot_documents slot ≠ []) as Hne.
  { rewrite Hdocs. by destruct (held w name). }
  destruct (decide (50 < length (slot_documents slot))) as [Hgt|Hle].
  - rewrite (writeAllInCollection_slot env name slot) by done.
    unfold flush_history. rewrite Htr.
    assert (Forall (flush_event_for name)
              (DbCollection name :: log_events (reply_err env (trace w) (DbCollection name))))
      as Hhist.
    { constructor; [done|].
      destruct (reply_err env (trace w) (DbCollection name)); simpl; [|done].
      by constructor. }
    destruct (reply_handle env (trace w) name).
    + eexists _, _. split; [left; by eexists|]. cbn. unfold flush_history. rewrite Htr.
      split; [by rewrite <- app_assoc|]. split; [|split; [done|split]].
      * apply Forall_app. split; [done|]. by constructor.
      * intros k Hk. rewrite lookup_delete_ne by done. by apply Hother.
      * intros d. by rewrite lookup_delete_eq.
    + eexists _, _. split; [right; done|]. cbn.
      split; [reflexivity|]. split; [done|]. split; [done|]. split; [done|].
      exact Hown.
  - exists (appended name doc w), [].
    split; [left; by exists None|]. rewrite app_nil_r.
    split; [done|]. split; [done|]. split; [done|]. split; done.
Qed.

End AddDocumentFacts.

(** ** The dispatcher keeps the invariant *)

Section DispatchFacts.

Variable env : Env.
Variable fuel : nat.
Variable parser : Parser.

#[local] Abbreviation L sm := (streamListener env parser (writer env fuel) sm).

Lemma Inv_emit (sm ix : bool) (e : Event) (w : World) :
  permitted sm ix e → Inv sm ix w → Inv sm ix (emit e w).
Proof.
  intros He [Ht Hr Hn]. split; [|done|done].
  cbn. apply Forall_app. split; [done|]. by constructor.
Qed.

Lemma Inv_error (sm ix : bool) (err : option Err) (w : World) :
  Inv sm ix w → Inv sm ix (error err w).
Proof. intros HI. destruct err; [|done]. by apply Inv_emit. Qed.

Lemma Inv_set_metadata (sm ix : bool) (l : list MetadataRecord) (w : World) :
  Inv sm ix w → Inv sm ix (set_metadata l w).
Proof. by intros [Ht Hr Hn]. Qed.

Lemma Inv_fresh (sm ix : bool) (w : World) :
  Inv sm ix w → Inv sm ix (set_prototype None (set_metadata [] (set_dataToWrite ∅ w))).
Proof.
  intros [Ht Hr Hn]. split; [done|apply lookup_empty|].
  intros k docs. cbn. by rewrite lookup_empty.
Qed.

Lemma steps_reaches (P : World → Prop) (k : Callback) (o : Outcome) :
  steps P k o → reaches P k o.
Proof. intros (w' & HP & [H|H]); exists w'; eauto. Qed.

Lemma reaches_ends (P : World → Prop) (k : Callback) (o : Outcome) :
  reaches P k o → (∀ err w, P w → ends P (k err w)) → ends P o.
Proof.
  intros (w' & HP & [[err ->]|[[ex ->]| ->]]) Hk; [by apply Hk|done|done].
Qed.

Lemma flush_event_for_permitted (sm ix : bool) (name : string) (e : Event) :
  name ≠ metadata_name → flush_event_for name e → permitted sm ix e.
Proof. intros Hne. destruct e; simpl; try done; by intros ->. Qed.

Lemma createCollection_steps (sm ix : bool) (name : string) (next : Callback) (w : World) :
  name ≠ metadata_name →
  Inv sm ix w →
  steps (Inv sm ix) next (writer_createCollection env name next w).
Proof.
  intros Hne HI. exists (emit (DbCreateCollection name) w).
  split; [by apply Inv_emit|]. left. by eexists.
Qed.

Lemma addDocument_steps (sm ix : bool) (name : string) (doc : Document) (next : Callback) (w : World) :
  name ≠ metadata_name →
  Inv sm ix w →
  steps (Inv sm ix) next (writer_addDocument env name doc next w).
Proof.
  intros Hne [Ht Hr Hn].
  destruct (addDocument_outcome env name doc next w)
    as (w' & t & Hout & Htr & Hall & _ & Hother & Hname).
  exists w'. split.
  - split.
    + rewrite Htr. apply Forall_app. split; [done|].
      eapply Forall_impl; [exact Hall|]. intros e.
      by apply flush_event_for_permitted.
    + rewrite Hother by done. exact Hr.
    + intros k docs Hk. destruct (decide (k = name)) as [->|Hk'].
      * by eapply Hname.
      * rewrite Hother in Hk by done. by eapply Hn.
  - destruct Hout as [Hout|Hout]; [by left|right; by eexists].
Qed.

Lemma onDirectory_steps (sm ix : bool) (directoryName : string) (callback : Callback) (w : World) :
  Inv sm ix w →
  steps (Inv sm ix) callback (onDirectory (L sm) directoryName callback w).
Proof.
  intros HI. cbn. unfold listener_onDirectory.
  destruct (collectionNameForDirectory _) as [name|].
  - destruct (decide (name = metadata_name)) as [->|Hne].
    + exists w. split; [done|]. left. by eexists.
    + by apply createCollection_steps.
  - exists w. split; [done|]. right. by eexists.
Qed.

Lemma onFile_steps (sm ix : bool) (name : string) (stream : ReadStream) (callback : Callback) (w : World) :
  Inv sm ix w →
  steps (Inv sm ix) callback (onFile (L sm) name stream callback w).
Proof.
  intros HI. cbn. unfold listener_onFile.
  destruct (collectionNameForFiles _) as [collection|] eqn:Hc;
    [|exists w; split; [done|]; right; by eexists].
  destruct (decide (collection = metadata_name)) as [->|Hne].
  - destruct (metadataFilenameRegexp _) as [metadataName|];
      [|exists w; split; [done|]; right; by eexists].
    destruct sm; cbn [negb];
      [|exists w; split; [done|]; left; by eexists].
    unfold stream_on.
    assert (Inv true ix (emit (StreamOn name) w)) as HI1.
    { apply Inv_emit; [|done]. cbn. by left. }
    destruct stream as [buffers|e];
      [|eexists; split; [exact HI1|]; right; by eexists].
    unfold call_parse. cbn [parse jsonParser].
    destruct (decode env JSON_parse (Buffer_concat buffers)) as [doc|].
    + eexists. split; [|left; by eexists].
      apply Inv_set_metadata, Inv_emit; done.
    + eexists. split; [|right; by eexists]. by apply Inv_emit.
  - unfold stream_on.
    assert (Inv sm ix (emit (StreamOn name) w)) as HI1.
    { apply Inv_emit; [|done]. cbn. right. rewrite Hc. by intros [= ->]. }
    destruct stream as [buffers|e];
      [|eexists; split; [exact HI1|]; right; by eexists].
    unfold call_parse. destruct (parse parser) as [d|];
      [|eexists; split; [exact HI1|]; right; by eexists].
    destruct (decode env d (Buffer_concat buffers)) as [doc|].
    + apply addDocument_steps; [done|]. by apply Inv_emit.
    + eexists. split; [|right; by eexists]. by apply Inv_emit.
Qed.

End DispatchFacts.

(** ** [finish] and the dump sources keep the invariant *)

Section SourceFacts.

Variable env : Env.
Variable fuel : nat.
Variable parser : Parser.

#[local] Abbreviation L sm := (streamListener env parser (writer env fuel) sm).

Lemma reaches_bind (P : World → Prop) (k k' : Callback) (o : Outcome) :
  reaches P k' o →
  (∀ err w, P w → reaches P k (k' err w)) →
  reaches P k o.
Proof.
  intros (w' & HP & [[err ->]|[[ex ->]| ->]]) Hk.
  - by apply Hk.
  - exists w'. split; [done|]. right. left. by eexists.
  - exists w'. split; [done|]. by right; right.
Qed.

Lemma Inv_flushed (sm ix : bool) (name : string) (docs : list Document)
    (err : option Err) (w : World) :
  Inv sm ix w →
  dataToWrite w !! name = Some docs →
  Inv sm ix (error err (flushed env name docs w)).
Proof.
  intros [Ht Hr Hn] Hdocs.
  assert (name ≠ metadata_name) as Hne.
  { intros ->. by rewrite Hr in Hdocs. }
  apply Inv_error. split.
  - cbn. unfold flush_history. rewrite <- app_assoc.
    apply Forall_app. split; [done|]. constructor; [done|].
    apply Forall_app. split; [|by constructor].
    destruct (reply_err env (trace w) (DbCollection name)); simpl; [|done].
    by constructor.
  - cbn. by rewrite lookup_delete_ne.
  - intros k v. cbn. rewrite lookup_delete_Some. intros [_ Hk]. by eapply Hn.
Qed.

Lemma Inv_flush_history (sm ix : bool) (name : string) (w : World) :
  Inv sm ix w →
  Inv sm ix {| trace := flush_history env name w;
               dataToWrite := dataToWrite w;
               metadata := metadata w;
               prototype := prototype w |}.
Proof.
  intros [Ht Hr Hn]. split; [|done|done].
  cbn. unfold flush_history. apply Forall_app. split; [done|].
  constructor; [done|].
  destruct (reply_err env (trace w) (DbCollection name)); simpl; [|done].
  by constructor.
Qed.

Lemma drain_from_reaches (sm ix : bool) (n : nat) (callback : Callback) (w : World) :
  Inv sm ix w →
  reaches (fun w' => Inv sm ix w' ∧ metadata w' = metadata w)
          (fun _ => callback None) (drain_from env n callback w).
Proof.
  revert w. induction n as [|n IH]; intros w HI.
  - exists w. split; [done|]. by right; right.
  - simpl. destruct (Object_keys env (trace w) (dataToWrite w)) as [|name rest] eqn:Hk.
    + exists w. split; [done|]. left. by exists None.
    + destruct (Object_keys_head _ _ _ _ _ Hk) as [docs Hdocs].
      pose proof (inv_nonempty _ _ _ HI _ _ Hdocs) as Hdne.
      destruct (reply_handle env (trace w) name) eqn:Hh.
      * rewrite (writeAllInCollection_flush env name docs) by done.
        destruct (IH (error (reply_err env (flush_history env name w)
                                       (flush_request name docs))
                            (flushed env name docs w)))
          as (w' & [HI' Hm] & Hout); [by apply Inv_flushed|].
        exists w'. split; [|done]. split; [done|].
        by rewrite Hm, metadata_error.
      * rewrite (writeAllInCollection_no_handle env name docs) by done.
        eexists. split; [|right; left; by eexists].
        split; [by apply Inv_flush_history|done].
Qed.

Lemma addIndices_from_reaches (sm : bool) (n : nat) (callback : Callback) (w : World) :
  Inv sm true w →
  reaches (Inv sm true) (fun _ => callback None) (addIndices_from env n callback w).
Proof.
  revert w. induction n as [|n IH]; intros w HI.
  - exists w. split; [done|]. by right; right.
  - simpl. destruct (decide (length (metadata w) = 0)).
    + exists w. split; [done|]. left. by exists None.
    + destruct (pop (metadata w)) as [[rest r]|].
      * cbn [request]. apply IH. apply Inv_error, Inv_emit; [done|].
        by apply Inv_set_metadata.
      * exists w. split; [done|]. right. left. by eexists.
Qed.

(** [finish]: with metadata replay off nothing but flushes happens; with
    it on, index replay must be allowed. *)
Lemma finish_reaches (sm ix : bool) (callback : Callback) (w : World) :
  (sm = true → ix = true) →
  Inv sm ix w →
  reaches (Inv sm ix) (fun _ => callback None) (finish (L sm) callback w).
Proof.
  intros Hix HI. cbn. unfold listener_finish. cbn [drain writer addIndices].
  unfold writer_drain, writer_addIndices.
  destruct (drain_from_reaches sm ix fuel
              (fun err w1 =>
                 if negb sm then callback None (error err w1)
                 else addIndices_from env fuel
                        (fun err w3 => callback None (error err w3)) (error err w1))
              w HI) as (w' & [HI' _] & Hout).
  cbv zeta.
  destruct Hout as [[err Hout]|[[ex Hout]|Hout]]; rewrite Hout.
  - destruct sm; cbn [negb error].
    + rewrite Hix in * by done.
      destruct (addIndices_from_reaches true fuel
                  (fun err w3 => callback None (error err w3)) w' HI')
        as (w'' & HI'' & [[err' Hout']|[[ex Hout']|Hout']]); rewrite Hout'.
      * exists w''. split; [done|]. left. by exists None.
      * exists w''. split; [done|]. right. left. by eexists.
      * exists w''. split; [done|]. by right; right.
    + exists w'. split; [done|]. left. by exists None.
  - exists w'. split; [done|]. right. left. by eexists.
  - exists w'. split; [done|]. by right; right.
Qed.

(** The archive source dispatches its entries and then reaches [finish],
    unless an entry throws. *)
Lemma extract_entries_dispatch (sm ix : bool) (entries : list TarEntry)
    (callback : Callback) (w : World) :
  Inv sm ix w →
  ∃ w', Inv sm ix w'
        ∧ (extract_entries (L sm) entries callback w = finish (L sm) callback w'
           ∨ ∃ ex, extract_entries (L sm) entries callback w = Thrown ex w').
Proof.
  revert w. induction entries as [|entry rest IH]; intros w HI.
  - exists w. split; [done|]. by left.
  - cbn [extract_entries].
    assert (∀ o, steps (Inv sm ix) (tar_next (extract_entries (L sm) rest callback)) o →
                 ∃ w', Inv sm ix w'
                       ∧ (o = finish (L sm) callback w' ∨ ∃ ex, o = Thrown ex w')) as Hnext.
    { intros o (w' & HI' & [[err ->]|[ex ->]]).
      - destruct err as [e|]; cbn [tar_next].
        + exists w'. split; [done|]. right. by eexists.
        + by apply IH.
      - exists w'. split; [done|]. right. by eexists. }
    destruct (header_type entry).
    + apply Hnext. by apply onDirectory_steps.
    + apply Hnext. by apply onFile_steps.
    + cbn [tar_next]. by apply IH.
Qed.

Lemma addCollections_popping_steps (sm ix : bool) (pending : list string)
    (callback : Callback) (w : World) :
  Inv sm ix w →
  steps (Inv sm ix) (fun _ => callback None)
        (addCollections_popping (L sm) pending callback w).
Proof.
  revert w. induction pending as [|name rest IH]; intros w HI.
  - exists w. split; [done|]. left. by exists None.
  - cbn [addCollections_popping].
    destruct (onDirectory_steps env fuel parser sm ix name
                (fun err w' => addCollections_popping (L sm) rest callback (error err w'))
                w HI) as (w' & HI' & [[err Hout]|[ex Hout]]); rewrite Hout.
    + apply IH. by apply Inv_error.
    + exists w'. split; [done|]. right. by eexists.
Qed.

Lemma addFiles_popping_steps (sm ix : bool) (pending : list string)
    (callback : Callback) (w : World) :
  Inv sm ix w →
  steps (Inv sm ix) (fun _ => callback None)
        (addFiles_popping env (L sm) pending callback w).
Proof.
  revert w. induction pending as [|filename rest IH]; intros w HI.
  - exists w. split; [done|]. left. by exists None.
  - cbn [addFiles_popping].
    destruct (onFile_steps env fuel parser sm ix filename
                (createReadStream env (trace w) filename)
                (fun err w' => addFiles_popping env (L sm) rest callback (error err w'))
                (emit (FsCreateReadStream filename) w))
      as (w' & HI' & [[err Hout]|[ex Hout]]); [by apply Inv_emit| |]; rewrite Hout.
    + apply IH. by apply Inv_error.
    + exists w'. split; [done|]. right. by eexists.
Qed.

Lemma readdir_each_steps (sm ix : bool) (dbRootDir : string) (dirnames : list string)
    (k : list (list string) → World → Outcome) (w : World) :
  Inv sm ix w →
  ∃ w', Inv sm ix w'
        ∧ ((∃ arrays, readdir_each env dbRootDir dirnames k w = k arrays w')
           ∨ ∃ ex, readdir_each env dbRootDir dirnames k w = Thrown ex w').
Proof.
  revert k w. induction dirnames as [|dirname rest IH]; intros k w HI.
  - exists w. split; [done|]. left. by eexists.
  - cbn [readdir_each]. unfold fs_readdirSync.
    destruct (readdirSync env (trace w) (path_join dbRootDir dirname)) as [filenames|].
    + destruct (IH (fun arrays =>
                     k ((path_join (path_join dbRootDir dirname) <$> filenames) :: arrays))
                   (emit (FsReaddirSync (path_join dbRootDir dirname)) w))
        as (w' & HI' & [[arrays Hout]|[ex Hout]]); [by apply Inv_emit| |].
      * exists w'. split; [done|]. left. eexists. exact Hout.
      * exists w'. split; [done|]. right. by eexists.
    + eexists. split; [|right; by eexists]. by apply Inv_emit.
Qed.

(** The file-system source reaches [finish], or reports the
    configuration error, or throws. *)
Lemma fileSystemDataSource_begin_dispatch (sm ix : bool) (rootDir : string)
    (callback : Callback) (w : World) :
  Inv sm ix w →
  ∃ w', Inv sm ix w'
        ∧ (fileSystemDataSource_begin env rootDir (L sm) callback w
             = finish (L sm) callback w'
           ∨ fileSystemDataSource_begin env rootDir (L sm) callback w
             = callback (Some multiple_directories) w'
           ∨ ∃ ex, fileSystemDataSource_begin env rootDir (L sm) callback w
                   = Thrown ex w').
Proof.
  intros HI. unfold fileSystemDataSource_begin, fs_readdirSync.
  assert (Inv sm ix (emit (FsReaddirSync rootDir) w)) as HI1 by by apply Inv_emit.
  destruct (readdirSync env (trace w) rootDir) as [dirs|];
    [|eexists; split; [exact HI1|]; right; right; by eexists].
  destruct (decide (length dirs ≠ 1));
    [eexists; split; [exact HI1|]; right; by left|].
  destruct (dirs !! 0) as [dir0|];
    [|eexists; split; [exact HI1|]; right; right; by eexists].
  set (dbRootDir := path_join rootDir dir0).
  set (w1 := emit (FsReaddirSync rootDir) w) in *.
  assert (Inv sm ix (emit (FsReaddirSync dbRootDir) w1)) as HI2 by by apply Inv_emit.
  destruct (readdirSync env (trace w1) dbRootDir) as [names|];
    [|eexists; split; [exact HI2|]; right; right; by eexists].
  unfold addCollections.
  match goal with
  | |- context [addCollections_popping _ _ ?cb _] =>
      destruct (addCollections_popping_steps sm ix (rev (path_join dbRootDir <$> names))
                  cb _ HI2) as (w2 & HI3 & [[err Hout]|[ex Hout]])
  end; rewrite Hout; [|exists w2; split; [done|]; right; right; by eexists].
  cbn [error].
  assert (Inv sm ix (emit (FsReaddirSync dbRootDir) w2)) as HI4 by by apply Inv_emit.
  destruct (readdirSync env (trace w2) dbRootDir) as [dirnames|];
    [|eexists; split; [exact HI4|]; right; right; by eexists].
  match goal with
  | |- context [readdir_each _ _ _ ?k _] =>
      destruct (readdir_each_steps sm ix dbRootDir dirnames k _ HI4)
        as (w3 & HI5 & [[arrays Hout2]|[ex Hout2]])
  end; rewrite Hout2; [|exists w3; split; [done|]; right; right; by eexists].
  unfold addFiles.
  match goal with
  | |- context [addFiles_popping _ _ _ ?cb _] =>
      destruct (addFiles_popping_steps sm ix (rev (List.concat arrays))
                  cb _ HI5) as (w4 & HI6 & [[err3 Hout3]|[ex Hout3]])
  end; rewrite Hout3; [|exists w4; split; [done|]; right; right; by eexists].
  cbn [error]. exists w4. split; [done|]. by left.
Qed.

End SourceFacts.

(** ** The session keeps what its dump source keeps *)

Section SessionFacts.

Variable env : Env.
Variable fuel : nat.

(** A property of worlds that the calls of the session preserve. *)
Variable P : World → Prop.
Hypothesis P_emit : ∀ e w, session_event e → P w → P (emit e w).
Hypothesis P_fresh : ∀ w, P w → P (set_prototype None (set_metadata [] (set_dataToWrite ∅ w))).

Lemma P_error (err : option Err) (w : World) : P w → P (error err w).
Proof. intros HP. destruct err; [|done]. by apply P_emit. Qed.

Lemma and_then_ends (o : Outcome) (k : World → Outcome) :
  ends P o → (∀ w, P w → ends P (k w)) → ends P (and_then o k).
Proof. intros Ho Hk. destruct o; cbn; [by apply Hk|done|done]. Qed.

Lemma drop_completions_ends (n last counter : nat) (pending : list string)
    (next : Callback) (w : World) :
  (∀ err w', P w' → ends P (next err w')) →
  P w →
  ends P (drop_completions env n last counter pending next w).
Proof.
  intros Hnext. revert counter pending w.
  induction n as [|n IH]; intros counter pending w HP; [done|].
  cbn [drop_completions].
  destruct (pending !! _) as [collection|]; [|done].
  destruct (decide (last = S counter)).
  - apply and_then_ends; [apply Hnext; by apply P_error|].
    intros w' HP'. by apply IH.
  - apply IH. by apply P_error.
Qed.

Lemma forEach_collection_ends (last : nat) (collections : list string)
    (counter : nat) (pending : list string) (next : Callback)
    (k : nat → list string → World → Outcome) (w : World) :
  (∀ err w', P w' → ends P (next err w')) →
  (∀ c p w', P w' → ends P (k c p w')) →
  P w →
  ends P (forEach_collection env last collections counter pending next k w).
Proof.
  intros Hnext Hk. revert counter pending w.
  induction collections as [|collection rest IH]; intros counter pending w HP.
  - by apply Hk.
  - cbn [forEach_collection request].
    assert (P (emit (DbCollection collection) w)) as HP1 by by apply P_emit.
    destruct (reply_handle env (trace w) collection); [|done].
    assert (P (logger (LogString ("select collection " +:+ collection))
                      (emit (DbCollection collection) w))) as HP2 by by apply P_emit.
    destruct (reply_err env (trace w) (DbCollection collection)) as [e|].
    + destruct (decide (last = S counter)).
      * apply and_then_ends; [by apply Hnext|]. intros w' HP'. by apply IH.
      * apply IH. by apply (P_error (Some e)).
    + apply IH. by apply P_emit.
Qed.

Lemma someCollections_ends (collections : list string) (next : Callback) (w : World) :
  (∀ err w', P w' → ends P (next err w')) →
  P w →
  ends P (someCollections env collections next w).
Proof.
  intros Hnext HP. unfold someCollections.
  destruct (decide (length collections = 0)); [by apply Hnext|].
  apply forEach_collection_ends; [done| |done].
  intros c p w' HP'. by apply drop_completions_ends.
Qed.

Lemma latest_callback_ends (my : Options) (err : option Err) (w : World) :
  P w → ends P (latest_callback my err w).
Proof.
  intros HP. unfold latest_callback, ends.
  assert (P (logger (LogString "restore stop") w)) as HP1 by by apply P_emit.
  destruct (my_callback my); cbn.
  - apply P_emit; [done|]. by apply P_emit.
  - destruct err; cbn; [by apply P_emit|done].
Qed.

Section WithSource.

Variable my : Options.
Variable parser : Parser.
Variable datasource : DataSource.

(** The dump source ends in [P] when its completion callback does. *)
Hypothesis source_ends :
  ∀ callback w,
    (∀ err w', P w' → ends P (callback err w')) →
    P w →
    ends P (datasource (streamListener env parser (writer env fuel) (my_metadata my))
                       callback w).

Lemma importDataToDb_ends (err : option Err) (w : World) :
  P w → ends P (importDataToDb env fuel my parser datasource err w).
Proof.
  intros HP. unfold importDataToDb. destruct err as [e|].
  - apply latest_callback_ends. apply P_emit; [done|]. by apply P_emit.
  - apply source_ends; [|by apply P_fresh].
    intros err w' HP'. apply latest_callback_ends.
    apply P_emit; [done|]. by apply P_emit.
Qed.

Lemma go_ends (w : World) :
  P w → ends P (go env fuel my parser datasource w).
Proof.
  intros HP. unfold go. cbn [request].
  assert (P (logger (LogString "db open") (emit (MongoConnect (my_uri my)) w))) as HP1.
  { apply P_emit; [done|]. by apply P_emit. }
  destruct (reply_err env (trace w) (MongoConnect (my_uri my))) as [e|];
    [by apply latest_callback_ends|].
  destruct (my_drop my).
  - apply importDataToDb_ends. apply P_emit; [done|]. by apply P_emit.
  - destruct (my_dropCollections my) as [|names|].
    + by apply importDataToDb_ends.
    + apply someCollections_ends; [intros; by apply importDataToDb_ends|].
      by apply P_emit.
    + match goal with
      | |- context [error ?err ?w0] => assert (P (error err w0)) as HP2
      end.
      { apply P_error. apply P_emit; [done|]. by apply P_emit. }
      destruct (reply_names env _) as [collections|]; [|done].
      apply someCollections_ends; [intros; by apply importDataToDb_ends|done].
Qed.

End WithSource.

End SessionFacts.

(** ** Whole runs keep the invariant *)

Section RunFacts.

Variable env : Env.
Variable fuel : nat.

#[local] Abbreviation Lp parser sm := (streamListener env parser (writer env fuel) sm).

Lemma session_event_permitted (sm ix : bool) (e : Event) :
  session_event e → permitted sm ix e.
Proof. by destruct e. Qed.

Lemma finish_ends (parser : Parser) (sm : bool) (callback : Callback) (w : World) :
  (∀ err w', Inv sm sm w' → ends (Inv sm sm) (callback err w')) →
  Inv sm sm w →
  ends (Inv sm sm) (finish (Lp parser sm) callback w).
Proof.
  intros Hcb HI.
  eapply reaches_ends; [by apply finish_reaches|].
  intros err0 w' HI'. by apply Hcb.
Qed.

Lemma extract_entries_ends (parser : Parser) (sm : bool) (entries : list TarEntry)
    (callback : Callback) (w : World) :
  (∀ err w', Inv sm sm w' → ends (Inv sm sm) (callback err w')) →
  Inv sm sm w →
  ends (Inv sm sm) (extract_entries (Lp parser sm) entries callback w).
Proof.
  intros Hcb HI.
  destruct (extract_entries_dispatch env fuel parser sm sm entries callback w HI)
    as (w' & HI' & [->|[ex ->]]); [by apply finish_ends|done].
Qed.

Lemma fileSystemDataSource_begin_ends (parser : Parser) (sm : bool) (rootDir : string)
    (callback : Callback) (w : World) :
  (∀ err w', Inv sm sm w' → ends (Inv sm sm) (callback err w')) →
  Inv sm sm w →
  ends (Inv sm sm) (fileSystemDataSource_begin env rootDir (Lp parser sm) callback w).
Proof.
  intros Hcb HI.
  destruct (fileSystemDataSource_begin_dispatch env fuel parser sm sm rootDir callback w HI)
    as (w' & HI' & [->|[->|[ex ->]]]); [by apply finish_ends|by apply Hcb|done].
Qed.

(** Every run, from any source and with any drop policy, ends in a world
    that satisfies the invariant; index replay is permitted exactly when
    metadata replay is on. *)
Lemma wrapper_ends (my : Options) (w : World) :
  Inv (my_metadata my) (my_metadata my) w →
  ends (Inv (my_metadata my) (my_metadata my)) (wrapper env fuel my w).
Proof.
  intros HI. unfold wrapper.
  destruct (select_parser (my_parser my)) as [ex|parser]; [done|].
  set (sm := my_metadata my) in *.
  match goal with
  | |- context [go _ _ _ _ _ ?w0] => assert (Inv sm sm w0) as HI1
  end.
  { destruct (my_logger my); [|done]. by apply Inv_emit. }
  assert (∀ e w0, session_event e → Inv sm sm w0 → Inv sm sm (emit e w0)) as Hemit.
  { intros e w0 He. apply Inv_emit. by apply session_event_permitted. }
  destruct (tar_falsy (my_tar my)).
  - apply go_ends; [done|apply Inv_fresh| |done].
    intros callback w0. apply fileSystemDataSource_begin_ends.
  - destruct (my_stream my) as [tarStream|].
    + apply go_ends; [done|apply Inv_fresh| |done].
      intros callback w0. apply extract_entries_ends.
    + unfold tarDataSource.
      destruct (createReadStream env _ _) as [buffers|e].
      * apply go_ends; [done|apply Inv_fresh| |by apply Inv_emit].
        intros callback w0. apply extract_entries_ends.
      * unfold ends. cbn [world_of]. apply Hemit; [done|]. by apply Inv_emit.
Qed.

Lemma Inv_initial (sm ix : bool) : Inv sm ix initial_world.
Proof.
  split; [done|apply lookup_empty|].
  intros k docs. cbn. by rewrite lookup_empty.
Qed.

End RunFacts.

(** ** Blobs under the reserved directory *)

Section MetadataBlobs.

Variable env : Env.

(** The two patterns for file paths match the same paths. *)
Lemma metadataFilenameRegexp_matches (s c : string) :
  collectionNameForFiles s = Some c →
  ∃ f, metadataFilenameRegexp s = Some f.
Proof.
  unfold collectionNameForFiles, metadataFilenameRegexp.
  destruct (rev (segments s)) as [|f [|c' [|x rest]]]; try done.
  destruct f; [done|]. destruct c'; [done|]. cbn. eauto.
Qed.

(** With metadata replay off, a blob under the reserved directory is
    acknowledged in the world it arrived in. *)
Lemma onFile_metadata_disabled (parser : Parser) (W : Writer) (name : string)
    (stream : ReadStream) (callback : Callback) (w : World) :
  collectionNameForFiles (replace_backslashes name) = Some metadata_name →
  listener_onFile env parser W false name stream callback w = callback None w.
Proof.
  intros Hc. unfold listener_onFile. rewrite Hc.
  destruct (metadataFilenameRegexp_matches _ _ Hc) as [f ->].
  by destruct (decide (metadata_name = metadata_name)).
Qed.

(** With metadata replay on, it is collected, decoded by [JSON.parse]
    whatever the configured parser is, and pushed onto the metadata
    records; the writer is not called. *)
Lemma onFile_metadata_enabled (parser : Parser) (W : Writer) (name : string)
    (buffers : list Buffer) (callback : Callback) (w : World) :
  collectionNameForFiles (replace_backslashes name) = Some metadata_name →
  ∃ metadataName,
    metadataFilenameRegexp (replace_backslashes name) = Some metadataName
    ∧ listener_onFile env parser W true name (Chunks buffers) callback w =
      match decode env JSON_parse (Buffer_concat buffers) with
      | Some doc =>
          callback None
            {| trace := trace w ++ [StreamOn name; Parse JSON_parse (Buffer_concat buffers)];
               dataToWrite := dataToWrite w;
               metadata := metadata w ++ [mkMetadata metadataName doc];
               prototype := prototype w |}
      | None =>
          Thrown SyntaxError
            {| trace := trace w ++ [StreamOn name; Parse JSON_parse (Buffer_concat buffers)];
               dataToWrite := dataToWrite w;
               metadata := metadata w;
               prototype := prototype w |}
      end.
Proof.
  intros Hc. destruct (metadataFilenameRegexp_matches _ _ Hc) as [f Hf].
  exists f. split; [done|].
  unfold listener_onFile. rewrite Hc, Hf.
  destruct (decide (metadata_name = metadata_name)); [|done].
  cbn. unfold call_parse. cbn.
  destruct (decode env JSON_parse (Buffer_concat buffers));
    unfold set_metadata, emit; cbn; by rewrite <- app_assoc.
Qed.


Lemma onDirectory_metadata (W : Writer) (directoryName : string)
    (callback : Callback) (w : World) :
  collectionNameForDirectory (replace_backslashes directoryName) = Some metadata_name →
  listener_onDirectory W directoryName callback w = callback None w.
Proof.
  intros Hc. unfold listener_onDirectory. rewrite Hc.
  by destruct (decide (metadata_name = metadata_name)).
Qed.

End MetadataBlobs.

(** ** The collection dropper calls [next] once *)

Section DropperFacts.

Variable env : Env.
Variable P : World → Prop.
Hypothesis P_emit : ∀ e w, session_event e → P w → P (emit e w).

Lemma and_then_returns (o : Outcome) (k : World → Outcome) :
  (∀ w, k w = Returned w) → and_then o k = o.
Proof. intros Hk. destruct o; cbn; [apply Hk|done|done]. Qed.

(** The drops in flight complete one by one; the last completion calls
    [next], with no error. *)
Lemma drop_completions_steps (n last counter : nat) (pending : list string)
    (next : Callback) (w : World) :
  n = length pending →
  counter + length pending = last →
  counter < last →
  P w →
  steps P next (drop_completions env n last counter pending next w).
Proof.
  revert counter pending w.
  induction n as [|n IH]; intros counter pending w Hn Hsum Hlt HP; [lia|].
  cbn [drop_completions].
  set (i := drop_order env (trace w) `mod` length pending).
  assert (i < length pending) as Hi.
  { apply Nat.mod_upper_bound. lia. }
  destruct (lookup_lt_is_Some_2 pending i Hi) as [collection Hc]. rewrite Hc.
  assert (P (error (reply_err env (trace w) (CollectionDrop collection)) w)) as HP1.
  { by apply P_error. }
  assert (length (delete i pending) = n) as Hlen.
  { rewrite length_delete by eauto. lia. }
  destruct (decide (last = S counter)) as [Hlast|Hmore].
  - rewrite and_then_returns.
    + eexists. split; [exact HP1|]. left. by eexists.
    + intros w'. assert (n = 0) as -> by lia. done.
  - apply IH; [done|lia|lia|done].
Qed.

(** The [forEach]: the collections still to visit, the drops in flight
    and the callbacks already counted add up to [last]. *)
Lemma forEach_collection_steps (last : nat) (collections : list string)
    (counter : nat) (pending : list string) (next : Callback) (w : World) :
  counter + length pending + length collections = last →
  counter < last →
  P w →
  steps P next
    (forEach_collection env last collections counter pending next
       (fun c p => drop_completions env (length p) last c p next) w).
Proof.
  revert counter pending w.
  induction collections as [|collection rest IH]; intros counter pending w Hsum Hlt HP.
  - cbn [forEach_collection]. cbn in Hsum.
    apply drop_completions_steps; [done|lia|done|done].
  - cbn [forEach_collection request]. cbn [length] in Hsum.
    assert (P (emit (DbCollection collection) w)) as HP1 by by apply P_emit.
    destruct (reply_handle env (trace w) collection);
      [|eexists; split; [exact HP1|]; right; by eexists].
    assert (P (logger (LogString ("select collection " +:+ collection))
                      (emit (DbCollection collection) w))) as HP2 by by apply P_emit.
    destruct (reply_err env (trace w) (DbCollection collection)) as [e|].
    + destruct (decide (last = S counter)) as [Hlast|Hmore].
      * rewrite and_then_returns.
        { eexists. split; [exact HP2|]. left. by eexists. }
        intros w'. assert (rest = []) as ->.
        { destruct rest; [done|]. cbn in Hsum. lia. }
        assert (pending = []) as ->.
        { destruct pending; [done|]. cbn in Hsum. lia. }
        done.
      * apply IH; [lia|lia|]. by apply (P_error P P_emit (Some e)).
    + apply IH; [|done|by apply P_emit].
      rewrite length_app. cbn. lia.
Qed.

Lemma someCollections_steps (collections : list string) (next : Callback) (w : World) :
  P w → steps P next (someCollections env collections next w).
Proof.
  intros HP. unfold someCollections.
  destruct (decide (length collections = 0)).
  - exists w. split; [done|]. left. by eexists.
  - apply forEach_collection_steps; [cbn; lia|lia|done].
Qed.

(** [go] reaches [importDataToDb], or ends with the connection error, or
    throws. *)
Lemma go_steps (fuel : nat) (my : Options) (parser : Parser) (datasource : DataSource)
    (w : World) :
  P w →
  ∃ w', P w'
        ∧ ((∃ err, go env fuel my parser datasource w
                   = importDataToDb env fuel my parser datasource err w')
           ∨ (∃ e, go env fuel my parser datasource w = latest_callback my (Some e) w')
           ∨ ∃ ex, go env fuel my parser datasource w = Thrown ex w').
Proof.
  intros HP. unfold go. cbn [request].
  assert (P (logger (LogString "db open") (emit (MongoConnect (my_uri my)) w))) as HP1.
  { apply P_emit; [done|]. by apply P_emit. }
  destruct (reply_err env (trace w) (MongoConnect (my_uri my))) as [e|];
    [eexists; split; [exact HP1|]; right; left; by eexists|].
  destruct (my_drop my).
  - eexists. split; [|left; by eexists]. apply P_emit; [done|]. by apply P_emit.
  - destruct (my_dropCollections my) as [|names|].
    + eexists. split; [exact HP1|]. left. by eexists.
    + match goal with
      | |- context [someCollections env names ?next ?w0] =>
          destruct (someCollections_steps names next w0)
            as (w' & HP' & [[err Hout]|[ex Hout]]); [by apply P_emit| |]
      end.
      * exists w'. split; [done|]. left. by exists err.
      * exists w'. split; [done|]. right. right. by exists ex.
    + match goal with
      | |- context [error ?err ?w0] => assert (P (error err w0)) as HP2
      end.
      { apply (P_error P P_emit). apply P_emit; [done|]. by apply P_emit. }
      destruct (reply_names env _) as [collections|];
        [|eexists; split; [exact HP2|]; right; right; by eexists].
      match goal with
      | |- context [someCollections env ?names ?next ?w0] =>
          destruct (someCollections_steps names next w0 HP2)
            as (w' & HP' & [[err Hout]|[ex Hout]])
      end.
      * exists w'. split; [done|]. left. by exists err.
      * exists w'. split; [done|]. right. right. by exists ex.
Qed.

End DropperFacts.

(** ** A run up to [finish] *)

Section RunShape.

Variable env : Env.
Variable fuel : nat.

#[local] Abbreviation Lq parser sm := (streamListener env parser (writer env fuel) sm).

Lemma Inv_no_index (sm : bool) (w : World) :
  Inv sm false w → Forall (fun e => ¬ is_createIndexes e) (trace w).
Proof.
  intros [Ht _ _]. eapply Forall_impl; [exact Ht|].
  intros e He. destruct e; cbn in *; try tauto. intros _. discriminate He.
Qed.

(** [drain], with the pending map known to be empty when it calls back. *)
Lemma drain_from_outcome (sm ix : bool) (n : nat) (callback : Callback) (w : World) :
  Inv sm ix w →
  ∃ w', Inv sm ix w'
        ∧ ((dataToWrite w' = ∅ ∧ drain_from env n callback w = callback None w')
           ∨ (∃ ex, drain_from env n callback w = Thrown ex w')
           ∨ drain_from env n callback w = Diverged w').
Proof.
  revert w. induction n as [|n IH]; intros w HI.
  - exists w. split; [done|]. by right; right.
  - simpl. destruct (Object_keys env (trace w) (dataToWrite w)) as [|name rest] eqn:Hk.
    + exists w. split; [done|]. left. split; [|done]. by eapply Object_keys_nil.
    + destruct (Object_keys_head _ _ _ _ _ Hk) as [docs Hdocs].
      pose proof (inv_nonempty _ _ _ HI _ _ Hdocs) as Hdne.
      destruct (reply_handle env (trace w) name) eqn:Hh.
      * rewrite (writeAllInCollection_flush env name docs) by done.
        apply IH. by apply Inv_flushed.
      * rewrite (writeAllInCollection_no_handle env name docs) by done.
        eexists. split; [|right; left; by eexists]. by apply Inv_flush_history.
Qed.

Lemma closing_ends (sm ix : bool) (my : Options) (err : option Err) (w : World) :
  Inv sm ix w → ends (Inv sm ix) (closing my err w).
Proof.
  intros HI. unfold closing.
  assert (∀ e w0, session_event e → Inv sm ix w0 → Inv sm ix (emit e w0)) as Hemit.
  { intros e w0 He. apply Inv_emit. by apply session_event_permitted. }
  apply latest_callback_ends; [done|]. apply Hemit; [done|]. by apply Hemit.
Qed.

(** A session whose dump source dispatches and then reaches [finish]
    does so itself, unless it ends before. *)
Lemma go_dispatch (sm ix : bool) (my : Options) (parser : Parser)
    (datasource : DataSource) (w : World) :
  my_metadata my = sm →
  (∀ w0, Inv sm ix w0 →
     ∃ w', Inv sm ix w'
           ∧ (datasource (Lq parser sm) (closing my) w0 = finish (Lq parser sm) (closing my) w'
              ∨ datasource (Lq parser sm) (closing my) w0
                = closing my (Some multiple_directories) w'
              ∨ ∃ ex, datasource (Lq parser sm) (closing my) w0 = Thrown ex w')) →
  Inv sm ix w →
  ends (Inv sm ix) (go env fuel my parser datasource w)
  ∨ ∃ w', Inv sm ix w'
          ∧ go env fuel my parser datasource w = finish (Lq parser sm) (closing my) w'.
Proof.
  intros Hsm Hsrc HI.
  assert (∀ e w0, session_event e → Inv sm ix w0 → Inv sm ix (emit e w0)) as Hemit.
  { intros e w0 He. apply Inv_emit. by apply session_event_permitted. }
  destruct (go_steps env (Inv sm ix) Hemit fuel my parser datasource w HI)
    as (w1 & HI1 & [[err ->]|[[e ->]|[ex ->]]]).
  - unfold importDataToDb. destruct err as [e|].
    + left. apply latest_callback_ends; [done|].
      apply Hemit; [done|]. by apply Hemit.
    + rewrite Hsm. fold (closing my).
      destruct (Hsrc _ (Inv_fresh sm ix w1 HI1)) as (w2 & HI2 & [->|[->|[ex ->]]]).
      * right. by exists w2.
      * left. by apply closing_ends.
      * by left.
  - left. by apply latest_callback_ends.
  - by left.
Qed.

(** Every run either ends without reaching [finish], or is [finish]
    from a world that satisfies the invariant. *)
Lemma wrapper_dispatch (ix : bool) (my : Options) (w : World) :
  Inv (my_metadata my) ix w →
  ends (Inv (my_metadata my) ix) (wrapper env fuel my w)
  ∨ ∃ parser w',
      Inv (my_metadata my) ix w'
      ∧ wrapper env fuel my w = finish (Lq parser (my_metadata my)) (closing my) w'.
Proof.
  intros HI. unfold wrapper.
  destruct (select_parser (my_parser my)) as [ex|parser]; [by left|].
  set (sm := my_metadata my) in *.
  match goal with
  | |- context [go _ _ _ _ _ ?w0] => assert (Inv sm ix w0) as HI1
  end.
  { destruct (my_logger my); [|done]. by apply Inv_emit. }
  assert (∀ datasource w0,
            Inv sm ix w0 →
            (∀ w0, Inv sm ix w0 →
               ∃ w', Inv sm ix w'
                     ∧ (datasource (Lq parser sm) (closing my) w0
                          = finish (Lq parser sm) (closing my) w'
                        ∨ datasource (Lq parser sm) (closing my) w0
                          = closing my (Some multiple_directories) w'
                        ∨ ∃ ex, datasource (Lq parser sm) (closing my) w0 = Thrown ex w')) →
            ends (Inv sm ix) (go env fuel my parser datasource w0)
            ∨ ∃ parser0 w',
                Inv sm ix w'
                ∧ go env fuel my parser datasource w0
                  = finish (Lq parser0 sm) (closing my) w') as Hgo.
  { intros datasource w0 HI0 Hsrc.
    destruct (go_dispatch sm ix my parser datasource w0 eq_refl Hsrc HI0)
      as [Hends|(w' & HI' & Heq)]; [by left|right]. by exists parser, w'. }
  assert (∀ entries w0, Inv sm ix w0 →
            ∃ w', Inv sm ix w'
                  ∧ (streamingTarDataSource_begin entries (Lq parser sm) (closing my) w0
                       = finish (Lq parser sm) (closing my) w'
                     ∨ streamingTarDataSource_begin entries (Lq parser sm) (closing my) w0
                       = closing my (Some multiple_directories) w'
                     ∨ ∃ ex, streamingTarDataSource_begin entries (Lq parser sm) (closing my) w0
                             = Thrown ex w')) as Htar.
  { intros entries w0 HI0. unfold streamingTarDataSource_begin.
    destruct (extract_entries_dispatch env fuel parser sm ix entries (closing my) w0 HI0)
      as (w' & HI' & [Heq|Heq]); exists w'; (split; [done|]); [by left|by right; right]. }
  destruct (tar_falsy (my_tar my)).
  - apply Hgo; [done|]. intros w0 HI0. by apply fileSystemDataSource_begin_dispatch.
  - destruct (my_stream my) as [tarStream|].
    + apply Hgo; [done|]. apply Htar.
    + unfold tarDataSource.
      destruct (createReadStream env _ _) as [buffers|e].
      * apply Hgo; [by apply Inv_emit|]. apply Htar.
      * left. unfold ends. cbn [world_of].
        apply Inv_emit; [done|]. by apply Inv_emit.
Qed.

(** With metadata replay on, [finish] from a world without
    create-indexes requests issues none before the pending map is empty:
    it ends without any, or it is the index replay started from an empty
    pending map. *)
Lemma finish_index_after_drain (parser : Parser) (callback : Callback) (w : World) :
  Inv true false w →
  Forall (fun e => ¬ is_createIndexes e)
         (trace (world_of (finish (Lq parser true) callback w)))
  ∨ ∃ w1,
      dataToWrite w1 = ∅
      ∧ Forall (fun e => ¬ is_createIndexes e) (trace w1)
      ∧ finish (Lq parser true) callback w =
        writer_addIndices env fuel (fun err w3 => callback None (error err w3)) w1.
Proof.
  intros HI. cbn. unfold listener_finish. cbn [drain writer addIndices negb].
  unfold writer_drain. cbv zeta.
  destruct (drain_from_outcome true false fuel
              (fun err w1 =>
                 writer_addIndices env fuel
                   (fun err w3 => callback None (error err w3)) (error err w1))
              w HI) as (w' & HI' & [[Hempty Hout]|[[ex Hout]|Hout]]); rewrite Hout.
  - right. exists w'. split; [done|]. split; [by eapply Inv_no_index|done].
  - left. by eapply Inv_no_index.
  - left. by eapply Inv_no_index.
Qed.

End RunShape.

(** ** Backslashes *)

Section BackslashFacts.

Lemma replace_backslashes_app (a b : string) :
  replace_backslashes (a +:+ b) = replace_backslashes a +:+ replace_backslashes b.
Proof.
  induction a as [|c r IH]; [done|].
  change (String c r +:+ b) with (String c (r +:+ b)).
  cbn [replace_backslashes]. rewrite IH. done.
Qed.

Lemma replace_backslashes_free (s : string) :
  backslash_free s = true → replace_backslashes s = s.
Proof.
  induction s as [|c r IH]; [done|]. cbn.
  destruct (Ascii.eqb c backslash); [done|]. cbn. intros Hr. by rewrite IH.
Qed.

Lemma replace_backslashes_clean (s : string) :
  backslash_free (replace_backslashes s) = true.
Proof.
  induction s as [|c r IH]; [done|]. cbn.
  destruct (Ascii.eqb c backslash) eqn:Hc; cbn; [done|]. by rewrite Hc.
Qed.

(** The last three segments of a text decide what the file patterns
    return. *)
Lemma file_path_decompose (s f c x : string) (rest : list string) :
  rev (segments s) = f :: c :: x :: rest →
  s = join_slash (rev rest ++ [x]) +:+ "/" +:+ c +:+ "/" +:+ f
  ∧ slash_free c = true ∧ slash_free f = true.
Proof.
  intros Hrev.
  assert (segments s = (rev rest ++ [x]) ++ [c] ++ [f]) as Hseg.
  { rewrite <- (rev_involutive (segments s)), Hrev. cbn.
    by rewrite <- !app_assoc. }
  pose proof (segments_all_slash_free s) as Hall. rewrite Hseg in Hall.
  apply Forall_app in Hall as [_ Hall].
  apply Forall_cons in Hall as [Hc Hall].
  apply Forall_cons in Hall as [Hf _].
  split; [|done].
  rewrite <- (segments_join s) at 1. rewrite Hseg.
  rewrite join_slash_app; [|by destruct (rev rest)|done].
  done.
Qed.

End BackslashFacts.

(** ** [finish] as a whole *)

Section FinishFacts.

Variable env : Env.

Lemma createIndexes_requests_app (t1 t2 : list Event) :
  createIndexes_requests (t1 ++ t2) = createIndexes_requests t1 ++ createIndexes_requests t2.
Proof. unfold createIndexes_requests. apply omap_app. Qed.

Lemma createIndexes_requests_flush (m : gmap string (list Document)) (t : list Event) :
  Forall (flush_event m) t → createIndexes_requests t = [].
Proof.
  induction 1 as [|e t He _ IH]; [done|].
  unfold createIndexes_requests in *. cbn. rewrite IH. by destruct e.
Qed.

Lemma createIndexes_requests_logs (err : option Err) :
  createIndexes_requests (log_events err) = [].
Proof. by destruct err. Qed.

End FinishFacts.

(** ** Documents are neither lost nor doubled *)

Section ConserveFacts.

Variable env : Env.

Lemma sent_app (name : string) (t1 t2 : list Event) :
  sent name (t1 ++ t2) = sent name t1 ++ sent name t2.
Proof. unfold sent. apply flat_map_app. Qed.

Lemma sent_logs (name : string) (err : option Err) : sent name (log_events err) = [].
Proof. by destruct err. Qed.

Lemma sent_flush_request (n name : string) (docs : list Document) :
  sent n [flush_request name docs] = if decide (n = name) then docs else [].
Proof.
  unfold sent, flush_request. cbn. rewrite app_nil_r.
  destruct (decide (name = n)) as [->|Hne].
  - destruct (decide (n = n)); [|done].
    rewrite <- list_fmap_compose. clear. induction docs as [|d docs IH]; [done|].
    cbn. by rewrite IH.
  - destruct (decide (n = name)); [by subst|done].
Qed.

Lemma sent_flush_history (n name : string) (w : World) :
  sent n (flush_history env name w) = sent n (trace w).
Proof.
  unfold flush_history. rewrite sent_app.
  change (DbCollection name :: ?l) with ([DbCollection name] ++ l).
  rewrite sent_app, sent_logs. cbn. by rewrite app_nil_r.
Qed.

Lemma sent_flushed (n name : string) (docs : list Document) (w : World) :
  sent n (trace (flushed env name docs w)) =
  sent n (trace w) ++ (if decide (n = name) then docs else []).
Proof.
  change (trace (flushed env name docs w))
    with (flush_history env name w ++ [flush_request name docs]).
  by rewrite sent_app, sent_flush_history, sent_flush_request.
Qed.

Lemma pending_flushed (n name : string) (docs : list Document) (w : World) :
  pending (flushed env name docs w) n = if decide (n = name) then [] else pending w n.
Proof.
  unfold pending. cbn. destruct (decide (n = name)) as [->|Hne].
  - by rewrite lookup_delete_eq.
  - by rewrite lookup_delete_ne.
Qed.

Lemma pending_insert (n name : string) (docs : list Document) (w : World) :
  pending (set_dataToWrite (<[name := docs]> (dataToWrite w)) w) n =
  if decide (n = name) then docs else pending w n.
Proof.
  unfold pending. cbn. destruct (decide (n = name)) as [->|Hne].
  - by rewrite lookup_insert_eq.
  - by rewrite lookup_insert_ne.
Qed.

Lemma sent_error (n : string) (err : option Err) (w : World) :
  sent n (trace (error err w)) = sent n (trace w).
Proof. by rewrite trace_error, sent_app, sent_logs, app_nil_r. Qed.

Lemma pending_error (n : string) (err : option Err) (w : World) :
  pending (error err w) n = pending w n.
Proof. unfold pending. by rewrite dataToWrite_error. Qed.

(** [addDocument] on an ordinary key: what was sent or is pending for a
    collection grows by the document, for its collection, and by nothing
    for the others. *)
Lemma addDocument_accepts (name : string) (doc : Document) (next : Callback) (w : World) :
  plain w name →
  ∃ w',
    ((∃ err, writer_addDocument env name doc next w = next err w')
     ∨ writer_addDocument env name doc next w = Thrown TypeError w')
    ∧ metadata w' = metadata w
    ∧ prototype w' = prototype w
    ∧ ∀ n, sent n (trace w') ++ pending w' n =
           sent n (trace w) ++ pending w n ++ (if decide (n = name) then [doc] else []).
Proof.
  intros Hplain.
  destruct (decide (50 < length (pending w name ++ [doc]))) as [Hgt|Hle].
  - destruct (reply_handle env (trace w) name) eqn:Hh.
    + eexists. split; [left; eexists; by apply addDocument_above|].
      split; [done|]. split; [done|]. intros n. rewrite sent_flushed, pending_flushed.
      destruct (decide (n = name)) as [->|Hne].
      * by rewrite app_nil_r.
      * by rewrite !app_nil_r.
    + eexists. split; [right; by apply addDocument_above_no_handle|].
      split; [done|]. split; [done|]. intros n. cbn [trace]. rewrite sent_flush_history.
      unfold pending at 1. cbn [dataToWrite].
      destruct (decide (n = name)) as [->|Hne].
      * by rewrite lookup_insert_eq.
      * rewrite lookup_insert_ne by done. by rewrite app_nil_r.
  - eexists. split; [left; exists None; apply addDocument_below; [done|lia]|].
    split; [done|]. split; [done|]. intros n. rewrite pending_insert.
    cbn [trace set_dataToWrite].
    destruct (decide (n = name)) as [->|Hne]; [done|]. by rewrite app_nil_r.
Qed.

(** [drain]: everything pending has been sent when it calls back. *)
Lemma drain_from_sends (n : nat) (callback : Callback) (w : World) :
  buffers_nonempty w →
  size (dataToWrite w) < n →
  ∃ w',
    ((drain_from env n callback w = callback None w' ∧ dataToWrite w' = ∅)
     ∨ (drain_from env n callback w = Thrown TypeError w'
        ∧ ∃ h name, reply_handle env h name = false))
    ∧ metadata w' = metadata w
    ∧ ∀ k, sent k (trace w') ++ pending w' k = sent k (trace w) ++ pending w k.
Proof.
  revert w. induction n as [|n IH]; intros w Hne Hlt; [lia|].
  simpl. destruct (Object_keys env (trace w) (dataToWrite w)) as [|name rest] eqn:Hk.
  - apply Object_keys_nil in Hk. exists w. split; [by left|done].
  - destruct (Object_keys_head _ _ _ _ _ Hk) as [docs Hdocs].
    pose proof (Hne _ _ Hdocs) as Hdne.
    destruct (reply_handle env (trace w) name) eqn:Hhandle.
    + rewrite (writeAllInCollection_flush env name docs) by done.
      set (err2 := reply_err env (flush_history env name w) (flush_request name docs)).
      destruct (IH (error err2 (flushed env name docs w))) as (w' & Hout & Hmeta & Hcons).
      { by apply buffers_nonempty_flushed. }
      { rewrite dataToWrite_error. cbn [dataToWrite flushed].
        rewrite map_size_delete_Some by eauto.
        assert (size (dataToWrite w) ≠ 0); [|lia].
        apply map_size_non_empty_iff. intros Hm. rewrite Hm in Hdocs.
        by rewrite lookup_empty in Hdocs. }
      exists w'. split; [exact Hout|]. split.
      { by rewrite Hmeta, metadata_error. }
      intros k. rewrite Hcons, sent_error, pending_error, sent_flushed, pending_flushed.
      rewrite <- app_assoc. f_equal.
      destruct (decide (k = name)) as [->|Hk'].
      * unfold pending. rewrite Hdocs. cbn. by rewrite app_nil_r.
      * done.
    + rewrite (writeAllInCollection_no_handle env name docs) by done.
      eexists. split; [right; split; [done|by eauto]|].
      split; [done|]. intros k. cbn [trace]. by rewrite sent_flush_history.
Qed.

(** [drain], call by call: given collection objects, the calls are those
    of the flushes, every error is logged, and for every collection the
    documents of its batched inserts are the documents that were
    pending. *)
Lemma drain_from_sends_all (n : nat) (callback : Callback) (w : World) :
  handles_delivered env →
  buffers_nonempty w →
  size (dataToWrite w) < n →
  ∃ t,
    drain_from env n callback w =
    callback None {| trace := trace w ++ t;
                     dataToWrite := ∅;
                     metadata := metadata w;
                     prototype := prototype w |}
    ∧ Forall (flush_event (dataToWrite w)) t
    ∧ errors_logged env (trace w) t
    ∧ ∀ k, sent k t = pending w k.
Proof.
  intros Hh. revert w. induction n as [|n IH]; intros w Hne Hlt; [lia|].
  simpl. destruct (Object_keys env (trace w) (dataToWrite w)) as [|name rest] eqn:Hk.
  - apply Object_keys_nil in Hk. exists []. rewrite app_nil_r.
    split; [destruct w; simpl in *; by subst|].
    split; [done|]. split; [apply errors_logged_nil|].
    intros k. unfold pending. by rewrite Hk, lookup_empty.
  - destruct (Object_keys_head _ _ _ _ _ Hk) as [docs Hdocs].
    pose proof (Hne _ _ Hdocs) as Hdne.
    set (b1 := DbCollection name :: log_events (reply_err env (trace w) (DbCollection name))).
    assert (flush_history env name w = trace w ++ b1) as Hhist by done.
    rewrite (writeAllInCollection_flush env name docs) by done.
    set (err2 := reply_err env (flush_history env name w) (flush_request name docs)).
    set (b2 := flush_request name docs :: log_events err2).
    destruct (IH (error err2 (flushed env name docs w))) as (t & Hout & Hall & Hlog & Hsent).
    { by apply buffers_nonempty_flushed. }
    { rewrite dataToWrite_error. cbn [dataToWrite flushed].
      rewrite map_size_delete_Some by eauto.
      assert (size (dataToWrite w) ≠ 0); [|lia].
      apply map_size_non_empty_iff. intros Hm. rewrite Hm in Hdocs.
      by rewrite lookup_empty in Hdocs. }
    rewrite trace_error, dataToWrite_error, metadata_error, ?prototype_error in *.
    cbn [trace dataToWrite metadata prototype flushed] in *.
    exists (b1 ++ b2 ++ t).
    assert ((flush_history env name w ++ [flush_request name docs]) ++ log_events err2
            = trace w ++ b1 ++ b2) as Htr.
    { rewrite Hhist. unfold b2. by rewrite <- !app_assoc. }
    rewrite Htr in *.
    split; [|split; [|split]].
    + rewrite <- !app_assoc in Hout. exact Hout.
    + apply Forall_app. split.
      { constructor; [simpl; eauto|].
        destruct (reply_err env (trace w) (DbCollection name)); simpl; [|done].
        by constructor. }
      apply Forall_app. split.
      { constructor; [simpl; eauto|]. destruct err2; simpl; [|done].
        by constructor. }
      eapply Forall_impl; [exact Hall|]. intros e. apply flush_event_delete.
    + apply errors_logged_app; [apply errors_logged_request|].
      apply errors_logged_app.
      { unfold b2, err2. rewrite Hhist. apply errors_logged_request. }
      by rewrite <- app_assoc.
    + intros k. rewrite !sent_app, Hsent, pending_error, pending_flushed.
      unfold b1, b2.
      change (DbCollection name :: ?l) with ([DbCollection name] ++ l).
      change (flush_request name docs :: ?l) with ([flush_request name docs] ++ l).
      rewrite !sent_app, !sent_logs, sent_flush_request. cbn.
      destruct (decide (k = name)) as [->|Hneq].
      * unfold pending. rewrite Hdocs. cbn. by rewrite !app_nil_r.
      * by rewrite !app_nil_r.
Qed.

End ConserveFacts.

(** ** The collection dropper, call by call *)

Section DropperTrace.

Variable env : Env.

Lemma logs_no_requests (t : list Event) :
  Forall is_logger t → collection_requests t = [] ∧ drop_requests t = [].
Proof.
  induction 1 as [|e t He _ [IH1 IH2]]; [done|].
  unfold collection_requests, drop_requests in *. cbn. rewrite IH1, IH2.
  by destruct e.
Qed.

Lemma collection_requests_app (t1 t2 : list Event) :
  collection_requests (t1 ++ t2) = collection_requests t1 ++ collection_requests t2.
Proof. unfold collection_requests. apply omap_app. Qed.

Lemma drop_requests_app (t1 t2 : list Event) :
  drop_requests (t1 ++ t2) = drop_requests t1 ++ drop_requests t2.
Proof. unfold drop_requests. apply omap_app. Qed.

Lemma dropper_event_mono (names names' : list string) (e : Event) :
  names ⊆ names' → dropper_event names e → dropper_event names' e.
Proof. intros Hsub. destruct e; cbn; try done; apply Hsub. Qed.

Lemma logger_dropper_event (names : list string) (e : Event) :
  is_logger e → dropper_event names e.
Proof. by destruct e. Qed.

(** The completions: nothing but logs, then [next] with no error. *)
Lemma drop_completions_outcome (n last counter : nat) (pending : list string)
    (next : Callback) (w : World) :
  n = length pending →
  counter + length pending = last →
  counter < last →
  ∃ t,
    drop_completions env n last counter pending next w =
    next None {| trace := trace w ++ t;
                 dataToWrite := dataToWrite w;
                 metadata := metadata w;
                 prototype := prototype w |}
    ∧ Forall is_logger t.
Proof.
  revert counter pending w.
  induction n as [|n IH]; intros counter pending w Hn Hsum Hlt; [lia|].
  cbn [drop_completions].
  set (i := drop_order env (trace w) `mod` length pending).
  assert (i < length pending) as Hi by (apply Nat.mod_upper_bound; lia).
  destruct (lookup_lt_is_Some_2 pending i Hi) as [collection Hc]. rewrite Hc.
  set (err := reply_err env (trace w) (CollectionDrop collection)).
  assert (length (delete i pending) = n) as Hlen.
  { rewrite length_delete by eauto. lia. }
  assert (Forall is_logger (log_events err)) as Hlogs.
  { destruct err; cbn; [|done]. by constructor. }
  destruct (decide (last = S counter)) as [Hlast|Hmore].
  - rewrite and_then_returns.
    + exists (log_events err). split; [|done]. by rewrite error_world.
    + intros w'. assert (n = 0) as -> by lia. done.
  - destruct (IH (S counter) (delete i pending) (error err w)) as (t & Heq & Hall);
      [done|lia|lia|].
    exists (log_events err ++ t). split; [|by apply Forall_app].
    rewrite Heq, trace_error, dataToWrite_error, metadata_error, prototype_error.
    by rewrite <- app_assoc.
Qed.

(** The [forEach] and the completions after it, whatever [db.collection]
    answers: [next] receives an error only if no drop was requested. *)
Lemma forEach_collection_outcome (last : nat) (collections : list string)
    (counter : nat) (pending : list string) (next : Callback) (w : World) :
  handles_delivered env →
  counter + length pending + length collections = last →
  counter < last →
  ∃ err t,
    forEach_collection env last collections counter pending next
      (fun c p => drop_completions env (length p) last c p next) w =
    next err {| trace := trace w ++ t;
                dataToWrite := dataToWrite w;
                metadata := metadata w;
                prototype := prototype w |}
    ∧ collection_requests t = collections
    ∧ Forall (dropper_event collections) t
    ∧ (is_Some err → pending = [] ∧ drop_requests t = []).
Proof.
  intros Hh. revert counter pending w.
  induction collections as [|collection rest IH]; intros counter pending w Hsum Hlt.
  - cbn [forEach_collection]. cbn in Hsum.
    destruct (drop_completions_outcome (length pending) last counter pending next w)
      as (t & Heq & Hall); [done|lia|done|].
    exists None, t. split; [done|]. destruct (logs_no_requests t Hall) as [Hc Hd].
    split; [done|]. split.
    + eapply Forall_impl; [exact Hall|]. intros e. apply logger_dropper_event.
    + by intros [? ?].
  - cbn [forEach_collection request]. cbn [length] in Hsum. rewrite Hh.
    set (b := [DbCollection collection; select_line collection]).
    assert (∀ w0, trace (logger (LogString ("select collection " +:+ collection))
                           (emit (DbCollection collection) w0)) = trace w0 ++ b) as Hb.
    { intros w0. cbn. by rewrite <- app_assoc. }
    assert (Forall (dropper_event (collection :: rest)) b) as Hball.
    { repeat constructor. }
    assert (rest ⊆ collection :: rest) as Hsub by (intros x Hx; by apply list_elem_of_further).
    destruct (reply_err env (trace w) (DbCollection collection)) as [e|].
    + destruct (decide (last = S counter)) as [Hlast|Hmore].
      * assert (rest = []) as -> by (destruct rest; [done|cbn in Hsum; lia]).
        assert (pending = []) as -> by (destruct pending; [done|cbn in Hsum; lia]).
        rewrite and_then_returns; [|done].
        exists (Some e), b. split; [|done].
        f_equal. unfold logger, emit. cbn. by rewrite <- app_assoc.
      * destruct (IH (S counter) pending
                    (error (Some e) (logger (LogString ("select collection " +:+ collection))
                                            (emit (DbCollection collection) w))))
          as (err & t & Heq & Hreq & Hall & Herr); [lia|lia|].
        exists err, (b ++ LoggerCall (err_message e) :: t).
        split; [|split; [|split]].
        -- rewrite Heq. f_equal. unfold error, logger, emit. cbn.
           by rewrite <- !app_assoc.
        -- rewrite collection_requests_app.
           change (LoggerCall (err_message e) :: t) with ([LoggerCall (err_message e)] ++ t).
           rewrite collection_requests_app, Hreq. done.
        -- apply Forall_app. split; [done|]. constructor; [done|].
           eapply Forall_impl; [exact Hall|]. intros x. by apply dropper_event_mono.
        -- intros Hsome. destruct (Herr Hsome) as [-> Hd]. split; [done|].
           rewrite drop_requests_app.
           change (LoggerCall (err_message e) :: t) with ([LoggerCall (err_message e)] ++ t).
           by rewrite drop_requests_app, Hd.
    + destruct (IH counter (pending ++ [collection])
                  (emit (CollectionDrop collection)
                     (logger (LogString ("select collection " +:+ collection))
                             (emit (DbCollection collection) w))))
        as (err & t & Heq & Hreq & Hall & Herr); [rewrite length_app; cbn; lia|lia|].
      assert (err = None) as ->.
      { destruct err as [x|]; [|done]. destruct Herr as [Hnil _]; [by eexists|].
        by destruct pending. }
      exists None, (b ++ CollectionDrop collection :: t).
      split; [|split; [|split]].
      * rewrite Heq. f_equal. unfold logger, emit. cbn. by rewrite <- !app_assoc.
      * rewrite collection_requests_app.
        change (CollectionDrop collection :: t) with ([CollectionDrop collection] ++ t).
        rewrite collection_requests_app, Hreq. done.
      * apply Forall_app. split; [done|]. constructor; [cbn; apply list_elem_of_here|].
        eapply Forall_impl; [exact Hall|]. intros x. by apply dropper_event_mono.
      * by intros [? ?].
Qed.

(** The [forEach] when every [db.collection] call succeeds: one drop
    request per collection, all issued before any completion. *)
Lemma forEach_collection_resolved (last : nat) (collections : list string)
    (counter : nat) (pending : list string) (next : Callback)
    (k : nat → list string → World → Outcome) (w : World) :
  handles_delivered env →
  (∀ h name, reply_err env h (DbCollection name) = None) →
  forEach_collection env last collections counter pending next k w =
  k counter (pending ++ collections)
    {| trace := trace w
                ++ flat_map (fun c => [DbCollection c; select_line c; CollectionDrop c])
                            collections;
       dataToWrite := dataToWrite w;
       metadata := metadata w;
       prototype := prototype w |}.
Proof.
  intros Hh Hok. revert pending w.
  induction collections as [|collection rest IH]; intros pending w.
  - cbn. rewrite !app_nil_r. by destruct w.
  - cbn [forEach_collection request]. rewrite Hh, Hok, IH.
    rewrite <- app_assoc. f_equal. unfold logger, emit. cbn.
    by rewrite <- !app_assoc.
Qed.

End DropperTrace.

(** ** Which calls an operation can make *)

Section Frames.

Variable env : Env.
Variable C : Event → Prop.

Lemma Ext_refl (w : World) : Ext C w w.
Proof. exists []. by rewrite app_nil_r. Qed.

Lemma Ext_same (w w' : World) : trace w' = trace w → Ext C w w'.
Proof. intros H. exists []. by rewrite app_nil_r. Qed.

Lemma Ext_trans (w1 w2 w3 : World) : Ext C w1 w2 → Ext C w2 w3 → Ext C w1 w3.
Proof.
  intros (t1 & H1 & Ha1) (t2 & H2 & Ha2). exists (t1 ++ t2).
  split; [by rewrite H2, H1, app_assoc|by apply Forall_app].
Qed.

Lemma Ext_emit (e : Event) (w w' : World) : C e → Ext C w w' → Ext C w (emit e w').
Proof.
  intros He (t & Ht & Ha). exists (t ++ [e]). cbn.
  split; [by rewrite Ht, app_assoc|]. apply Forall_app. split; [done|by constructor].
Qed.

Lemma Ext_error (err : option Err) (w w' : World) :
  (∀ a, C (LoggerCall a)) → Ext C w w' → Ext C w (error err w').
Proof. intros Hlog HE. destruct err; [|done]. by apply Ext_emit. Qed.

Lemma Ext_set_dataToWrite (m : gmap string (list Document)) (w w' : World) :
  Ext C w w' → Ext C w (set_dataToWrite m w').
Proof. by intros (t & Ht & Ha); exists t. Qed.

Lemma Ext_set_metadata (l : list MetadataRecord) (w w' : World) :
  Ext C w w' → Ext C w (set_metadata l w').
Proof. by intros (t & Ht & Ha); exists t. Qed.

Lemma Ext_set_prototype (p : option (list Document)) (w w' : World) :
  Ext C w w' → Ext C w (set_prototype p w').
Proof. by intros (t & Ht & Ha); exists t. Qed.

Lemma Ext_app (w w' : World) (t : list Event) :
  trace w' = trace w ++ t → Forall C t → Ext C w w'.
Proof. intros Ht Ha. by exists t. Qed.

(** Chaining: what an operation reaches from a later world, it reaches
    from an earlier one. *)
Lemma steps_from (w0 w : World) (k : Callback) (o : Outcome) :
  Ext C w0 w → steps (Ext C w) k o → steps (Ext C w0) k o.
Proof.
  intros H0 (w' & HE & Hout). exists w'. split; [by eapply Ext_trans|done].
Qed.

Lemma reaches_from (w0 w : World) (k : Callback) (o : Outcome) :
  Ext C w0 w → reaches (Ext C w) k o → reaches (Ext C w0) k o.
Proof.
  intros H0 (w' & HE & Hout). exists w'. split; [by eapply Ext_trans|done].
Qed.

Lemma steps_to_reaches (w : World) (k : Callback) (o : Outcome) :
  steps (Ext C w) k o → reaches (Ext C w) k o.
Proof. intros (w' & HE & [H|H]); exists w'; eauto. Qed.

Lemma flush_event_for_call (name : string) (e : Event) :
  flush_event_for name e → flush_call e.
Proof. by destruct e. Qed.

Section WriterFrames.

Hypothesis C_flush : ∀ e, flush_call e → C e.

Lemma writeAllInCollection_frame (name : string) (callback : Callback) (w : World) :
  steps (Ext C w) callback (writeAllInCollection env name callback w).
Proof.
  unfold writeAllInCollection.
  destruct (get_array w name) as [slot|];
    [|exists w; split; [apply Ext_refl|right; by eexists]].
  destruct (decide (length (insertOne <$> slot_documents slot) = 0));
    [exists w; split; [apply Ext_refl|left; by eexists]|].
  cbn [request].
  assert (Ext C w (error (reply_err env (trace w) (DbCollection name))
                         (emit (DbCollection name) w))) as HE.
  { apply Ext_error; [intros a; by apply C_flush|].
    apply Ext_emit; [by apply C_flush|apply Ext_refl]. }
  destruct (reply_handle env (trace w) name).
  - eexists. split; [|left; by eexists].
    apply Ext_set_dataToWrite, Ext_emit; [by apply C_flush|done].
  - eexists. split; [exact HE|]. right. by eexists.
Qed.

Lemma addDocument_frame (name : string) (doc : Document) (next : Callback) (w : World) :
  steps (Ext C w) next (writer_addDocument env name doc next w).
Proof.
  destruct (addDocument_outcome env name doc next w)
    as (w' & t & Hout & Htr & Hall & _).
  exists w'. split.
  - exists t. split; [done|]. eapply Forall_impl; [exact Hall|].
    intros e He. by eapply C_flush, flush_event_for_call.
  - destruct Hout as [Hout|Hout]; [by left|right; by eexists].
Qed.

Lemma drain_from_frame (n : nat) (callback : Callback) (w : World) :
  reaches (Ext C w) (fun _ => callback None) (drain_from env n callback w).
Proof.
  revert w. induction n as [|n IH]; intros w.
  - exists w. split; [apply Ext_refl|]. by right; right.
  - simpl. destruct (Object_keys env (trace w) (dataToWrite w)) as [|name rest].
    + exists w. split; [apply Ext_refl|]. left. by exists None.
    + destruct (writeAllInCollection_frame name
                  (fun err w' => drain_from env n callback (error err w')) w)
        as (w1 & HE & [[err Hout]|[ex Hout]]); rewrite Hout.
      * eapply reaches_from; [|apply IH].
        apply Ext_error; [intros a; by apply C_flush|done].
      * exists w1. split; [done|]. right. left. by eexists.
Qed.

End WriterFrames.

Section ListenerFrames.

Variable fuel : nat.
Variable parser : Parser.
Variable sm : bool.

#[local] Abbreviation Lf := (streamListener env parser (writer env fuel) sm).

Lemma addIndices_from_frame (n : nat) (callback : Callback) (w : World) :
  (∀ e, finish_event e → C e) →
  reaches (Ext C w) (fun _ => callback None) (addIndices_from env n callback w).
Proof.
  intros HC. revert w. induction n as [|n IH]; intros w.
  - exists w. split; [apply Ext_refl|]. by right; right.
  - simpl. destruct (decide (length (metadata w) = 0)).
    + exists w. split; [apply Ext_refl|]. left. by exists None.
    + destruct (pop (metadata w)) as [[rest r]|].
      * cbn [request]. eapply reaches_from; [|apply IH].
        apply Ext_error; [intros a; by apply HC|].
        apply Ext_emit; [by apply HC|]. apply Ext_set_metadata, Ext_refl.
      * exists w. split; [apply Ext_refl|]. right. left. by eexists.
Qed.

Lemma onDirectory_frame (directoryName : string) (callback : Callback) (w : World) :
  (∀ e, announce_event e → C e) →
  steps (Ext C w) callback (onDirectory Lf directoryName callback w).
Proof.
  intros HC. cbn. unfold listener_onDirectory.
  destruct (collectionNameForDirectory _) as [name|];
    [|exists w; split; [apply Ext_refl|right; by eexists]].
  destruct (decide (name = metadata_name));
    [exists w; split; [apply Ext_refl|left; by eexists]|].
  cbn. eexists. split; [|left; by eexists].
  apply Ext_emit; [by apply HC|apply Ext_refl].
Qed.

Lemma onFile_frame (name : string) (stream : ReadStream) (callback : Callback) (w : World) :
  (∀ e, onFile_event e → C e) →
  steps (Ext C w) callback (onFile Lf name stream callback w).
Proof.
  intros HC. cbn. unfold listener_onFile.
  assert (∀ e, flush_call e → C e) as HCf.
  { intros e He. apply HC. by destruct e. }
  assert (Ext C w (emit (StreamOn name) w)) as HE1.
  { apply Ext_emit; [by apply HC|apply Ext_refl]. }
  destruct (collectionNameForFiles _) as [collection|];
    [|exists w; split; [apply Ext_refl|right; by eexists]].
  destruct (decide (collection = metadata_name)).
  - destruct (metadataFilenameRegexp _) as [metadataName|];
      [|exists w; split; [apply Ext_refl|right; by eexists]].
    destruct sm; cbn [negb];
      [|exists w; split; [apply Ext_refl|left; by eexists]].
    unfold stream_on.
    destruct stream as [buffers|se];
      [|eexists; split; [exact HE1|]; right; by eexists].
    unfold call_parse. cbn [parse jsonParser].
    destruct (decode env JSON_parse (Buffer_concat buffers)) as [doc|].
    + eexists. split; [|left; by eexists].
      apply Ext_set_metadata, Ext_emit; [by apply HC|done].
    + eexists. split; [|right; by eexists]. apply Ext_emit; [by apply HC|done].
  - unfold stream_on.
    destruct stream as [buffers|se];
      [|eexists; split; [exact HE1|]; right; by eexists].
    unfold call_parse. destruct (parse parser) as [d|];
      [|eexists; split; [exact HE1|]; right; by eexists].
    destruct (decode env d (Buffer_concat buffers)) as [doc|].
    + eapply steps_from; [|by apply addDocument_frame].
      apply Ext_emit; [by apply HC|done].
    + eexists. split; [|right; by eexists]. apply Ext_emit; [by apply HC|done].
Qed.

Lemma finish_frame (callback : Callback) (w : World) :
  (∀ e, finish_event e → C e) →
  reaches (Ext C w) (fun _ => callback None) (finish Lf callback w).
Proof.
  intros HC. cbn. unfold listener_finish. cbn [drain writer addIndices].
  unfold writer_drain, writer_addIndices. cbv zeta.
  assert (∀ e, flush_call e → C e) as HCf.
  { intros e He. apply HC. by destruct e. }
  assert (∀ a, C (LoggerCall a)) as HClog by (intros a; by apply HC).
  destruct (drain_from_frame HCf fuel
              (fun err w1 =>
                 if negb sm then callback None (error err w1)
                 else addIndices_from env fuel
                        (fun err w3 => callback None (error err w3)) (error err w1))
              w) as (w1 & HE1 & [[err Hout]|[[ex Hout]|Hout]]); rewrite Hout.
  - destruct sm; cbn [negb error].
    + destruct (addIndices_from_frame fuel
                  (fun err w3 => callback None (error err w3)) w1 HC)
        as (w2 & HE2 & [[err2 Hout2]|[[ex Hout2]|Hout2]]); rewrite Hout2.
      * exists (error None w2). split; [|left; by exists None].
        cbn. by eapply Ext_trans.
      * exists w2. split; [by eapply Ext_trans|]. right. left. by eexists.
      * exists w2. split; [by eapply Ext_trans|]. by right; right.
    + exists w1. split; [done|]. left. by exists None.
  - exists w1. split; [done|]. right. left. by eexists.
  - exists w1. split; [done|]. by right; right.
Qed.

Lemma extract_entries_frame (entries : list TarEntry) (callback : Callback) (w : World) :
  (∀ e, listener_event e → C e) →
  reaches (Ext C w) (fun _ => callback None) (extract_entries Lf entries callback w).
Proof.
  intros HC.
  assert (∀ e, finish_event e → C e) as HCfin by (intros e He; apply HC; by destruct e).
  assert (∀ e, announce_event e → C e) as HCann by (intros e He; apply HC; by destruct e).
  assert (∀ e, onFile_event e → C e) as HCfile by (intros e He; apply HC; by destruct e).
  revert w. induction entries as [|entry rest IH]; intros w.
  - by apply finish_frame.
  - cbn [extract_entries].
    assert (∀ o, steps (Ext C w) (tar_next (extract_entries Lf rest callback)) o →
                 reaches (Ext C w) (fun _ => callback None) o) as Hnext.
    { intros o (w' & HE & [[err ->]|[ex ->]]).
      - destruct err as [e|]; cbn [tar_next].
        + exists w'. split; [done|]. right. left. by eexists.
        + eapply reaches_from; [exact HE|apply IH].
      - exists w'. split; [done|]. right. left. by eexists. }
    destruct (header_type entry).
    + apply Hnext. by apply onDirectory_frame.
    + apply Hnext. by apply onFile_frame.
    + cbn [tar_next]. apply IH.
Qed.

End ListenerFrames.

End Frames.

(** ** Which calls the sources, the dropper and the session can make *)

Section SourceFrames.

Variable env : Env.
Variable fuel : nat.
Variable parser : Parser.
Variable sm : bool.

#[local] Abbreviation Ls := (streamListener env parser (writer env fuel) sm).

Lemma addCollections_popping_frame (C : Event → Prop) (pending : list string)
    (callback : Callback) (w : World) :
  (∀ e, announce_event e → C e) →
  steps (Ext C w) callback (addCollections_popping Ls pending callback w).
Proof.
  intros HC. revert w. induction pending as [|name rest IH]; intros w.
  - exists w. split; [apply Ext_refl|]. left. by eexists.
  - cbn [addCollections_popping].
    destruct (onDirectory_frame env C fuel parser sm name
                (fun err w' => addCollections_popping Ls rest callback (error err w')) w HC)
      as (w1 & HE & [[err Hout]|[ex Hout]]); rewrite Hout.
    + eapply steps_from; [|apply IH].
      apply Ext_error; [intros a; by apply HC|done].
    + exists w1. split; [done|]. right. by eexists.
Qed.

Lemma addFiles_popping_frame (C : Event → Prop) (pending : list string)
    (callback : Callback) (w : World) :
  (∀ e, onFile_event e → C e) →
  (∀ p, C (FsCreateReadStream p)) →
  steps (Ext C w) callback (addFiles_popping env Ls pending callback w).
Proof.
  intros HC Hopen. revert w. induction pending as [|name rest IH]; intros w.
  - exists w. split; [apply Ext_refl|]. left. by eexists.
  - cbn [addFiles_popping].
    destruct (onFile_frame env C fuel parser sm name
                (createReadStream env (trace w) name)
                (fun err w' => addFiles_popping env Ls rest callback (error err w'))
                (emit (FsCreateReadStream name) w) HC)
      as (w1 & HE & [[err Hout]|[ex Hout]]); rewrite Hout.
    + eapply steps_from; [|apply IH].
      apply Ext_error; [intros a; by apply HC|].
      eapply Ext_trans; [|exact HE]. apply Ext_emit; [done|apply Ext_refl].
    + exists w1. split; [|right; by eexists].
      eapply Ext_trans; [|exact HE]. apply Ext_emit; [done|apply Ext_refl].
Qed.

Lemma readdir_each_frame (C : Event → Prop) (Q : Outcome → Prop) (w0 : World)
    (dbRootDir : string) (dirnames : list string)
    (k : list (list string) → World → Outcome) (w : World) :
  (∀ p, C (FsReaddirSync p)) →
  Ext C w0 w →
  (∀ arrays w', Ext C w0 w' → Q (k arrays w')) →
  (∀ w', Ext C w0 w' → Q (Thrown FsError w')) →
  Q (readdir_each env dbRootDir dirnames k w).
Proof.
  intros HC. revert k w. induction dirnames as [|dirname rest IH]; intros k w HE Hk Hthrow.
  - by apply Hk.
  - cbn [readdir_each]. unfold fs_readdirSync.
    assert (Ext C w0 (emit (FsReaddirSync (path_join dbRootDir dirname)) w)) as HE1.
    { by apply Ext_emit. }
    destruct (readdirSync env (trace w) (path_join dbRootDir dirname)) as [filenames|].
    + apply IH; [done| |done]. intros arrays w' HE'. by apply Hk.
    + by apply Hthrow.
Qed.

(** The file-system source in two phases: first the listings and the
    announcements of the collections, then the blobs and the finish. *)
Lemma fileSystemDataSource_begin_phases (C1 C2 : Event → Prop) (rootDir : string)
    (callback : Callback) (w : World) :
  (∀ e, directory_phase_event e → C1 e) →
  (∀ e, file_phase_event e → C2 e) →
  ∃ w1 w2,
    Ext C1 w w1 ∧ Ext C2 w1 w2
    ∧ ((∃ err, fileSystemDataSource_begin env rootDir Ls callback w = callback err w2)
       ∨ (∃ ex, fileSystemDataSource_begin env rootDir Ls callback w = Thrown ex w2)
       ∨ fileSystemDataSource_begin env rootDir Ls callback w = Diverged w2).
Proof.
  intros HC1 HC2.
  assert (∀ e, announce_event e → C1 e) as HCann by (intros e He; apply HC1; by destruct e).
  assert (∀ a, C1 (LoggerCall a)) as HC1log by (intros a; by apply HC1).
  assert (∀ p, C1 (FsReaddirSync p)) as HC1dir by (intros p; by apply HC1).
  assert (∀ e, onFile_event e → C2 e) as HCfile by (intros e He; apply HC2; by destruct e).
  assert (∀ e, finish_event e → C2 e) as HCfin by (intros e He; apply HC2; by destruct e).
  assert (∀ a, C2 (LoggerCall a)) as HC2log by (intros a; by apply HC2).
  assert (∀ p, C2 (FsReaddirSync p)) as HC2dir by (intros p; by apply HC2).
  assert (∀ p, C2 (FsCreateReadStream p)) as HC2open by (intros p; by apply HC2).
  unfold fileSystemDataSource_begin, fs_readdirSync.
  assert (Ext C1 w (emit (FsReaddirSync rootDir) w)) as HE1.
  { apply Ext_emit; [done|apply Ext_refl]. }
  destruct (readdirSync env (trace w) rootDir) as [dirs|];
    [|eexists _, _; split; [exact HE1|]; split; [apply Ext_refl|]; right; left; by eexists].
  destruct (decide (length dirs ≠ 1));
    [eexists _, _; split; [exact HE1|]; split; [apply Ext_refl|]; left; by eexists|].
  destruct (dirs !! 0) as [dir0|];
    [|eexists _, _; split; [exact HE1|]; split; [apply Ext_refl|]; right; left; by eexists].
  set (dbRootDir := path_join rootDir dir0).
  assert (Ext C1 w (emit (FsReaddirSync dbRootDir) (emit (FsReaddirSync rootDir) w))) as HE2.
  { by apply Ext_emit. }
  cbn [trace emit].
  destruct (readdirSync env (trace w ++ [FsReaddirSync rootDir]) dbRootDir) as [names|];
    [|eexists _, _; split; [exact HE2|]; split; [apply Ext_refl|]; right; left; by eexists].
  unfold addCollections.
  match goal with
  | |- context [addCollections_popping _ ?p ?k ?w0] =>
      destruct (addCollections_popping_frame C1 p k w0 HCann)
        as (w1 & HE3 & [[err Hout]|[ex Hout]]); rewrite Hout
  end;
    [|eexists w1, w1; split; [by eapply Ext_trans|]; split; [apply Ext_refl|];
      right; left; by eexists].
  exists (error err w1).
  assert (Ext C1 w (error err w1)) as HE4.
  { apply Ext_error; [done|]. by eapply Ext_trans. }
  set (v := error err w1) in *.
  assert (Ext C2 v (emit (FsReaddirSync dbRootDir) v)) as HE5.
  { apply Ext_emit; [done|apply Ext_refl]. }
  cut (∃ w2, Ext C2 v w2
             ∧ ((∃ err0, match readdirSync env (trace v) dbRootDir with
                         | Some dirnames =>
                             readdir_each env dbRootDir dirnames
                               (fun directoryArrays =>
                                  addFiles env Ls (List.concat directoryArrays)
                                    (fun err1 w3 => finish Ls callback (error err1 w3)))
                               (emit (FsReaddirSync dbRootDir) v)
                         | None => Thrown FsError (emit (FsReaddirSync dbRootDir) v)
                         end = callback err0 w2)
                ∨ (∃ ex, match readdirSync env (trace v) dbRootDir with
                         | Some dirnames =>
                             readdir_each env dbRootDir dirnames
                               (fun directoryArrays =>
                                  addFiles env Ls (List.concat directoryArrays)
                                    (fun err1 w3 => finish Ls callback (error err1 w3)))
                               (emit (FsReaddirSync dbRootDir) v)
                         | None => Thrown FsError (emit (FsReaddirSync dbRootDir) v)
                         end = Thrown ex w2)
                ∨ match readdirSync env (trace v) dbRootDir with
                  | Some dirnames =>
                      readdir_each env dbRootDir dirnames
                        (fun directoryArrays =>
                           addFiles env Ls (List.concat directoryArrays)
                             (fun err1 w3 => finish Ls callback (error err1 w3)))
                        (emit (FsReaddirSync dbRootDir) v)
                  | None => Thrown FsError (emit (FsReaddirSync dbRootDir) v)
                  end = Diverged w2)).
  { intros (w2 & HE6 & Hout2). exists w2. by split; [|split]. }
  destruct (readdirSync env (trace v) dbRootDir) as [dirnames|];
    [|eexists; split; [exact HE5|]; right; left; by eexists].
  apply (readdir_each_frame C2
           (fun o => ∃ w2, Ext C2 v w2
                           ∧ ((∃ err0, o = callback err0 w2)
                              ∨ (∃ ex, o = Thrown ex w2) ∨ o = Diverged w2))
           v); [done|done| |].
  - intros arrays w' HE'. unfold addFiles.
    match goal with
    | |- context [addFiles_popping _ _ ?p ?k ?w0] =>
        destruct (addFiles_popping_frame C2 p k w0 HCfile HC2open)
          as (w3 & HE6 & [[err3 Hout3]|[ex Hout3]]); rewrite Hout3
    end.
    + destruct (finish_frame env C2 fuel parser sm callback (error err3 w3) HCfin)
        as (w4 & HE7 & [[err4 Hout4]|[[ex Hout4]|Hout4]]); rewrite Hout4.
      * exists w4. split; [|left; by exists None].
        eapply Ext_trans; [|exact HE7]. apply Ext_error; [done|]. by eapply Ext_trans.
      * exists w4. split; [|right; left; by eexists].
        eapply Ext_trans; [|exact HE7]. apply Ext_error; [done|]. by eapply Ext_trans.
      * exists w4. split; [|by right; right].
        eapply Ext_trans; [|exact HE7]. apply Ext_error; [done|]. by eapply Ext_trans.
    + exists w3. split; [by eapply Ext_trans|]. right. left. by eexists.
  - intros w' HE'. exists w'. split; [done|]. right. left. by eexists.
Qed.

Lemma directory_file_phase (e : Event) :
  directory_phase_event e ∨ file_phase_event e ↔
  listener_event e ∨ (∃ p, e = FsReaddirSync p) ∨ (∃ p, e = FsCreateReadStream p).
Proof.
  destruct e; cbn; split; intros H; try tauto; try (right; eauto; fail);
    try (destruct H as [[]|[[? ?]|[? ?]]]; done); eauto.
Qed.

Lemma fileSystemDataSource_begin_frame (C : Event → Prop) (rootDir : string)
    (callback : Callback) (w : World) :
  (∀ e, listener_event e → C e) →
  (∀ p, C (FsReaddirSync p)) →
  (∀ p, C (FsCreateReadStream p)) →
  reaches (Ext C w) callback (fileSystemDataSource_begin env rootDir Ls callback w).
Proof.
  intros HC Hdir Hopen.
  destruct (fileSystemDataSource_begin_phases C C rootDir callback w)
    as (w1 & w2 & HE1 & HE2 & Hout).
  - intros e He. destruct e; try done; by apply HC.
  - intros e He. destruct e; try done; by apply HC.
  - exists w2. split; [by eapply Ext_trans|done].
Qed.

End SourceFrames.

Section SessionFrames.

Variable env : Env.
Variable fuel : nat.

Lemma forEach_collection_frame (C : Event → Prop) (names : list string)
    (last : nat) (collections : list string) (counter : nat) (pending : list string)
    (next : Callback) (w : World) :
  (∀ e, dropper_event names e → C e) →
  collections ⊆ names →
  counter + length pending + length collections = last →
  counter < last →
  steps (Ext C w) next
    (forEach_collection env last collections counter pending next
       (fun c p => drop_completions env (length p) last c p next) w).
Proof.
  intros HC. revert counter pending w.
  assert (∀ a, C (LoggerCall a)) as HClog by (intros a; by apply HC).
  induction collections as [|collection rest IH]; intros counter pending w Hsub Hsum Hlt.
  - cbn [forEach_collection]. cbn in Hsum.
    destruct (drop_completions_outcome env (length pending) last counter pending next w)
      as (t & Heq & Hall); [done|lia|done|].
    eexists. split; [|left; by eexists]. exists t. split; [done|].
    eapply Forall_impl; [exact Hall|]. intros e He. by destruct e.
  - cbn [forEach_collection request]. cbn [length] in Hsum.
    assert (collection ∈ names) as Hin by (apply Hsub, list_elem_of_here).
    assert (rest ⊆ names) as Hrest.
    { intros x Hx. by apply Hsub, list_elem_of_further. }
    assert (Ext C w (emit (DbCollection collection) w)) as HE1.
    { apply Ext_emit; [by apply HC|apply Ext_refl]. }
    destruct (reply_handle env (trace w) collection);
      [|eexists; split; [exact HE1|]; right; by eexists].
    assert (Ext C w (logger (LogString ("select collection " +:+ collection))
                            (emit (DbCollection collection) w))) as HE2.
    { by apply Ext_emit. }
    destruct (reply_err env (trace w) (DbCollection collection)) as [e|].
    + destruct (decide (last = S counter)) as [Hlast|Hmore].
      * assert (rest = []) as -> by (destruct rest; [done|cbn in Hsum; lia]).
        assert (pending = []) as -> by (destruct pending; [done|cbn in Hsum; lia]).
        rewrite and_then_returns; [|done].
        eexists. split; [exact HE2|]. left. by eexists.
      * eapply steps_from; [|apply IH; [done|lia|lia]].
        apply Ext_error; [done|exact HE2].
    + eapply steps_from; [|apply IH; [done|rewrite length_app; cbn; lia|lia]].
      apply Ext_emit; [by apply HC|exact HE2].
Qed.

Lemma someCollections_frame (C : Event → Prop) (names : list string)
    (next : Callback) (w : World) :
  (∀ e, dropper_event names e → C e) →
  steps (Ext C w) next (someCollections env names next w).
Proof.
  intros HC. unfold someCollections.
  destruct (decide (length names = 0));
    [exists w; split; [apply Ext_refl|left; by eexists]|].
  eapply forEach_collection_frame; [exact HC|done|cbn; lia|lia].
Qed.

Variable my : Options.

Lemma dropper_event_array (names : list string) (e : Event) :
  my_drop my = false → my_dropCollections my = DropArray names →
  dropper_event names e → run_call my e.
Proof.
  intros Hd Hn. destruct e; cbn; try done; unfold droppable; rewrite Hn; by intros.
Qed.

Lemma dropper_event_listed (collections : list string) (e : Event) :
  my_drop my = false → my_dropCollections my = DropTruthy →
  dropper_event (filter (fun name => systemRegex name = false) collections) e →
  run_call my e.
Proof.
  intros Hd Hn. destruct e; cbn; try done; unfold droppable; rewrite Hn.
  intros [Hs _]%list_elem_of_filter. done.
Qed.

Lemma listener_run_call (e : Event) : listener_event e → run_call my e.
Proof. by destruct e. Qed.

(** The session around a source that makes only calls of the run. *)
Lemma go_frame (parser : Parser) (datasource : DataSource) (w : World) :
  (∀ callback w0,
     reaches (Ext (run_call my) w0) callback
       (datasource (streamListener env parser (writer env fuel) (my_metadata my))
                   callback w0)) →
  ∃ w',
    Ext (run_call my) w w'
    ∧ ((∃ err, go env fuel my parser datasource w = closing my err w')
       ∨ (∃ e, go env fuel my parser datasource w = latest_callback my (Some e) w'
               ∧ trace w' = trace w ++ [MongoConnect (my_uri my);
                                        LoggerCall (LogString "db open")]
               ∧ reply_err env (trace w) (MongoConnect (my_uri my)) = Some e)
       ∨ (∃ ex, go env fuel my parser datasource w = Thrown ex w')
       ∨ go env fuel my parser datasource w = Diverged w').
Proof.
  intros Hsource.
  assert (∀ err w0, reaches (Ext (run_call my) w0) (closing my)
                      (importDataToDb env fuel my parser datasource err w0)) as Himport.
  { intros err w0. unfold importDataToDb. destruct err as [e|].
    - exists w0. split; [apply Ext_refl|]. left. by exists (Some e).
    - eapply reaches_from; [|apply Hsource].
      apply Ext_set_prototype, Ext_set_metadata, Ext_set_dataToWrite, Ext_refl. }
  assert (∀ w0 o, Ext (run_call my) w w0 → reaches (Ext (run_call my) w0) (closing my) o →
            ∃ w', Ext (run_call my) w w'
                  ∧ ((∃ err, o = closing my err w')
                     ∨ (∃ e, o = latest_callback my (Some e) w'
                             ∧ trace w' = trace w ++ [MongoConnect (my_uri my);
                                                      LoggerCall (LogString "db open")]
                             ∧ reply_err env (trace w) (MongoConnect (my_uri my)) = Some e)
                     ∨ (∃ ex, o = Thrown ex w') ∨ o = Diverged w')) as Hfin.
  { intros w0 o HE (w' & HE' & Hout). exists w'. split; [by eapply Ext_trans|].
    destruct Hout as [H|[H|H]]; eauto. }
  unfold go. cbn [request].
  set (w2 := logger (LogString "db open") (emit (MongoConnect (my_uri my)) w)).
  assert (Ext (run_call my) w w2) as HE2.
  { apply Ext_emit; [done|]. apply Ext_emit; [done|apply Ext_refl]. }
  destruct (reply_err env (trace w) (MongoConnect (my_uri my))) as [e|] eqn:Hconnect.
  { exists w2. split; [done|]. right. left. exists e. split; [done|]. split; [|done].
    cbn. by rewrite <- app_assoc. }
  destruct (my_drop my) eqn:Hdrop.
  - eapply Hfin; [|apply Himport].
    apply Ext_emit; [done|]. by apply Ext_emit.
  - destruct (my_dropCollections my) as [|names|] eqn:Hpolicy.
    + eapply Hfin; [exact HE2|apply Himport].
    + match goal with
      | |- context [someCollections _ ?l ?k ?w0] =>
          destruct (someCollections_frame (run_call my) l k w0)
            as (w6 & HE6 & [[err Hout]|[ex Hout]]);
            [intros e; by apply dropper_event_array|rewrite Hout|rewrite Hout]
      end.
      * eapply Hfin; [|apply Himport].
        eapply Ext_trans; [|exact HE6]. by apply Ext_emit.
      * exists w6. split; [|right; right; left; by eexists].
        eapply Ext_trans; [|exact HE6]. by apply Ext_emit.
    + set (w3 := logger (LogString "drop collections") w2).
      assert (Ext (run_call my) w
                (error (reply_err env (trace w3) DbCollections) (emit DbCollections w3)))
        as HE5.
      { apply Ext_error; [done|]. apply Ext_emit; [done|]. by apply Ext_emit. }
      destruct (reply_names env (trace w3)) as [collections|];
        [|eexists; split; [exact HE5|]; right; right; left; by eexists].
      match goal with
      | |- context [someCollections _ ?l ?k ?w0] =>
          destruct (someCollections_frame (run_call my) l k w0)
            as (w6 & HE6 & [[err Hout]|[ex Hout]]);
            [intros e; by apply dropper_event_listed|rewrite Hout|rewrite Hout]
      end.
      * eapply Hfin; [|apply Himport]. by eapply Ext_trans.
      * exists w6. split; [by eapply Ext_trans|]. right. right. left. by eexists.
Qed.

(** A run: only calls of the run until the connection is closed, or the
    connection failed, or the run is cut short. *)
Lemma wrapper_frame (w : World) :
  ∃ w',
    Ext (run_call my) w w'
    ∧ ((∃ err, wrapper env fuel my w = closing my err w')
       ∨ (∃ e, wrapper env fuel my w = latest_callback my (Some e) w'
               ∧ trace w' = (trace w ++ prelude my)
                            ++ [MongoConnect (my_uri my); LoggerCall (LogString "db open")]
               ∧ reply_err env (trace w ++ prelude my) (MongoConnect (my_uri my)) = Some e)
       ∨ (∃ ex, wrapper env fuel my w = Thrown ex w')
       ∨ wrapper env fuel my w = Diverged w').
Proof.
  unfold wrapper.
  destruct (select_parser (my_parser my)) as [ex|parser];
    [exists w; split; [apply Ext_refl|]; right; right; left; by eexists|].
  set (w1 := match my_logger my with
             | Some _ => logger (LogString "restore start") w
             | None => w
             end).
  assert (Ext (run_call my) w w1) as HE1.
  { unfold w1. destruct (my_logger my); [|apply Ext_refl].
    apply Ext_emit; [done|apply Ext_refl]. }
  assert (∀ datasource w0 o,
            Ext (run_call my) w w0 →
            trace w0 = trace w ++ prelude my →
            (∀ callback w0,
               reaches (Ext (run_call my) w0) callback
                 (datasource (streamListener env parser (writer env fuel) (my_metadata my))
                             callback w0)) →
            o = go env fuel my parser datasource w0 →
            ∃ w', Ext (run_call my) w w'
                  ∧ ((∃ err, o = closing my err w')
                     ∨ (∃ e, o = latest_callback my (Some e) w'
                             ∧ trace w' = (trace w ++ prelude my)
                                          ++ [MongoConnect (my_uri my);
                                              LoggerCall (LogString "db open")]
                             ∧ reply_err env (trace w ++ prelude my)
                                 (MongoConnect (my_uri my)) = Some e)
                     ∨ (∃ ex, o = Thrown ex w') ∨ o = Diverged w')) as Hgo.
  { intros datasource w0 o HE Hw0 Hsource ->.
    destruct (go_frame parser datasource w0 Hsource) as (w' & HE' & Hout).
    exists w'. split; [by eapply Ext_trans|]. rewrite <- Hw0. exact Hout. }
  assert (∀ entries callback w0,
            reaches (Ext (run_call my) w0) callback
              (streamingTarDataSource_begin entries
                 (streamListener env parser (writer env fuel) (my_metadata my))
                 callback w0)) as Hentries.
  { intros entries callback w0. unfold streamingTarDataSource_begin.
    destruct (extract_entries_frame env (run_call my) fuel parser (my_metadata my)
                entries callback w0 listener_run_call)
      as (w' & HE' & [[err Hout]|Hout]).
    - exists w'. split; [done|]. left. by exists None.
    - exists w'. by split; [|right]. }
  assert (trace w1 = trace w ++ match my_logger my with
                                | Some _ => [LoggerCall (LogString "restore start")]
                                | None => []
                                end) as Hw1.
  { unfold w1. destruct (my_logger my); cbn; by rewrite ?app_nil_r. }
  destruct (tar_falsy (my_tar my)) eqn:Htar.
  - eapply Hgo; [exact HE1| | |done].
    + unfold prelude. rewrite Htar, app_nil_r. exact Hw1.
    + intros callback w0. apply fileSystemDataSource_begin_frame.
      * apply listener_run_call.
      * intros p. exact Htar.
      * intros p. by left.
  - destruct (my_stream my) as [tarStream|] eqn:Hstream.
    + eapply Hgo; [exact HE1| |apply Hentries|done].
      unfold prelude. rewrite Htar, Hstream, app_nil_r. exact Hw1.
    + unfold tarDataSource.
      assert (Ext (run_call my) w
                (emit (FsCreateReadStream (tar_path (my_root my) (my_tar my))) w1)) as HE2.
      { apply Ext_emit; [|exact HE1]. right. by split. }
      destruct (createReadStream env (trace w1) (tar_path (my_root my) (my_tar my)))
        as [buffers|e].
      * eapply Hgo; [exact HE2| |apply Hentries|done].
        unfold prelude. rewrite Htar, Hstream. cbn [trace emit].
        by rewrite Hw1, <- app_assoc.
      * eexists. split; [|right; right; left; by eexists].
        by apply Ext_emit.
Qed.

End SessionFrames.

(** ** How a run ends *)

Section RunEndings.

Variable env : Env.
Variable fuel : nat.
Variable my : Options.

Lemma latest_callback_trace (err : option Err) (w : World) :
  ∃ w', latest_callback my err w = Returned w'
        ∧ trace w' = trace w ++ final_events my err.
Proof.
  unfold latest_callback, final_events. destruct (my_callback my).
  - eexists. split; [done|]. cbn. by rewrite <- !app_assoc.
  - destruct err as [e|]; eexists; (split; [done|]); cbn; by rewrite <- ?app_assoc.
Qed.

Lemma closing_trace (err : option Err) (w : World) :
  ∃ w', closing my err w = Returned w'
        ∧ trace w' = trace w ++ close_events ++ final_events my err.
Proof.
  unfold closing.
  destruct (latest_callback_trace err (emit DbClose (logger (LogString "db close") w)))
    as (w' & Heq & Htr).
  exists w'. split; [done|]. rewrite Htr. cbn. by rewrite <- !app_assoc.
Qed.

(** A run makes calls of the run and then ends in one of four ways: it
    closes the connection and runs the last callback; the connection
    failed and it runs the last callback with the error; it throws; or
    the bound of the model is exhausted. *)
Lemma wrapper_shape (w : World) :
  ∃ t,
    Forall (run_call my) t
    ∧ ((∃ err w', wrapper env fuel my w = Returned w'
                  ∧ trace w' = trace w ++ t ++ close_events ++ final_events my err)
       ∨ (∃ e w', wrapper env fuel my w = Returned w'
                  ∧ t = prelude my ++ [MongoConnect (my_uri my);
                                       LoggerCall (LogString "db open")]
                  ∧ reply_err env (trace w ++ prelude my) (MongoConnect (my_uri my))
                    = Some e
                  ∧ trace w' = trace w ++ t ++ final_events my (Some e))
       ∨ (∃ ex w', wrapper env fuel my w = Thrown ex w' ∧ trace w' = trace w ++ t)
       ∨ (∃ w', wrapper env fuel my w = Diverged w' ∧ trace w' = trace w ++ t)).
Proof.
  destruct (wrapper_frame env fuel my w) as (w1 & (t & Ht & Hall) & Hout).
  exists t. split; [done|].
  destruct Hout as [[err Hout]|[(e & Hout & Hw1 & Hconnect)|[[ex Hout]|Hout]]].
  - left. destruct (closing_trace err w1) as (w' & Heq & Htr).
    exists err, w'. split; [congruence|]. by rewrite Htr, Ht, <- app_assoc.
  - right. left. destruct (latest_callback_trace (Some e) w1) as (w' & Heq & Htr).
    exists e, w'. split; [congruence|]. split; [|split; [done|]].
    + rewrite Ht, <- app_assoc in Hw1. by apply app_inv_head in Hw1.
    + by rewrite Htr, Ht, <- app_assoc.
  - right. right. left. by exists ex, w1.
  - right. right. right. by exists w1.
Qed.

Lemma final_events_calls (err : option Err) :
  Forall (fun e => is_logger e ∨ e = UserCallback err) (final_events my err).
Proof.
  unfold final_events. destruct (my_callback my); [|destruct err];
    repeat constructor; by (left + right).
Qed.

(** Every call of a run is a call of the run, the closing of the
    connection, or the user's callback. *)
Lemma wrapper_calls :
  Forall (fun e => run_call my e ∨ e = DbClose ∨ ∃ err, e = UserCallback err)
         (trace (world_of (wrapper env fuel my initial_world))).
Proof.
  assert (∀ t, Forall (run_call my) t →
               Forall (fun e => run_call my e ∨ e = DbClose ∨ ∃ err, e = UserCallback err) t)
    as Hrun.
  { intros t Ht. eapply Forall_impl; [exact Ht|]. intros e He. by left. }
  assert (∀ err, Forall (fun e => run_call my e ∨ e = DbClose ∨ ∃ err, e = UserCallback err)
                   (final_events my err)) as Hfinal.
  { intros err. eapply Forall_impl; [apply final_events_calls|].
    intros e [He| ->]; [left; by destruct e|right; right; by eexists]. }
  destruct (wrapper_shape initial_world)
    as (t & Hall & [(err & w' & -> & Htr)|[(e & w' & -> & _ & _ & Htr)|[(ex & w' & -> & Htr)
                   |(w' & -> & Htr)]]]);
    cbn [world_of]; rewrite Htr; cbn [trace initial_world app].
  - apply Forall_app. split; [by apply Hrun|]. apply Forall_app. split; [|apply Hfinal].
    constructor; [by left|]. constructor; [right; by left|]. constructor.
  - apply Forall_app. split; [by apply Hrun|apply Hfinal].
  - by apply Hrun.
  - by apply Hrun.
Qed.

(** A run whose parser option is valid is a session over some source,
    started after the prelude. *)
Lemma wrapper_go (parser : Parser) :
  select_parser (my_parser my) = inr parser →
  archive_readable env my →
  ∃ datasource w0,
    wrapper env fuel my initial_world = go env fuel my parser datasource w0
    ∧ trace w0 = prelude my.
Proof.
  intros Hp Hread. unfold wrapper, prelude. rewrite Hp.
  destruct (tar_falsy (my_tar my)) eqn:Htar.
  - eexists _, _. split; [done|]. destruct (my_logger my); cbn; by rewrite ?app_nil_r.
  - destruct (my_stream my) eqn:Hstream.
    + eexists _, _. split; [done|]. destruct (my_logger my); cbn; by rewrite ?app_nil_r.
    + unfold tarDataSource. destruct (Hread Htar Hstream) as [buffers Hb].
      unfold log_start in Hb.
      assert (trace match my_logger my with
                    | Some _ => logger (LogString "restore start") initial_world
                    | None => initial_world
                    end
              = match my_logger my with
                | Some _ => [LoggerCall (LogString "restore start")]
                | None => []
                end) as Htr by (by destruct (my_logger my)).
      rewrite Htr, Hb. eexists _, _. split; [done|]. cbn [trace emit]. by rewrite Htr.
Qed.

End RunEndings.

(** ** The documents of an archive, from the entries to the database *)

Section ArchiveFacts.

Variable env : Env.
Variable fuel : nat.
Variable parser : Parser.
Variable sm : bool.

Hypothesis handles : handles_delivered env.

#[local] Abbreviation La := (streamListener env parser (writer env fuel) sm).

Lemma sent_emit (n : string) (e : Event) (w : World) :
  sent n [e] = [] → sent n (trace (emit e w)) = sent n (trace w).
Proof. intros He. cbn [trace emit]. by rewrite sent_app, He, app_nil_r. Qed.

Lemma sent_no_writes (n : string) (t : list Event) :
  Forall (fun e => is_createIndexes e ∨ is_logger e) t → sent n t = [].
Proof.
  induction 1 as [|e t He _ IH]; [done|].
  change (e :: t) with ([e] ++ t). rewrite sent_app, IH, app_nil_r.
  destruct e; try done; by destruct He.
Qed.

(** [addDocument] with collection objects at hand: it calls back; the
    buffers stay non-empty and at most one key is added. *)
Lemma addDocument_step (name : string) (doc : Document) (next : Callback) (w : World) :
  plain w name →
  buffers_nonempty w →
  ∃ err w',
    writer_addDocument env name doc next w = next err w'
    ∧ buffers_nonempty w'
    ∧ size (dataToWrite w') ≤ S (size (dataToWrite w))
    ∧ metadata w' = metadata w
    ∧ prototype w' = prototype w
    ∧ ∀ n, sent n (trace w') ++ pending w' n =
           sent n (trace w) ++ pending w n ++ (if decide (n = name) then [doc] else []).
Proof.
  intros Hplain Hne.
  destruct (decide (50 < length (pending w name ++ [doc]))) as [Hgt|Hle].
  - eexists _, _. split; [by apply addDocument_above|].
    split; [|split; [|split; [done|split; [done|]]]].
    + intros k docs. cbn. intros [_ Hk]%lookup_delete_Some. by eapply Hne.
    + cbn. rewrite map_size_delete. destruct (dataToWrite w !! name); cbn; lia.
    + intros n. rewrite sent_flushed, pending_flushed.
      destruct (decide (n = name)) as [->|Hneq]; by rewrite ?app_nil_r.
  - eexists None, _. split; [apply addDocument_below; [done|lia]|].
    split; [|split; [|split; [done|split; [done|]]]].
    + intros k docs. cbn. destruct (decide (k = name)) as [->|Hneq].
      * rewrite lookup_insert_eq. intros [= <-]. by destruct (pending w name).
      * rewrite lookup_insert_ne by done. apply Hne.
    + cbn. rewrite map_size_insert. destruct (dataToWrite w !! name); cbn; lia.
    + intros n. rewrite pending_insert. cbn [trace set_dataToWrite].
      destruct (decide (n = name)) as [->|Hneq]; by rewrite ?app_nil_r.
Qed.

(** One blob: whether [onFile] calls back or throws, what was sent or is
    pending has grown by the document of the blob. *)
Lemma onFile_conserves (path : string) (stream : ReadStream) (callback : Callback)
    (w : World) :
  prototype w = None →
  collectionNameForFiles (replace_backslashes path) ≠ Some proto_name →
  buffers_nonempty w →
  ∃ w',
    ((∃ err, onFile La path stream callback w = callback err w')
     ∨ (∃ ex, onFile La path stream callback w = Thrown ex w'))
    ∧ prototype w' = None
    ∧ buffers_nonempty w'
    ∧ size (dataToWrite w') ≤ S (size (dataToWrite w))
    ∧ length (metadata w') ≤ S (length (metadata w))
    ∧ ∀ n, sent n (trace w') ++ pending w' n =
           sent n (trace w) ++ pending w n ++ file_document env parser n path stream.
Proof.
  intros Hproto Hnoproto Hne. cbn. unfold listener_onFile, file_document.
  assert (∀ (o : Outcome) (ex : Exception) (docs : string → list Document),
            o = Thrown ex w → (∀ n, docs n = []) →
            ∃ w', ((∃ err, o = callback err w') ∨ (∃ ex, o = Thrown ex w'))
                  ∧ prototype w' = None
                  ∧ buffers_nonempty w'
                  ∧ size (dataToWrite w') ≤ S (size (dataToWrite w))
                  ∧ length (metadata w') ≤ S (length (metadata w))
                  ∧ ∀ n, sent n (trace w') ++ pending w' n =
                         sent n (trace w) ++ pending w n ++ docs n) as Hstay.
  { intros o ex docs -> Hdocs. exists w. split; [right; by eexists|].
    split; [done|]. split; [done|]. split; [lia|]. split; [lia|]. intros n.
    by rewrite Hdocs, app_nil_r. }
  assert (∀ (o : Outcome) (e : Event) (ex : Exception) (docs : string → list Document),
            o = Thrown ex (emit e w) → (∀ n, sent n [e] = []) → (∀ n, docs n = []) →
            ∃ w', ((∃ err, o = callback err w') ∨ (∃ ex, o = Thrown ex w'))
                  ∧ prototype w' = None
                  ∧ buffers_nonempty w'
                  ∧ size (dataToWrite w') ≤ S (size (dataToWrite w))
                  ∧ length (metadata w') ≤ S (length (metadata w))
                  ∧ ∀ n, sent n (trace w') ++ pending w' n =
                         sent n (trace w) ++ pending w n ++ docs n) as Hthrow1.
  { intros o e ex docs -> He Hdocs. exists (emit e w). split; [right; by eexists|].
    split; [done|]. split; [done|]. split; [cbn; lia|]. split; [cbn; lia|]. intros n.
    by rewrite sent_emit, Hdocs, app_nil_r. }
  destruct (collectionNameForFiles (replace_backslashes path)) as [collection|];
    [|by eapply Hstay].
  destruct (decide (collection = metadata_name)) as [Hmeta|Hcoll].
  - assert (∀ n (l : list Document),
              (if decide (collection = n ∧ collection ≠ metadata_name) then l else []) = [])
      as Hnone.
    { intros n l. destruct (decide _) as [[_ ?]|]; done. }
    destruct (metadataFilenameRegexp (replace_backslashes path)) as [metadataName|].
    2:{ eapply Hstay; [done|]. intros n. cbn.
        destruct stream, (parse parser); try done; apply Hnone. }
    destruct sm; cbn [negb].
    2:{ exists w. split; [left; by eexists|]. split; [done|]. split; [done|].
        split; [lia|]. split; [lia|]. intros n. destruct stream, (parse parser); rewrite ?Hnone;
          by rewrite app_nil_r. }
    unfold stream_on. destruct stream as [buffers|se].
    2:{ eapply Hthrow1; [done|done|]. intros n. by destruct (parse parser). }
    unfold call_parse. cbn [parse jsonParser].
    destruct (decode env JSON_parse (Buffer_concat buffers)) as [doc|].
    + eexists. split; [left; by eexists|]. split; [done|]. split; [done|].
      split; [cbn; lia|].
      split; [cbn; rewrite length_app; cbn; lia|]. intros n.
      cbn [trace set_metadata emit]. rewrite !sent_app. cbn.
      unfold pending. cbn. rewrite !app_nil_r.
      destruct (parse parser); rewrite ?Hnone; by rewrite app_nil_r.
    + eexists. split; [right; by eexists|]. split; [done|]. split; [done|].
      split; [cbn; lia|].
      split; [cbn; lia|]. intros n.
      cbn [trace emit]. rewrite !sent_app. cbn.
      unfold pending. cbn. rewrite !app_nil_r.
      destruct (parse parser); rewrite ?Hnone; by rewrite app_nil_r.
  - unfold stream_on. destruct stream as [buffers|se]; [|by eapply Hthrow1].
    unfold call_parse. destruct (parse parser) as [d|]; [|by eapply Hthrow1].
    destruct (decode env d (Buffer_concat buffers)) as [doc|].
    + cbn [addDocument writer].
      destruct (addDocument_step collection doc callback
                  (emit (Parse d (Buffer_concat buffers)) (emit (StreamOn path) w)))
        as (err & w' & Heq & Hne' & Hsize & Hmd & Hpr & Hcons).
      { split; [done|]. intros ->. by apply Hnoproto. }
      { done. }
      exists w'. split; [left; by eexists|]. split; [by rewrite Hpr|].
      split; [done|]. split; [exact Hsize|].
      split; [rewrite Hmd; cbn; lia|]. intros n. rewrite Hcons.
      cbn [trace emit]. rewrite !sent_app. cbn. unfold pending. cbn.
      rewrite !app_nil_r.
      destruct (decide (n = collection)) as [->|Hneq].
      * destruct (decide (collection = collection ∧ collection ≠ metadata_name))
          as [_|Hno]; [done|]. destruct Hno. by split.
      * destruct (decide (collection = n ∧ collection ≠ metadata_name))
          as [[? _]|_]; [by subst|done].
    + eexists. split; [right; by eexists|]. split; [done|]. split; [done|].
      split; [cbn; lia|].
      split; [cbn; lia|]. intros n.
      cbn [trace emit]. rewrite !sent_app. cbn. unfold pending. cbn.
      destruct (decide _); by rewrite ?app_nil_r.
Qed.

(** One directory entry: no document moves. *)
Lemma onDirectory_conserves (path : string) (callback : Callback) (w : World) :
  ∃ w',
    ((∃ err, onDirectory La path callback w = callback err w')
     ∨ (∃ ex, onDirectory La path callback w = Thrown ex w'))
    ∧ dataToWrite w' = dataToWrite w
    ∧ metadata w' = metadata w
    ∧ prototype w' = prototype w
    ∧ ∀ n, sent n (trace w') = sent n (trace w).
Proof.
  cbn. unfold listener_onDirectory.
  destruct (collectionNameForDirectory _) as [name|];
    [|exists w; split; [right; by eexists|done]].
  destruct (decide (name = metadata_name)) as [Hmeta|Hcoll];
    [exists w; split; [left; by eexists|done]|].
  cbn. eexists. split; [left; by eexists|]. split; [done|]. split; [done|].
  split; [done|]. intros k. by apply sent_emit.
Qed.

(** [finish]: everything pending is sent. *)
Lemma finish_sends (callback : Callback) (w : World) :
  buffers_nonempty w →
  size (dataToWrite w) < fuel →
  length (metadata w) < fuel →
  ∃ w',
    finish La callback w = callback None w'
    ∧ dataToWrite w' = ∅
    ∧ ∀ n, sent n (trace w') = sent n (trace w) ++ pending w n.
Proof.
  intros Hne Hsize Hmeta. cbn. unfold listener_finish. cbn [drain writer addIndices].
  unfold writer_drain, writer_addIndices. cbv zeta.
  destruct (drain_from_sends env fuel
              (fun err w1 =>
                 if negb sm then callback None (error err w1)
                 else addIndices_from env fuel
                        (fun err w3 => callback None (error err w3)) (error err w1))
              w Hne Hsize)
    as (w1 & [[Heq Hempty]|[_ (h & name & Hfalse)]] & Hmd & Hcons);
    [|by rewrite handles in Hfalse].
  rewrite Heq. cbn [error].
  assert (∀ n, sent n (trace w1) = sent n (trace w) ++ pending w n) as Hsent.
  { intros n. rewrite <- Hcons. unfold pending. rewrite Hempty, lookup_empty. cbn.
    by rewrite app_nil_r. }
  destruct sm; cbn [negb].
  - match goal with
    | |- context [addIndices_from env fuel ?cb w1] =>
        destruct (addIndices_from_replays env fuel cb w1) as (t2 & Heq2 & _ & Hall & _);
          [by rewrite Hmd|]
    end.
    rewrite Heq2. cbn [error]. eexists. split; [done|]. split; [done|].
    intros n. cbn [trace]. by rewrite sent_app, (sent_no_writes n t2 Hall), app_nil_r.
  - by exists w1.
Qed.

Lemma dump_documents_app (n : string) (l1 l2 : list TarEntry) :
  dump_documents env parser n (l1 ++ l2) =
  dump_documents env parser n l1 ++ dump_documents env parser n l2.
Proof. unfold dump_documents. apply flat_map_app. Qed.

(** The extraction of an archive: it reaches the callback with
    everything sent, or it throws at some entry with everything up to
    that entry sent or pending. *)
Lemma extract_entries_conserves (entries : list TarEntry) (callback : Callback)
    (w : World) :
  prototype w = None →
  no_proto_collection entries →
  buffers_nonempty w →
  size (dataToWrite w) + length entries < fuel →
  length (metadata w) + length entries < fuel →
  (∃ w',
     extract_entries La entries callback w = callback None w'
     ∧ dataToWrite w' = ∅
     ∧ ∀ n, sent n (trace w') =
            sent n (trace w) ++ pending w n ++ dump_documents env parser n entries)
  ∨ (∃ ex w' before rest,
       extract_entries La entries callback w = Thrown ex w'
       ∧ entries = before ++ rest
       ∧ ∀ n, sent n (trace w') ++ pending w' n =
              sent n (trace w) ++ pending w n ++ dump_documents env parser n before).
Proof.
  intros Hproto Hclean. revert w Hproto.
  induction Hclean as [|entry rest Hentry Hclean IH]; intros w Hproto Hne Hsize Hmeta.
  - cbn [extract_entries]. cbn in Hsize, Hmeta.
    destruct (finish_sends callback w) as (w' & Heq & Hempty & Hsent); [done|lia|lia|].
    left. exists w'. split; [done|]. split; [done|]. intros n.
    rewrite Hsent. cbn. by rewrite app_nil_r.
  - cbn [extract_entries]. cbn [length] in Hsize, Hmeta.
    assert (∀ w1 (docs : string → list Document),
              (∀ n, docs n = dump_documents env parser n [entry]) →
              prototype w1 = None →
              buffers_nonempty w1 →
              size (dataToWrite w1) ≤ S (size (dataToWrite w)) →
              length (metadata w1) ≤ S (length (metadata w)) →
              (∀ n, sent n (trace w1) ++ pending w1 n =
                    sent n (trace w) ++ pending w n ++ docs n) →
              ∀ o, ((∃ err, o = tar_next (extract_entries La rest callback) err w1)
                    ∨ (∃ ex, o = Thrown ex w1)) →
              (∃ w',
                 o = callback None w'
                 ∧ dataToWrite w' = ∅
                 ∧ ∀ n, sent n (trace w') =
                        sent n (trace w) ++ pending w n
                        ++ dump_documents env parser n (entry :: rest))
              ∨ (∃ ex w' before rest',
                   o = Thrown ex w'
                   ∧ entry :: rest = before ++ rest'
                   ∧ ∀ n, sent n (trace w') ++ pending w' n =
                          sent n (trace w) ++ pending w n
                          ++ dump_documents env parser n before)) as Hnext.
    { intros w1 docs Hdocs Hproto1 Hne1 Hsize1 Hmeta1 Hcons o Hout.
      assert (∃ ex, o = Thrown ex w1
                    ∨ o = extract_entries La rest callback w1) as [ex [Hthrown|Hgo]].
      { destruct Hout as [[[e|] ->]|[ex ->]]; cbn [tar_next].
        - eexists. by left.
        - exists TypeError. by right.
        - exists ex. by left. }
      - right. exists ex, w1, [entry], rest. split; [done|]. split; [done|].
        intros n. by rewrite Hcons, Hdocs.
      - rewrite Hgo. destruct (IH w1) as [(w' & Heq & Hempty & Hsent)
                                          |(ex' & w' & before & rest' & Heq & Hsplit & Hsent)];
          [done|done|lia|lia| |].
        + left. exists w'. split; [done|]. split; [done|]. intros n.
          rewrite Hsent, app_assoc, Hcons, Hdocs.
          change (entry :: rest) with ([entry] ++ rest).
          by rewrite dump_documents_app, <- !app_assoc.
        + right. exists ex', w', (entry :: before), rest'. split; [done|].
          split; [by rewrite Hsplit|]. intros n.
          rewrite Hsent, app_assoc, Hcons, Hdocs.
          change (entry :: before) with ([entry] ++ before).
          by rewrite dump_documents_app, <- !app_assoc. }
    destruct (header_type entry) eqn:Htype.
    + destruct (onDirectory_conserves (header_name entry)
                  (tar_next (extract_entries La rest callback)) w)
        as (w1 & Hout & Hd & Hm & Hpr & Hsent).
      apply (Hnext w1 (fun _ => [])).
      * intros n. unfold dump_documents. cbn. by rewrite Htype.
      * by rewrite Hpr.
      * intros k docs. rewrite Hd. apply Hne.
      * rewrite Hd. lia.
      * rewrite Hm. lia.
      * intros n. unfold pending. by rewrite Hsent, Hd, app_nil_r.
      * exact Hout.
    + destruct (onFile_conserves (header_name entry) (entry_stream entry)
                  (tar_next (extract_entries La rest callback)) w Hproto (Hentry eq_refl) Hne)
        as (w1 & Hout & Hpr1 & Hne1 & Hs1 & Hm1 & Hcons).
      apply (Hnext w1 (fun n => file_document env parser n (header_name entry)
                                  (entry_stream entry))); try done.
      intros n. unfold dump_documents. cbn. by rewrite Htype, app_nil_r.
    + apply (Hnext w (fun _ => [])).
      * intros n. unfold dump_documents. cbn. by rewrite Htype.
      * done.
      * done.
      * lia.
      * lia.
      * intros n. by rewrite app_nil_r.
      * left. by exists None.
Qed.

End ArchiveFacts.

(** ** The operations use their callback only by calling it *)

Section CallbackFacts.

Variable env : Env.
Variable fuel : nat.
Variable parser : Parser.
Variable sm : bool.

#[local] Abbreviation Lc := (streamListener env parser (writer env fuel) sm).

Lemma writeAllInCollection_callback (name : string) (k k' : Callback) (w : World) :
  (∀ err w', k err w' = k' err w') →
  writeAllInCollection env name k w = writeAllInCollection env name k' w.
Proof.
  intros Hk. unfold writeAllInCollection.
  destruct (get_array w name); [|done].
  destruct (decide _); [apply Hk|]. cbn [request].
  destruct (reply_handle env (trace w) name); [apply Hk|done].
Qed.

Lemma addDocument_callback (name : string) (doc : Document) (k k' : Callback) (w : World) :
  (∀ err w', k err w' = k' err w') →
  writer_addDocument env name doc k w = writer_addDocument env name doc k' w.
Proof.
  intros Hk. rewrite !writer_addDocument_appended.
  destruct (get_array (appended name doc w) name); [|done].
  destruct (decide _); [|apply Hk].
  apply writeAllInCollection_callback. intros err w'. apply Hk.
Qed.

Lemma onDirectory_callback (path : string) (k k' : Callback) (w : World) :
  (∀ err w', k err w' = k' err w') →
  onDirectory Lc path k w = onDirectory Lc path k' w.
Proof.
  intros Hk. cbn. unfold listener_onDirectory.
  destruct (collectionNameForDirectory _); [|done].
  destruct (decide _); [apply Hk|]. cbn. apply Hk.
Qed.

Lemma onFile_callback (path : string) (stream : ReadStream) (k k' : Callback) (w : World) :
  (∀ err w', k err w' = k' err w') →
  onFile Lc path stream k w = onFile Lc path stream k' w.
Proof.
  intros Hk. cbn. unfold listener_onFile.
  destruct (collectionNameForFiles _); [|done].
  destruct (decide _).
  - destruct (metadataFilenameRegexp _); [|done].
    destruct (negb sm); [apply Hk|].
    unfold stream_on. destruct stream; [|done].
    unfold call_parse. cbn [parse jsonParser].
    destruct (decode env JSON_parse _); [apply Hk|done].
  - unfold stream_on. destruct stream; [|done].
    unfold call_parse. destruct (parse parser); [|done].
    destruct (decode env _ _); [|done].
    cbn [addDocument writer]. by apply addDocument_callback.
Qed.

(** Entries that are neither directories nor files leave no mark. *)
Lemma extract_entries_skips (entries : list TarEntry) (callback : Callback) (w : World) :
  extract_entries Lc entries callback w =
  extract_entries Lc
    (List.filter (fun entry => match header_type entry with
                               | other_type => false
                               | _ => true
                               end) entries)
    callback w.
Proof.
  revert w. induction entries as [|entry rest IH]; intros w; [done|].
  cbn [extract_entries List.filter].
  assert (∀ err w',
            tar_next (extract_entries Lc rest callback) err w' =
            tar_next (extract_entries Lc
                        (List.filter (fun entry => match header_type entry with
                                                   | other_type => false
                                                   | _ => true
                                                   end) rest) callback) err w') as Hnext.
  { intros [e|] w'; cbn [tar_next]; [done|apply IH]. }
  destruct (header_type entry) eqn:Htype; cbn [extract_entries]; rewrite ?Htype.
  - by apply onDirectory_callback.
  - by apply onFile_callback.
  - cbn [tar_next]. apply IH.
Qed.

End CallbackFacts.

(** ** First the drops, then the import *)

Section SessionPhases.

Variable env : Env.
Variable fuel : nat.
Variable my : Options.

#[local] Abbreviation D := drop_phase_event.
#[local] Abbreviation I := import_phase_event.

Lemma latest_callback_import (err : option Err) (w : World) :
  Ext I w (world_of (latest_callback my err w)).
Proof.
  destruct (latest_callback_trace my err w) as (w' & -> & Htr). cbn [world_of].
  exists (final_events my err). split; [done|].
  eapply Forall_impl; [apply final_events_calls|]. intros e [He| ->]; [by destruct e|done].
Qed.

Lemma closing_import (err : option Err) (w : World) :
  Ext I w (world_of (closing my err w)).
Proof.
  unfold closing. eapply Ext_trans; [|apply latest_callback_import].
  apply Ext_emit; [done|]. apply Ext_emit; [done|apply Ext_refl].
Qed.

Lemma go_phases (parser : Parser) (datasource : DataSource) (w : World) :
  (∀ callback w0,
     reaches (Ext I w0) callback
       (datasource (streamListener env parser (writer env fuel) (my_metadata my))
                   callback w0)) →
  in_phases w (go env fuel my parser datasource w).
Proof.
  intros Hsource.
  assert (∀ err w0, Ext I w0 (world_of (importDataToDb env fuel my parser datasource err w0)))
    as Himport.
  { intros err w0. unfold importDataToDb. destruct err as [e|]; [apply closing_import|].
    match goal with
    | |- context [datasource ?L ?cb ?w1] =>
        destruct (Hsource cb w1) as (w' & HE & [[err Hout]|[[ex Hout]|Hout]]);
          rewrite Hout
    end.
    - eapply Ext_trans; [|apply closing_import].
      eapply Ext_trans; [|exact HE]. apply Ext_set_prototype, Ext_set_metadata, Ext_set_dataToWrite, Ext_refl.
    - cbn [world_of]. eapply Ext_trans; [|exact HE].
      apply Ext_set_prototype, Ext_set_metadata, Ext_set_dataToWrite, Ext_refl.
    - cbn [world_of]. eapply Ext_trans; [|exact HE].
      apply Ext_set_prototype, Ext_set_metadata, Ext_set_dataToWrite, Ext_refl. }
  unfold go. cbn [request].
  set (w2 := logger (LogString "db open") (emit (MongoConnect (my_uri my)) w)).
  assert (Ext D w w2) as HE2.
  { apply Ext_emit; [done|]. apply Ext_emit; [done|apply Ext_refl]. }
  destruct (reply_err env (trace w) (MongoConnect (my_uri my))) as [e|];
    [exists w2; split; [done|apply latest_callback_import]|].
  destruct (my_drop my).
  - eexists. split; [|apply Himport]. apply Ext_emit; [done|]. by apply Ext_emit.
  - destruct (my_dropCollections my) as [|names|].
    + exists w2. split; [done|apply Himport].
    + match goal with
      | |- context [someCollections _ ?l ?k ?w0] =>
          destruct (someCollections_frame env D l k w0)
            as (w6 & HE6 & [[err Hout]|[ex Hout]]);
            [intros e He; by destruct e|rewrite Hout|rewrite Hout]
      end.
      * exists w6. split; [|apply Himport].
        eapply Ext_trans; [|exact HE6]. by apply Ext_emit.
      * exists w6. split; [|apply Ext_refl].
        eapply Ext_trans; [|exact HE6]. by apply Ext_emit.
    + set (w3 := logger (LogString "drop collections") w2).
      assert (Ext D w (error (reply_err env (trace w3) DbCollections)
                             (emit DbCollections w3))) as HE5.
      { apply Ext_error; [done|]. apply Ext_emit; [done|]. by apply Ext_emit. }
      destruct (reply_names env (trace w3)) as [collections|];
        [|eexists; split; [exact HE5|apply Ext_refl]].
      match goal with
      | |- context [someCollections _ ?l ?k ?w0] =>
          destruct (someCollections_frame env D l k w0)
            as (w6 & HE6 & [[err Hout]|[ex Hout]]);
            [intros e He; by destruct e|rewrite Hout|rewrite Hout]
      end.
      * exists w6. split; [by eapply Ext_trans|apply Himport].
      * exists w6. split; [by eapply Ext_trans|apply Ext_refl].
Qed.

(** A run whose parser option is valid: after the prelude, the drops,
    then the import. *)
Lemma wrapper_phases (parser : Parser) :
  select_parser (my_parser my) = inr parser →
  ∃ t1 t2,
    trace (world_of (wrapper env fuel my initial_world)) = prelude my ++ t1 ++ t2
    ∧ Forall D t1 ∧ Forall I t2.
Proof.
  intros Hp.
  assert (∀ datasource w0,
            trace w0 = prelude my →
            (∀ callback w1,
               reaches (Ext I w1) callback
                 (datasource (streamListener env parser (writer env fuel) (my_metadata my))
                             callback w1)) →
            ∃ t1 t2,
              trace (world_of (go env fuel my parser datasource w0)) = prelude my ++ t1 ++ t2
              ∧ Forall D t1 ∧ Forall I t2) as Hgo.
  { intros datasource w0 Hw0 Hsource.
    destruct (go_phases parser datasource w0 Hsource)
      as (w1 & (t1 & Ht1 & Hall1) & (t2 & Ht2 & Hall2)).
    exists t1, t2. split; [|done]. by rewrite Ht2, Ht1, Hw0, <- app_assoc. }
  assert (∀ entries callback w1,
            reaches (Ext I w1) callback
              (streamingTarDataSource_begin entries
                 (streamListener env parser (writer env fuel) (my_metadata my))
                 callback w1)) as Htar.
  { intros entries callback w1. unfold streamingTarDataSource_begin.
    destruct (extract_entries_frame env I fuel parser (my_metadata my) entries callback w1)
      as (w' & HE' & [[err Hout]|Hout]); [intros e He; by destruct e| |].
    - exists w'. split; [done|]. left. by exists None.
    - exists w'. by split; [|right]. }
  unfold wrapper. rewrite Hp.
  destruct (tar_falsy (my_tar my)) eqn:Htf.
  - apply Hgo.
    + unfold prelude. rewrite Htf. destruct (my_logger my); cbn; by rewrite ?app_nil_r.
    + intros callback w1.
      apply fileSystemDataSource_begin_frame; [intros e He; by destruct e|done|done].
  - destruct (my_stream my) eqn:Hs.
    + apply Hgo; [|apply Htar].
      unfold prelude. rewrite Htf, Hs. destruct (my_logger my); cbn; by rewrite ?app_nil_r.
    + unfold tarDataSource.
      destruct (createReadStream env _ _) as [buffers|e].
      * apply Hgo; [|apply Htar].
        unfold prelude. rewrite Htf, Hs. by destruct (my_logger my).
      * cbn [world_of trace emit].
        exists [MongoConnect (my_uri my)], []. split; [|by repeat constructor].
        unfold prelude. rewrite Htf, Hs. rewrite app_nil_r.
        destruct (my_logger my); cbn; by rewrite <- ?app_assoc.
Qed.

End SessionPhases.

(** ** The order in which the file-system source announces collections *)

Section AnnounceFacts.

Variable env : Env.
Variable fuel : nat.
Variable parser : Parser.
Variable sm : bool.

#[local] Abbreviation Lo := (streamListener env parser (writer env fuel) sm).













End AnnounceFacts.

(** ** C1: the flush threshold of [addDocument] *)

(** C1 fails for the collection name [__proto__].  [dataToWrite] is a
    plain object: under that name the first document becomes the
    prototype of the object instead of an own property, the later ones
    are pushed onto that array, and the [delete] after a flush removes
    nothing.  So the 51st document triggers a batched insert of 51
    documents, as for any collection, but the buffer is not emptied: the
    52nd document triggers a second batched insert, of all 52 documents,
    and the pending map never has a key for the collection.  For the
    collection [users] the same 52 documents give one batched insert of
    the first 51, and the 52nd is left pending. *)
Theorem proto_buffer_sent_again :
  (∃ w',
     addDocuments calm_env "users" (numbered 52) (fun _ w => Returned w) initial_world
     = Returned w'
     ∧ trace w' = [DbCollection "users";
                   CollectionBulkWrite "users" (insertOne <$> numbered 51)]
     ∧ dataToWrite w' = {[ "users" := [VNumber 52] ]}
     ∧ prototype w' = None)
  ∧ (∃ w',
       addDocuments calm_env "__proto__" (numbered 52) (fun _ w => Returned w)
         initial_world
       = Returned w'
       ∧ trace w' = [DbCollection "__proto__";
                     CollectionBulkWrite "__proto__" (insertOne <$> numbered 51);
                     DbCollection "__proto__";
                     CollectionBulkWrite "__proto__" (insertOne <$> numbered 52)]
       ∧ dataToWrite w' = ∅
       ∧ prototype w' = Some (numbered 52)).
Proof.
  split.
  - eexists. split; [vm_compute; reflexivity|]. split; [reflexivity|].
    split; [|reflexivity]. vm_compute. reflexivity.
  - eexists. split; [vm_compute; reflexivity|]. split; [reflexivity|].
    split; reflexivity.
Qed.

(** ** C2: which database errors the writer keeps to itself *)




(** ** C3: index replay and the drain *)

(** C3 fails for an archive with a collection named [__proto__].  Its
    document is buffered in the prototype of [dataToWrite], where
    [Object.keys] does not see it: [drain] finds no key and calls back at
    once, and [finish] goes on to the index replay.  The create-indexes
    request for [users] is issued, and the run ends, while the document of
    [__proto__] is still buffered and no batched insert was ever made. *)
Theorem proto_buffer_not_drained :
  ∃ w',
    extract_entries (streamListener calm_env jsonParser (writer calm_env 5) true)
      proto_entries (fun _ w => Returned w) initial_world
    = Returned w'
    ∧ trace w' = [StreamOn "mydb/__proto__/doc1.json";
                  Parse JSON_parse [Byte.x7b; Byte.x7d];
                  StreamOn "mydb/.metadata/users";
                  Parse JSON_parse [Byte.x5b; Byte.x5d];
                  DbCommandCreateIndexes "users" (VNumber 2)]
    ∧ dataToWrite w' = ∅
    ∧ prototype w' = Some [VNumber 2].
Proof.
  eexists. split; [vm_compute; reflexivity|]. split; [reflexivity|].
  split; reflexivity.
Qed.

(** ** C4: a dump root without exactly one entry *)

(** C4, as stated, fails: with two top-level directories in the dump root
    the session connects to the database before the file-system source
    looks at the root, and a configured drop is carried out before it,
    too.  And a dump root with no directory but one regular file passes
    the test on the number of entries: listing that file throws, and no
    configuration error is reported. *)
Lemma bad_root_connects_first :
  readdirSync two_roots_env [] "/dump/" = Some ["mydb"; "other"]
  ∧ wrapper two_roots_env 5 (directory_options DropNull) initial_world =
    Returned
      {| trace := [MongoConnect "mongodb://localhost/test";
                   LoggerCall (LogString "db open");
                   FsReaddirSync "/dump/";
                   LoggerCall (LogString "db close");
                   DbClose;
                   LoggerCall (LogString "restore stop");
                   LoggerCall (LogString "callback run");
                   UserCallback (Some multiple_directories)];
         dataToWrite := ∅;
         metadata := [];
         prototype := None |}
  ∧ wrapper two_roots_env 5 (directory_options (DropArray ["users"])) initial_world =
    Returned
      {| trace := [MongoConnect "mongodb://localhost/test";
                   LoggerCall (LogString "db open");
                   LoggerCall (LogString "drop collections");
                   DbCollection "users";
                   LoggerCall (LogString "select collection users");
                   CollectionDrop "users";
                   FsReaddirSync "/dump/";
                   LoggerCall (LogString "db close");
                   DbClose;
                   LoggerCall (LogString "restore stop");
                   LoggerCall (LogString "callback run");
                   UserCallback (Some multiple_directories)];
         dataToWrite := ∅;
         metadata := [];
         prototype := None |}
  ∧ readdirSync file_only_env [] "/dump/" = Some ["notes.txt"]
  ∧ wrapper file_only_env 5 (directory_options DropNull) initial_world =
    Thrown FsError
      {| trace := [MongoConnect "mongodb://localhost/test";
                   LoggerCall (LogString "db open");
                   FsReaddirSync "/dump/";
                   FsReaddirSync "/dump/notes.txt"];
         dataToWrite := ∅;
         metadata := [];
         prototype := None |}.
Proof. split; [|split; [|split; [|split]]]; reflexivity. Qed.

(** C4, amended.  When the listing of the dump root does not hold exactly
    one entry, the file-system source reports the configuration error to
    its completion callback having done nothing but list the root.  The
    session has connected before: with the connection made and no drop
    configured, [go] lists the root, closes the connection and hands the
    configuration error to the last callback.  And whatever the drop
    policy and the answers of the database, the run makes no call of the
    import: no collection is created, no blob is opened, read or decoded,
    no document is inserted and no index is created. *)
Theorem bad_root_fails_after_connecting (env : Env) (fuel : nat) (my : Options)
    (dirs : list string) :
  tar_falsy (my_tar my) = true →
  (∀ h, readdirSync env h (my_root my) = Some dirs) →
  length dirs ≠ 1 →
  (∀ L callback w,
     fileSystemDataSource_begin env (my_root my) L callback w =
     callback (Some multiple_directories) (emit (FsReaddirSync (my_root my)) w))
  ∧ (∀ parser w,
       reply_err env (trace w) (MongoConnect (my_uri my)) = None →
       my_drop my = false →
       my_dropCollections my = DropNull →
       go env fuel my parser (fileSystemDataSource_begin env (my_root my)) w =
       latest_callback my (Some multiple_directories)
         {| trace := trace w ++ [MongoConnect (my_uri my);
                                 LoggerCall (LogString "db open");
                                 FsReaddirSync (my_root my);
                                 LoggerCall (LogString "db close");
                                 DbClose];
            dataToWrite := ∅;
            metadata := [];
            prototype := None |})
  ∧ Forall (fun e => ¬ import_event e)
           (trace (world_of (wrapper env fuel my initial_world))).
Proof.
  intros Hfs Hls Hlen.
  assert (∀ L callback w,
            fileSystemDataSource_begin env (my_root my) L callback w =
            callback (Some multiple_directories) (emit (FsReaddirSync (my_root my)) w))
    as Hbegin.
  { intros L callback w. unfold fileSystemDataSource_begin, fs_readdirSync.
    rewrite Hls. by destruct (decide (length dirs ≠ 1)). }
  split; [done|split].
  - intros parser w Hconnect Hdrop Hmode. unfold go. cbn [request].
    rewrite Hconnect, Hdrop, Hmode. unfold importDataToDb. rewrite Hbegin.
    unfold logger, emit, set_prototype, set_metadata, set_dataToWrite. cbn.
    by rewrite <- !app_assoc.
  - set (P := fun w : World => Forall (fun e => ¬ import_event e) (trace w)).
    assert (∀ e w, session_event e → P w → P (emit e w)) as Hemit.
    { intros e w He HP. unfold P. cbn. apply Forall_app. split; [done|].
      constructor; [|done]. destruct e; cbn in *; tauto. }
    assert (∀ w, P w → P (set_prototype None (set_metadata [] (set_dataToWrite ∅ w)))) as Hfresh by done.
    change (ends P (wrapper env fuel my initial_world)).
    assert (P initial_world) as HP0 by (unfold P; cbn; constructor).
    unfold wrapper. destruct (select_parser (my_parser my)) as [ex|parser];
      [exact HP0|].
    rewrite Hfs. apply go_ends; [done|done| |].
    + intros callback w Hcb HP. rewrite Hbegin. apply Hcb.
      unfold P. cbn. apply Forall_app. split; [done|].
      constructor; [|done]. by intros [].
    + destruct (my_logger my); [|exact HP0]. by apply Hemit.
Qed.

(** Two top-level directories: with no drop configured, and with the
    named collections dropped first. *)
Lemma bad_root_fails_after_connecting_witness :
  go two_roots_env 5 (directory_options DropNull) bsonParser
    (fileSystemDataSource_begin two_roots_env "/dump/") initial_world =
  latest_callback (directory_options DropNull) (Some multiple_directories)
    {| trace := [MongoConnect "mongodb://localhost/test";
                 LoggerCall (LogString "db open");
                 FsReaddirSync "/dump/";
                 LoggerCall (LogString "db close");
                 DbClose];
       dataToWrite := ∅;
       metadata := [];
       prototype := None |}
  ∧ Forall (fun e => ¬ import_event e)
           (trace (world_of (wrapper two_roots_env 5
                               (directory_options (DropArray ["users"])) initial_world))).
Proof.
  split.
  - destruct (bad_root_fails_after_connecting two_roots_env 5
                (directory_options DropNull) ["mydb"; "other"])
      as (_ & Hgo & _); [reflexivity|reflexivity|cbn; lia|].
    apply (Hgo bsonParser initial_world); reflexivity.
  - destruct (bad_root_fails_after_connecting two_roots_env 5
                (directory_options (DropArray ["users"])) ["mydb"; "other"])
      as (_ & _ & Hrun); [reflexivity|reflexivity|cbn; lia|].
    exact Hrun.
Defined.

(** ** C5: a failed listing stops the run before any drop *)

(** C5.  In the "all existing" drop mode ([dropCollections] truthy and not
    an array, no whole-database drop), when the connection is made and the
    listing of the collections fails (its callback receives an error and
    no array), the run stops there: the error is logged, reading the
    length of the missing array throws, and the trace ends with the log.
    No [db.collection] and no [drop] request is issued, and the import never
    starts. *)
Theorem listing_failure_stops_before_drops (env : Env) (fuel : nat) (my : Options)
    (parser : Parser) (datasource : DataSource) (w : World) (x : Err) :
  let h := trace w ++ [MongoConnect (my_uri my);
                       LoggerCall (LogString "db open");
                       LoggerCall (LogString "drop collections")] in
  reply_err env (trace w) (MongoConnect (my_uri my)) = None →
  my_drop my = false →
  my_dropCollections my = DropTruthy →
  reply_err env h DbCollections = Some x →
  reply_names env h = None →
  go env fuel my parser datasource w =
  Thrown TypeError {| trace := h ++ [DbCollections; LoggerCall (err_message x)];
                      dataToWrite := dataToWrite w;
                      metadata := metadata w;
                      prototype := prototype w |}
  ∧ ∀ name, CollectionDrop name ∉ [MongoConnect (my_uri my);
                                   LoggerCall (LogString "db open");
                                   LoggerCall (LogString "drop collections");
                                   DbCollections;
                                   LoggerCall (err_message x)].
Proof.
  intros h Hconnect Hdrop Hmode Hlist Hnames. split.
  - unfold go. cbn [request]. rewrite Hconnect, Hdrop, Hmode.
    unfold logger, emit. cbn [trace dataToWrite metadata].
    assert (((trace w ++ [MongoConnect (my_uri my)])
             ++ [LoggerCall (LogString "db open")])
            ++ [LoggerCall (LogString "drop collections")] = h) as ->.
    { subst h. by rewrite <- !app_assoc. }
    rewrite Hlist, Hnames. unfold error, logger, emit. cbn.
    by rewrite <- !app_assoc.
  - intros name Hin. repeat (apply elem_of_cons in Hin as [Hin|Hin]; [done|]).
    by apply elem_of_nil in Hin.
Qed.

(** The listing fails with "connection lost". *)
Lemma listing_failure_stops_before_drops_witness :
  wrapper listing_fails_env 5 (directory_options DropTruthy) initial_world =
  Thrown TypeError
    {| trace := [MongoConnect "mongodb://localhost/test";
                 LoggerCall (LogString "db open");
                 LoggerCall (LogString "drop collections");
                 DbCollections;
                 LoggerCall (LogString "connection lost")];
       dataToWrite := ∅;
       metadata := [];
       prototype := None |}.
Proof.
  apply (listing_failure_stops_before_drops listing_fails_env 5
           (directory_options DropTruthy) bsonParser
           (fileSystemDataSource_begin listing_fails_env "/dump/") initial_world
           (ErrorObject "connection lost")); reflexivity.
Defined.

(** When the callback of the listing receives an array together with the
    error, the error is only logged and the drops go ahead. *)
Remark listing_error_with_names_drops :
  CollectionDrop "users"
  ∈ trace (world_of (wrapper listing_error_with_names_env 5
                       (directory_options DropTruthy) initial_world)).
Proof. vm_compute. repeat (try apply list_elem_of_here; apply list_elem_of_further). Qed.

(** ** C6: index replay is last-in-first-out *)

(** C6.  [addIndices] pops the metadata records from the end of the array:
    it issues exactly one create-indexes request per record, naming the
    collection and the index specifications of that record, in the reverse
    of the order the records were pushed; apart from these requests it only
    logs.  Its callback is called once the array is empty, with no error,
    and at once when the array is empty from the start. *)
Theorem addIndices_last_in_first_out (env : Env) (fuel : nat)
    (callback : Callback) (w : World) :
  length (metadata w) < fuel →
  ∃ t,
    writer_addIndices env fuel callback w =
    callback None {| trace := trace w ++ t;
                     dataToWrite := dataToWrite w;
                     metadata := [];
                     prototype := prototype w |}
    ∧ createIndexes_requests t =
      (fun r => (collectionName r, document r)) <$> rev (metadata w)
    ∧ Forall (fun e => is_createIndexes e ∨ is_logger e) t
    ∧ (metadata w = [] → t = []).
Proof.
  intros Hlt.
  destruct (addIndices_from_replays env fuel callback w Hlt)
    as (t & Heq & Hreq & Hall & _ & Hnil).
  exists t. done.
Qed.

(** Two records: [orders], pushed last, is replayed first. *)
Lemma addIndices_last_in_first_out_witness :
  ∃ t,
    writer_addIndices calm_env 3 (fun _ w => Returned w) two_records =
    Returned {| trace := t; dataToWrite := ∅; metadata := []; prototype := None |}
    ∧ createIndexes_requests t =
      [("orders", VArray [VString "date"]); ("users", VArray [VString "name"])].
Proof.
  destruct (addIndices_last_in_first_out calm_env 3 (fun _ w => Returned w) two_records)
    as (t & Heq & Hreq & _); [vm_compute; lia|].
  exists t. split; [exact Heq | exact Hreq].
Defined.

(** ** C7: metadata replay disabled *)



(** ** C8: the reserved name is never a collection *)

(** C8.  Whatever writer the listener is given, a directory entry named
    [.metadata] is acknowledged in the world it arrived in, and a file
    entry under [.metadata] is either acknowledged likewise (metadata
    replay off) or decoded and pushed onto the metadata records (metadata
    replay on): in neither case is the writer called.  Hence in a whole
    run, from any source and with any options, no create-collection
    request and no batched insert ever names [.metadata], and the pending
    map has no key [.metadata] when the run ends. *)
Theorem reserved_name_never_a_collection (env : Env) (fuel : nat) :
  (∀ W directoryName callback w,
     collectionNameForDirectory (replace_backslashes directoryName) = Some metadata_name →
     listener_onDirectory W directoryName callback w = callback None w)
  ∧ (∀ parser W name stream callback w,
       collectionNameForFiles (replace_backslashes name) = Some metadata_name →
       listener_onFile env parser W false name stream callback w = callback None w)
  ∧ (∀ parser W name buffers callback w,
       collectionNameForFiles (replace_backslashes name) = Some metadata_name →
       ∃ metadataName,
         metadataFilenameRegexp (replace_backslashes name) = Some metadataName
         ∧ listener_onFile env parser W true name (Chunks buffers) callback w =
           match decode env JSON_parse (Buffer_concat buffers) with
           | Some doc =>
               callback None
                 {| trace := trace w
                             ++ [StreamOn name; Parse JSON_parse (Buffer_concat buffers)];
                    dataToWrite := dataToWrite w;
                    metadata := metadata w ++ [mkMetadata metadataName doc];
                    prototype := prototype w |}
           | None =>
               Thrown SyntaxError
                 {| trace := trace w
                             ++ [StreamOn name; Parse JSON_parse (Buffer_concat buffers)];
                    dataToWrite := dataToWrite w;
                    metadata := metadata w;
                    prototype := prototype w |}
           end)
  ∧ (∀ my,
       let w := world_of (wrapper env fuel my initial_world) in
       (DbCreateCollection metadata_name ∉ trace w)
       ∧ (∀ operations, ¬ (CollectionBulkWrite metadata_name operations ∈ trace w))
       ∧ dataToWrite w !! metadata_name = None).
Proof.
  split; [|split; [|split]].
  - intros W directoryName callback w. apply onDirectory_metadata.
  - intros parser W name stream callback w. apply onFile_metadata_disabled.
  - intros parser W name buffers callback w. apply onFile_metadata_enabled.
  - intros my w.
    destruct (wrapper_ends env fuel my initial_world (Inv_initial _ _)) as [Ht Hr _].
    fold w in Ht, Hr. rewrite Forall_forall in Ht.
    split; [|split; [|done]].
    + intros Hin. by apply Ht in Hin.
    + intros operations Hin. by apply Ht in Hin.
Qed.

(** The sample archive: its [.metadata] directory and the blob under it,
    with metadata replay off and on. *)
Lemma reserved_name_never_a_collection_witness :
  listener_onDirectory (writer calm_env 5) "mydb/.metadata/"
    (fun _ w => Returned w) initial_world = Returned initial_world
  ∧ listener_onFile calm_env bsonParser (writer calm_env 5) false
      "mydb/.metadata/users" (Chunks []) (fun _ w => Returned w) initial_world
    = Returned initial_world
  ∧ ∃ metadataName,
      listener_onFile calm_env bsonParser (writer calm_env 5) true
        "mydb/.metadata/users" (Chunks [[Byte.x5b]; [Byte.x5d]])
        (fun _ w => Returned w) initial_world =
      Returned {| trace := [StreamOn "mydb/.metadata/users";
                            Parse JSON_parse [Byte.x5b; Byte.x5d]];
                  dataToWrite := ∅;
                  metadata := [mkMetadata metadataName (VNumber 2)];
                  prototype := None |}.
Proof.
  destruct (reserved_name_never_a_collection calm_env 5) as (Hdir & Hoff & Hon & _).
  split; [|split].
  - apply Hdir. reflexivity.
  - apply Hoff. reflexivity.
  - destruct (Hon bsonParser (writer calm_env 5) "mydb/.metadata/users"
                [[Byte.x5b]; [Byte.x5d]] (fun _ w => Returned w) initial_world)
      as (metadataName & _ & Heq); [reflexivity|].
    exists metadataName. exact Heq.
Defined.

(** ** C9: pending buffers are never empty, and [drain] terminates *)

(** C9.  Every key of the pending map has a non-empty buffer: this holds
    of the empty map a writer starts with and of the world [addDocument]
    leaves, whether it calls back or throws.  A flush deletes the key of
    its collection, so the pending map gets strictly smaller.  Hence
    [drain] terminates once the bound on its depth exceeds the number of
    keys: it calls back, with no error and an empty pending map, unless a
    flush got no collection object and threw.  On an empty pending map it
    calls back at once. *)
Theorem drain_terminates (env : Env) :
  buffers_nonempty initial_world
  ∧ (∀ name doc next w,
       buffers_nonempty w →
       ∃ w', buffers_nonempty w'
             ∧ ((∃ err, writer_addDocument env name doc next w = next err w')
                ∨ writer_addDocument env name doc next w = Thrown TypeError w'))
  ∧ (∀ name docs callback w,
       dataToWrite w !! name = Some docs →
       docs ≠ [] →
       reply_handle env (trace w) name = true →
       ∃ err w',
         writeAllInCollection env name callback w = callback err w'
         ∧ dataToWrite w' = delete name (dataToWrite w)
         ∧ size (dataToWrite w') < size (dataToWrite w))
  ∧ (∀ fuel callback w,
       buffers_nonempty w →
       size (dataToWrite w) < fuel →
       ∃ t,
         writer_drain env fuel callback w =
         callback None {| trace := trace w ++ t;
                          dataToWrite := ∅;
                          metadata := metadata w;
                          prototype := prototype w |}
         ∨ ∃ m h name,
             reply_handle env h name = false
             ∧ writer_drain env fuel callback w =
               Thrown TypeError {| trace := trace w ++ t;
                                   dataToWrite := m;
                                   metadata := metadata w;
                                   prototype := prototype w |})
  ∧ (∀ fuel callback w,
       0 < fuel →
       dataToWrite w = ∅ →
       writer_drain env fuel callback w = callback None w).
Proof.
  split; [|split; [|split; [|split]]].
  - intros name docs. cbn. by rewrite lookup_empty.
  - intros name doc next w Hne.
    destruct (addDocument_outcome env name doc next w)
      as (w' & t & Hout & _ & _ & _ & Hother & Hname).
    exists w'. split; [|done].
    intros k docs Hk. destruct (decide (k = name)) as [->|Hneq].
    + by eapply Hname.
    + rewrite Hother in Hk by done. by eapply Hne.
  - intros name docs callback w Hdocs Hne Hh.
    eexists _, _. split; [by apply writeAllInCollection_flush|].
    cbn. split; [done|].
    rewrite map_size_delete_Some by eauto.
    assert (size (dataToWrite w) ≠ 0); [|lia].
    apply map_size_non_empty_iff. intros Hm. rewrite Hm in Hdocs.
    by rewrite lookup_empty in Hdocs.
  - intros fuel callback w Hne Hlt.
    destruct (drain_from_drains env fuel callback w Hne Hlt) as (t & _ & _ & Hout).
    by exists t.
  - intros fuel callback w Hfuel Hm. unfold writer_drain.
    destruct fuel as [|n]; [lia|]. simpl. rewrite Hm.
    by rewrite Object_keys_empty.
Qed.

(** Fifty pending documents for one collection: one more document is
    flushed with them, a flush deletes the key, and [drain] leaves the
    pending map empty; on the empty map it calls back at once. *)
Lemma drain_terminates_witness :
  (∃ w', buffers_nonempty w'
         ∧ ((∃ err : option Err,
               writer_addDocument calm_env "users" VNull (fun _ w => Returned w)
                 fifty_pending = Returned w')
            ∨ writer_addDocument calm_env "users" VNull (fun _ w => Returned w)
                fifty_pending = Thrown TypeError w'))
  ∧ (∃ w', writeAllInCollection calm_env "users" (fun _ w => Returned w) fifty_pending
           = Returned w'
           ∧ size (dataToWrite w') < size (dataToWrite fifty_pending))
  ∧ (∃ t,
       writer_drain calm_env 2 (fun _ w => Returned w) fifty_pending =
       Returned {| trace := t; dataToWrite := ∅; metadata := []; prototype := None |})
  ∧ writer_drain calm_env 1 (fun _ w => Returned w) initial_world = Returned initial_world.
Proof.
  destruct (drain_terminates calm_env) as (_ & Hadd & Hflush & Hdrain & Hempty).
  assert (buffers_nonempty fifty_pending) as Hne.
  { intros name docs. cbn. rewrite lookup_singleton_Some. by intros [_ <-]. }
  split; [|split; [|split]].
  - apply (Hadd "users" VNull (fun _ w => Returned w) fifty_pending Hne).
  - destruct (Hflush "users" (replicate 50 VNull) (fun _ w => Returned w) fifty_pending)
      as (err & w' & Heq & _ & Hsize); [reflexivity|done|reflexivity|].
    exists w'. split; [exact Heq | exact Hsize].
  - destruct (Hdrain 2 (fun _ w => Returned w) fifty_pending Hne) as [t [Heq|Hno]].
    + vm_compute. lia.
    + eexists. exact Heq.
    + destruct Hno as (m & h & name & Hfalse & _). discriminate Hfalse.
  - apply Hempty; [lia | reflexivity].
Defined.

(** ** C10: metadata blobs are JSON *)



(** ** Further properties: the path patterns *)

(** X1.  The two patterns [onFile] applies to a path,
    [.*/([^/]+)/[^/]+$] for the collection and [.*/[^/]+/([^/]+)$] for the
    metadata file name, match the same texts: those that end in a slash, a
    segment, a slash and a segment.  The collection is the first of the two
    segments, the file name the second. *)
Theorem file_path_patterns (s c f : string) :
  (collectionNameForFiles s = Some c ∧ metadataFilenameRegexp s = Some f
   ↔ ∃ p, s = p +:+ "/" +:+ c +:+ "/" +:+ f ∧ is_segment c ∧ is_segment f)
  ∧ (is_Some (collectionNameForFiles s) ↔ is_Some (metadataFilenameRegexp s)).
Proof.
  split.
  - split.
    + unfold collectionNameForFiles, metadataFilenameRegexp.
      destruct (rev (segments s)) as [|f0 [|c0 [|x rest]]] eqn:Hrev;
        try by intros [? ?].
      destruct (file_path_decompose s f0 c0 x rest Hrev) as (Hs & Hcs & Hfs).
      destruct f0 as [|a0 f0]; [by intros [? ?]|].
      destruct c0 as [|b0 c0]; [by intros [? ?]|].
      cbn. intros [[= <-] [= <-]].
      exists (join_slash (rev rest ++ [x])). done.
    + intros (p & -> & Hc & Hf). split.
      * apply collectionNameForFiles_spec. by exists p, f.
      * apply metadataFilenameRegexp_spec. by exists p, c.
  - unfold collectionNameForFiles, metadataFilenameRegexp.
    destruct (rev (segments s)) as [|f0 [|c0 [|x rest]]];
      try (split; intros [? ?]; done).
    destruct f0, c0; cbn; split; intros [? ?]; try done; eauto.
Qed.

(** X2.  The pattern [onDirectory] applies to a path, [.*/([^/]+)/?$],
    matches the texts that end in a slash and a segment, with or without
    one more slash after it, and returns that segment.  On every other
    text, [exec] returns [null]. *)
Theorem directory_path_pattern (s c : string) :
  collectionNameForDirectory s = Some c ↔
  ∃ p, (s = p +:+ "/" +:+ c ∨ s = p +:+ "/" +:+ c +:+ "/") ∧ is_segment c.
Proof. apply collectionNameForDirectory_spec. Qed.

(** X3.  Backslashes are read as slashes before the patterns are applied:
    a path whose last separators are backslashes names the same collection
    and the same file as the path written with slashes, and no backslash
    is left in the text the patterns see. *)
Theorem backslash_paths (p c f : string) :
  is_segment c →
  is_segment f →
  backslash_free c = true →
  backslash_free f = true →
  collectionNameForFiles (replace_backslashes (p +:+ "\" +:+ c +:+ "\" +:+ f)) = Some c
  ∧ metadataFilenameRegexp (replace_backslashes (p +:+ "\" +:+ c +:+ "\" +:+ f)) = Some f
  ∧ collectionNameForDirectory (replace_backslashes (p +:+ "\" +:+ c)) = Some c
  ∧ collectionNameForDirectory (replace_backslashes (p +:+ "\" +:+ c +:+ "\")) = Some c
  ∧ ∀ s, backslash_free (replace_backslashes s) = true.
Proof.
  intros Hc Hf Hcb Hfb.
  rewrite !replace_backslashes_app.
  rewrite (replace_backslashes_free c), (replace_backslashes_free f) by done.
  change (replace_backslashes "\") with "/".
  split; [|split; [|split; [|split]]].
  - apply collectionNameForFiles_spec. by exists (replace_backslashes p), f.
  - apply metadataFilenameRegexp_spec. by exists (replace_backslashes p), c.
  - apply collectionNameForDirectory_spec. exists (replace_backslashes p).
    split; [by left|done].
  - apply collectionNameForDirectory_spec. exists (replace_backslashes p).
    split; [by right|done].
  - apply replace_backslashes_clean.
Qed.

(** A dump path written with backslashes. *)
Lemma backslash_paths_witness :
  collectionNameForFiles (replace_backslashes "C:\dump\mydb\users\doc1.bson")
  = Some "users"
  ∧ collectionNameForDirectory (replace_backslashes "C:\dump\mydb\users") = Some "users".
Proof.
  destruct (backslash_paths "C:\dump\mydb" "users" "doc1.bson")
    as (Hfile & _ & _ & _ & _); [done|done|reflexivity|reflexivity|].
  destruct (backslash_paths "C:\dump\mydb" "users" "doc1.bson")
    as (_ & _ & Hdir & _ & _); [done|done|reflexivity|reflexivity|].
  split; [exact Hfile | exact Hdir].
Defined.

(** ** Further properties: the dispatcher *)

(** X4.  For a directory path that ends in a segment other than
    [.metadata], with or without a trailing slash, [onDirectory] makes
    exactly one call, the create-collection request for that segment, and
    hands the answer of the database, error or not, to its callback. *)
Theorem onDirectory_creates_collection (env : Env) (fuel : nat)
    (directoryName p c : string) (callback : Callback) (w : World) :
  replace_backslashes directoryName = p +:+ "/" +:+ c
  ∨ replace_backslashes directoryName = p +:+ "/" +:+ c +:+ "/" →
  is_segment c →
  c ≠ metadata_name →
  listener_onDirectory (writer env fuel) directoryName callback w =
  callback (reply_err env (trace w) (DbCreateCollection c))
           (emit (DbCreateCollection c) w).
Proof.
  intros Hpath Hc Hne. unfold listener_onDirectory.
  assert (collectionNameForDirectory (replace_backslashes directoryName) = Some c) as ->.
  { apply collectionNameForDirectory_spec. by exists p. }
  by destruct (decide (c = metadata_name)).
Qed.

(** The directory of the collection [users], and a failing request. *)
Lemma onDirectory_creates_collection_witness :
  listener_onDirectory (writer failing_env 5) "/dump/mydb/users/"
    (fun err w => Returned (emit (UserCallback err) w)) initial_world =
  Returned {| trace := [DbCreateCollection "users";
                        UserCallback (Some (ErrorObject "collection already exists"))];
              dataToWrite := ∅;
              metadata := [];
              prototype := None |}.
Proof.
  apply (onDirectory_creates_collection failing_env 5 "/dump/mydb/users/"
           "/dump/mydb" "users"); [by right|done|done].
Defined.

(** X5.  A path the patterns do not match makes the dispatcher throw:
    [exec] returns [null] and reading its group is a [TypeError].  This
    happens before any call is made and the callback is never called.  For
    [onDirectory] these are the paths that do not end in a slash and a
    segment (with an optional slash after it), for [onFile] the paths that
    do not end in a slash, a segment, a slash and a segment; a path
    without any slash is among both. *)
Theorem unmatched_paths_throw (env : Env) (parser : Parser) (W : Writer) (sm : bool)
    (name : string) (stream : ReadStream) (callback : Callback) (w : World) :
  ((¬ ∃ p c, (replace_backslashes name = p +:+ "/" +:+ c
              ∨ replace_backslashes name = p +:+ "/" +:+ c +:+ "/")
             ∧ is_segment c) →
   listener_onDirectory W name callback w = Thrown TypeError w)
  ∧ ((¬ ∃ p c f, replace_backslashes name = p +:+ "/" +:+ c +:+ "/" +:+ f
                 ∧ is_segment c ∧ is_segment f) →
     listener_onFile env parser W sm name stream callback w = Thrown TypeError w)
  ∧ (slash_free (replace_backslashes name) = true →
     listener_onDirectory W name callback w = Thrown TypeError w
     ∧ listener_onFile env parser W sm name stream callback w = Thrown TypeError w).
Proof.
  split; [|split].
  - intros Hno. unfold listener_onDirectory.
    destruct (collectionNameForDirectory _) as [c|] eqn:Hc; [|done].
    exfalso. apply Hno. apply collectionNameForDirectory_spec in Hc as (p & Hp & Hseg).
    by exists p, c.
  - intros Hno. unfold listener_onFile.
    destruct (collectionNameForFiles _) as [c|] eqn:Hc; [|done].
    exfalso. apply Hno. apply collectionNameForFiles_spec in Hc as (p & f & Hp & Hseg).
    by exists p, c, f.
  - intros Hfree. unfold listener_onDirectory, listener_onFile.
    unfold collectionNameForDirectory, collectionNameForFiles.
    rewrite (segments_slash_free _ Hfree). cbn.
    by destruct (replace_backslashes name).
Qed.

(** An archive entry without the database directory in front. *)
Lemma unmatched_paths_throw_witness :
  listener_onDirectory (writer calm_env 5) "users" (fun _ w => Returned w) initial_world
  = Thrown TypeError initial_world
  ∧ listener_onFile calm_env jsonParser (writer calm_env 5) true "users"
      (Chunks []) (fun _ w => Returned w) initial_world
    = Thrown TypeError initial_world.
Proof.
  destruct (unmatched_paths_throw calm_env jsonParser (writer calm_env 5) true "users"
              (Chunks []) (fun _ w => Returned w) initial_world) as (_ & _ & Hfree).
  apply Hfree. reflexivity.
Defined.

(** X6.  [finish] always reports success.  Given collection objects and
    a bound above the numbers of pending collections and of metadata
    records, it calls back exactly once, with no error, whatever the
    database answers: every error of a flush or of a create-indexes request
    is logged right after the request.  The pending map is empty by then.
    With metadata replay on, the metadata records have been replayed from
    the last to the first and the array is empty; with it off, no
    create-indexes request is made and the records are left as they
    are. *)
Theorem finish_reports_success (env : Env) (fuel : nat) (parser : Parser) (sm : bool)
    (callback : Callback) (w : World) :
  handles_delivered env →
  buffers_nonempty w →
  size (dataToWrite w) < fuel →
  length (metadata w) < fuel →
  ∃ t,
    finish (streamListener env parser (writer env fuel) sm) callback w =
    callback None {| trace := trace w ++ t;
                     dataToWrite := ∅;
                     metadata := if sm then [] else metadata w;
                     prototype := prototype w |}
    ∧ errors_logged env (trace w) t
    ∧ createIndexes_requests t =
      (if sm then (fun r => (collectionName r, document r)) <$> rev (metadata w)
       else []).
Proof.
  intros Hh Hne Hsize Hlen. cbn. unfold listener_finish.
  cbn [drain writer addIndices]. unfold writer_drain, writer_addIndices. cbv zeta.
  destruct (drain_from_drains env fuel
              (fun err w1 =>
                 if negb sm then callback None (error err w1)
                 else addIndices_from env fuel
                        (fun err w3 => callback None (error err w3)) (error err w1))
              w Hne Hsize) as (t1 & Hall & Hlog1 & [Heq|Hno]).
  2:{ destruct Hno as (m & h & name & Hfalse & _). by rewrite Hh in Hfalse. }
  rewrite Heq. destruct sm; cbn [negb error].
  - match goal with
    | |- context [addIndices_from env fuel ?cb ?w1] =>
        destruct (addIndices_from_replays env fuel cb w1) as (t2 & Heq2 & Hreq & _ & Hlog2 & _);
          [done|]
    end.
    rewrite Heq2. cbn [trace dataToWrite metadata error] in *.
    exists (t1 ++ t2). split; [by rewrite <- app_assoc|]. split.
    + by apply errors_logged_app.
    + rewrite createIndexes_requests_app, (createIndexes_requests_flush _ _ Hall).
      done.
  - exists t1. split; [done|]. split; [done|].
    by eapply createIndexes_requests_flush.
Qed.

(** Fifty pending documents and two metadata records, every write
    failing. *)
Lemma finish_reports_success_witness :
  ∃ t,
    finish (streamListener failing_env jsonParser (writer failing_env 5) true)
      (fun err w => Returned (emit (UserCallback err) w))
      (set_metadata (metadata two_records) fifty_pending) =
    Returned (emit (UserCallback None)
                {| trace := t; dataToWrite := ∅; metadata := []; prototype := None |})
    ∧ createIndexes_requests t =
      [("orders", VArray [VString "date"]); ("users", VArray [VString "name"])].
Proof.
  destruct (finish_reports_success failing_env 5 jsonParser true
              (fun err w => Returned (emit (UserCallback err) w))
              (set_metadata (metadata two_records) fifty_pending))
    as (t & Heq & _ & Hreq).
  - intros h name. reflexivity.
  - intros name docs. cbn. rewrite lookup_singleton_Some. by intros [_ <-].
  - vm_compute. lia.
  - vm_compute. lia.
  - exists t. split; [exact Heq | exact Hreq].
Defined.

(** X25.  With metadata replay on, [finish] sends every pending document
    before it asks for any index.  Given collection objects and a bound
    above the numbers of pending collections and of metadata records, its
    calls are two parts: first the flushes of [drain], in which, for every
    collection, the batched inserts hold exactly the documents that were
    pending, in their order, and there is no create-indexes request; then
    the index replay, with one create-indexes request per metadata record,
    the last record first, and no insert.  The callback then runs with no
    error, an empty pending map and no metadata record left. *)
Theorem finish_sends_before_indexes (env : Env) (fuel : nat) (parser : Parser)
    (callback : Callback) (w : World) :
  handles_delivered env →
  buffers_nonempty w →
  size (dataToWrite w) < fuel →
  length (metadata w) < fuel →
  ∃ t1 t2,
    finish (streamListener env parser (writer env fuel) true) callback w =
    callback None {| trace := trace w ++ t1 ++ t2;
                     dataToWrite := ∅;
                     metadata := [];
                     prototype := prototype w |}
    ∧ Forall (flush_event (dataToWrite w)) t1
    ∧ (∀ name, sent name t1 = pending w name)
    ∧ Forall (fun e => is_createIndexes e ∨ is_logger e) t2
    ∧ createIndexes_requests t2 =
      (fun r => (collectionName r, document r)) <$> rev (metadata w).
Proof.
  intros Hh Hne Hsize Hmeta. cbn. unfold listener_finish.
  cbn [drain writer addIndices negb]. unfold writer_drain, writer_addIndices. cbv zeta.
  destruct (drain_from_sends_all env fuel
              (fun err w1 =>
                 addIndices_from env fuel
                   (fun err w3 => callback None (error err w3)) (error err w1))
              w Hh Hne Hsize) as (t1 & Heq & Hall & _ & Hsent).
  rewrite Heq. cbn [error].
  match goal with
  | |- context [addIndices_from env fuel ?cb ?w1] =>
      destruct (addIndices_from_replays env fuel cb w1) as (t2 & Heq2 & Hreq & Hall2 & _);
        [done|]
  end.
  rewrite Heq2. cbn [error trace dataToWrite metadata prototype] in *.
  exists t1, t2. split; [by rewrite <- app_assoc|]. done.
Qed.

(** Fifty pending documents and two metadata records. *)
Lemma finish_sends_before_indexes_witness :
  ∃ t1 t2,
    finish (streamListener calm_env jsonParser (writer calm_env 5) true)
      (fun _ w => Returned w)
      (set_metadata (metadata two_records) fifty_pending) =
    Returned {| trace := [] ++ t1 ++ t2; dataToWrite := ∅; metadata := [];
                prototype := None |}
    ∧ sent "users" t1 = replicate 50 VNull
    ∧ Forall (fun e => is_createIndexes e ∨ is_logger e) t2.
Proof.
  destruct (finish_sends_before_indexes calm_env 5 jsonParser (fun _ w => Returned w)
              (set_metadata (metadata two_records) fifty_pending))
    as (t1 & t2 & Heq & _ & Hsent & Hall2 & _).
  - intros h name. reflexivity.
  - intros name docs. cbn. rewrite lookup_singleton_Some. by intros [_ <-].
  - vm_compute. lia.
  - vm_compute. lia.
  - exists t1, t2. split; [exact Heq|]. split; [exact (Hsent "users")|exact Hall2].
Defined.

(** ** Further properties: the writer *)

(** X7.  [addDocument] neither loses nor doubles a document of an
    ordinary collection, that is, for a name other than [__proto__] while
    [dataToWrite] has its first prototype.  Count, for a collection, the
    documents of the batched inserts sent so far followed by the documents
    still pending: after [addDocument], whether it calls back or throws
    for want of a collection object, this sequence has grown by the new
    document at its end for the collection named, and is unchanged for
    every other collection; and the prototype is still the first one. *)
Theorem addDocument_conserves (env : Env) (name : string) (doc : Document)
    (next : Callback) (w : World) :
  plain w name →
  ∃ w',
    ((∃ err, writer_addDocument env name doc next w = next err w')
     ∨ writer_addDocument env name doc next w = Thrown TypeError w')
    ∧ prototype w' = None
    ∧ ∀ n, sent n (trace w') ++ pending w' n =
           sent n (trace w) ++ pending w n ++ (if decide (n = name) then [doc] else []).
Proof.
  intros Hplain.
  destruct (addDocument_accepts env name doc next w Hplain) as (w' & Hout & _ & Hpr & Hcons).
  exists w'. split; [done|]. split; [|done]. destruct Hplain as [Hnone _]. congruence.
Qed.

(** The fifty-first document of [users]. *)
Lemma addDocument_conserves_witness :
  ∃ w',
    ((∃ err : option Err,
        writer_addDocument calm_env "users" VNull (fun _ w => Returned w) fifty_pending
        = Returned w')
     ∨ writer_addDocument calm_env "users" VNull (fun _ w => Returned w) fifty_pending
       = Thrown TypeError w')
    ∧ prototype w' = None
    ∧ sent "users" (trace w') ++ pending w' "users" = replicate 51 VNull.
Proof.
  destruct (addDocument_conserves calm_env "users" VNull (fun _ w => Returned w)
              fifty_pending) as (w' & Hout & Hpr & Hcons).
  - split; [reflexivity|discriminate].
  - exists w'. split; [exact Hout|]. split; [exact Hpr|]. exact (Hcons "users").
Defined.

(** X8.  [drain] sends everything that is pending, once: given
    collection objects and a bound above the number of pending collections,
    it calls back with an empty pending map, and for every collection the
    documents sent are those sent before followed by those that were
    pending, in their order. *)
Theorem drain_sends_everything (env : Env) (fuel : nat) (callback : Callback) (w : World) :
  handles_delivered env →
  buffers_nonempty w →
  size (dataToWrite w) < fuel →
  ∃ w',
    writer_drain env fuel callback w = callback None w'
    ∧ dataToWrite w' = ∅
    ∧ ∀ name, sent name (trace w') = sent name (trace w) ++ pending w name.
Proof.
  intros Hh Hne Hlt.
  destruct (drain_from_sends env fuel callback w Hne Hlt)
    as (w' & [[Heq Hempty]|[_ (h & name & Hfalse)]] & _ & Hcons).
  - exists w'. split; [done|]. split; [done|]. intros name.
    rewrite <- Hcons. unfold pending. rewrite Hempty, lookup_empty. cbn.
    by rewrite app_nil_r.
  - by rewrite Hh in Hfalse.
Qed.

(** Fifty pending documents. *)
Lemma drain_sends_everything_witness :
  ∃ w',
    writer_drain calm_env 2 (fun _ w => Returned w) fifty_pending = Returned w'
    ∧ sent "users" (trace w') = replicate 50 VNull.
Proof.
  destruct (drain_sends_everything calm_env 2 (fun _ w => Returned w) fifty_pending)
    as (w' & Heq & _ & Hsent).
  - intros h name. reflexivity.
  - intros name docs. cbn. rewrite lookup_singleton_Some. by intros [_ <-].
  - vm_compute. lia.
  - exists w'. split; [exact Heq | exact (Hsent "users")].
Defined.

(** X9.  The pending buffers stay bounded, for an ordinary collection
    (a name other than [__proto__], the first prototype in place): if no
    collection has more than 50 pending documents, then none has when
    [addDocument] calls back.  The only world with a longer buffer is the
    one in which the flush throws for want of a collection object. *)
Theorem pending_stays_bounded (env : Env) (name : string) (doc : Document)
    (next : Callback) (w : World) :
  plain w name →
  (∀ n, length (pending w n) ≤ 50) →
  ∃ w',
    ((∃ err, writer_addDocument env name doc next w = next err w')
     ∧ ∀ n, length (pending w' n) ≤ 50)
    ∨ (writer_addDocument env name doc next w = Thrown TypeError w'
       ∧ reply_handle env (trace w) name = false).
Proof.
  intros Hplain Hbound.
  destruct (decide (50 < length (pending w name ++ [doc]))) as [Hgt|Hle].
  - destruct (reply_handle env (trace w) name) eqn:Hh.
    + eexists. left. split; [eexists; by apply addDocument_above|].
      intros n. rewrite pending_flushed.
      destruct (decide (n = name)); [cbn; lia|apply Hbound].
    + eexists. right. split; [by apply addDocument_above_no_handle|done].
  - eexists. left. split; [exists None; apply addDocument_below; [done|lia]|].
    intros n. rewrite pending_insert.
    destruct (decide (n = name)); [lia|apply Hbound].
Qed.

(** The fifty-first document of a collection. *)
Lemma pending_stays_bounded_witness :
  ∃ w',
    ((∃ err : option Err,
        writer_addDocument calm_env "users" VNull (fun _ w => Returned w) fifty_pending
        = Returned w')
     ∧ ∀ n, length (pending w' n) ≤ 50)
    ∨ (writer_addDocument calm_env "users" VNull (fun _ w => Returned w) fifty_pending
       = Thrown TypeError w'
       ∧ reply_handle calm_env (trace fifty_pending) "users" = false).
Proof.
  apply (pending_stays_bounded calm_env "users" VNull (fun _ w => Returned w) fifty_pending).
  - split; [reflexivity|discriminate].
  - intros n. unfold pending. cbn. destruct (decide (n = "users")) as [->|Hne].
    + rewrite lookup_singleton_eq. cbn. lia.
    + rewrite lookup_singleton_ne by done. cbn. lia.
Defined.

(** X24.  The flush threshold of [addDocument], for an ordinary
    collection (a name other than [__proto__], the first prototype in
    place).  The document is appended to the pending buffer of its
    collection.  While the buffer then holds at most 50 documents the
    callback runs at once, with no error and no call to the database.
    When the append makes the buffer longer than 50, which from a buffer
    of at most 50 means exactly 51 documents, [db.collection] is asked
    for the collection and its error, if any, logged; with a collection
    object, one [bulkWrite] holding every pending document follows, the
    key is deleted from the pending map, and the callback receives the
    answer of the [bulkWrite]; without one a [TypeError] escapes and the
    buffer stays. *)
Theorem addDocument_threshold (env : Env) (name : string) (doc : Document)
    (next : Callback) (w : World) :
  plain w name →
  let docs := pending w name ++ [doc] in
  (length docs ≤ 50 →
     writer_addDocument env name doc next w =
     next None (set_dataToWrite (<[name := docs]> (dataToWrite w)) w))
  ∧ (50 < length docs →
     writer_addDocument env name doc next w =
     if reply_handle env (trace w) name
     then next (reply_err env (flush_history env name w) (flush_request name docs))
               {| trace := flush_history env name w
                           ++ [CollectionBulkWrite name (insertOne <$> docs)];
                  dataToWrite := delete name (dataToWrite w);
                  metadata := metadata w;
                  prototype := prototype w |}
     else Thrown TypeError
            {| trace := flush_history env name w;
               dataToWrite := <[name := docs]> (dataToWrite w);
               metadata := metadata w;
               prototype := prototype w |})
  ∧ (length (pending w name) ≤ 50 → 50 < length docs → length docs = 51)
  ∧ delete name (dataToWrite w) !! name = None.
Proof.
  intros Hplain docs. split; [|split; [|split]].
  - by apply addDocument_below.
  - intros Hgt. destruct (reply_handle env (trace w) name) eqn:Hh.
    + by apply addDocument_above.
    + by apply addDocument_above_no_handle.
  - intros Hp Hgt. subst docs. rewrite length_app in *. simpl in *. lia.
  - apply lookup_delete_eq.
Qed.

(** An empty buffer takes the document without a flush; a buffer of fifty
    pending documents is flushed by the next one. *)
Lemma addDocument_threshold_witness :
  writer_addDocument calm_env "users" VNull (fun _ w => Returned w) initial_world =
  Returned (set_dataToWrite {[ "users" := [VNull] ]} initial_world)
  ∧ ∃ w', writer_addDocument calm_env "users" (VNumber 51) (fun _ w => Returned w)
            fifty_pending = Returned w'
          ∧ dataToWrite w' !! "users" = None.
Proof.
  split.
  - destruct (addDocument_threshold calm_env "users" VNull (fun _ w => Returned w)
                initial_world) as [Hkeep _]; [split; [reflexivity|discriminate]|].
    apply Hkeep. vm_compute. lia.
  - destruct (addDocument_threshold calm_env "users" (VNumber 51) (fun _ w => Returned w)
                fifty_pending) as (_ & Hflush & _); [split; [reflexivity|discriminate]|].
    eexists. split; [apply Hflush; vm_compute; lia|reflexivity].
Defined.

(** ** Further properties: the collection dropper *)

(** X10.  [someCollections] is a barrier that calls [next] exactly once.
    Given collection objects, it asks [db.collection] for every name, once
    and in the order of the list, requests drops only for names of the
    list, and apart from that only logs; then [next] is called.  [next]
    receives an error only if no drop was requested at all, that is, only
    when every [db.collection] call answered with an error; as soon as one
    drop is in flight, the errors of the other calls are logged and [next]
    receives none.  On the empty list [next] is called at once. *)
Theorem someCollections_barrier (env : Env) (names : list string)
    (next : Callback) (w : World) :
  handles_delivered env →
  ∃ err t,
    someCollections env names next w =
    next err {| trace := trace w ++ t;
                dataToWrite := dataToWrite w;
                metadata := metadata w;
                prototype := prototype w |}
    ∧ collection_requests t = names
    ∧ Forall (dropper_event names) t
    ∧ (is_Some err → drop_requests t = [])
    ∧ (names = [] → t = [] ∧ err = None).
Proof.
  intros Hh. unfold someCollections.
  destruct (decide (length names = 0)) as [Hz|Hnz].
  - destruct names; [|done]. exists None, []. rewrite app_nil_r.
    split; [by destruct w|]. split; [done|]. split; [done|]. split; [by intros [? ?]|done].
  - destruct (forEach_collection_outcome env (length names) names 0 [] next w Hh)
      as (err & t & Heq & Hreq & Hall & Herr); [cbn; lia|lia|].
    exists err, t. split; [done|]. split; [done|]. split; [done|].
    split; [intros Hsome; by destruct (Herr Hsome)|].
    intros ->. done.
Qed.

(** No collection resolves: the last error reaches [next] and nothing is
    dropped. *)
Lemma someCollections_barrier_witness :
  ∃ err t,
    someCollections resolve_fails_env ["users"; "orders"]
      (fun err w => Returned (emit (UserCallback err) w)) initial_world =
    Returned (emit (UserCallback err)
                {| trace := t; dataToWrite := ∅; metadata := []; prototype := None |})
    ∧ collection_requests t = ["users"; "orders"]
    ∧ (is_Some err → drop_requests t = []).
Proof.
  destruct (someCollections_barrier resolve_fails_env ["users"; "orders"]
              (fun err w => Returned (emit (UserCallback err) w)) initial_world)
    as (err & t & Heq & Hreq & _ & Herr & _).
  - intros h name. reflexivity.
  - exists err, t. split; [exact Heq|]. split; [exact Hreq | exact Herr].
Defined.

(** X11.  When every [db.collection] call succeeds, [someCollections]
    requests the drop of every named collection, in the order of the list
    and all of them before any drop has completed; whatever the drops
    answer, their errors are only logged, nothing else is called, and
    [next] is called once, with no error. *)
Theorem someCollections_drops_all (env : Env) (names : list string)
    (next : Callback) (w : World) :
  handles_delivered env →
  (∀ h name, reply_err env h (DbCollection name) = None) →
  ∃ logs,
    someCollections env names next w =
    next None
      {| trace := (trace w
                   ++ flat_map (fun c => [DbCollection c; select_line c; CollectionDrop c])
                               names)
                  ++ logs;
         dataToWrite := dataToWrite w;
         metadata := metadata w;
         prototype := prototype w |}
    ∧ Forall is_logger logs.
Proof.
  intros Hh Hok. unfold someCollections.
  destruct (decide (length names = 0)) as [Hz|Hnz].
  - destruct names; [|done]. exists []. cbn. rewrite !app_nil_r.
    split; [by destruct w|done].
  - rewrite forEach_collection_resolved by done. cbn [app].
    match goal with
    | |- context [drop_completions env _ _ _ _ next ?w0] =>
        destruct (drop_completions_outcome env (length names) (length names) 0 names next w0)
          as (logs & Heq & Hall); [done|lia|lia|]
    end.
    exists logs. split; [exact Heq | exact Hall].
Qed.

(** Two collections that do not exist: both drops fail, the import goes
    on. *)
Lemma someCollections_drops_all_witness :
  ∃ logs,
    someCollections drop_fails_env ["users"; "orders"]
      (fun err w => Returned (emit (UserCallback err) w)) initial_world =
    Returned
      (emit (UserCallback None)
         {| trace := [DbCollection "users"; select_line "users"; CollectionDrop "users";
                      DbCollection "orders"; select_line "orders"; CollectionDrop "orders"]
                     ++ logs;
            dataToWrite := ∅;
            metadata := [];
            prototype := None |})
    ∧ Forall is_logger logs.
Proof.
  destruct (someCollections_drops_all drop_fails_env ["users"; "orders"]
              (fun err w => Returned (emit (UserCallback err) w)) initial_world)
    as (logs & Heq & Hall).
  - intros h name. reflexivity.
  - intros h name. reflexivity.
  - exists logs. split; [exact Heq | exact Hall].
Defined.

(** ** Further properties: whole runs *)

(** X12.  A run that ends in an uncaught exception leaves the
    connection open and never calls the user's callback: every call it
    made is a call of the run, among which are neither [db.close] nor
    the callback. *)
Theorem thrown_run_never_closes (env : Env) (fuel : nat) (my : Options)
    (ex : Exception) (w : World) :
  wrapper env fuel my initial_world = Thrown ex w →
  Forall (run_call my) (trace w)
  ∧ (DbClose ∉ trace w)
  ∧ (∀ err, UserCallback err ∉ trace w).
Proof.
  intros Hthrown.
  assert (Forall (run_call my) (trace w)) as Hall.
  { destruct (wrapper_shape env fuel my initial_world)
      as (t & Hall & [(err & w' & Heq & Htr)|[(e & w' & Heq & _)|[(ex' & w' & Heq & Htr)
                     |(w' & Heq & Htr)]]]); try congruence.
    assert (w' = w) as -> by congruence. by rewrite Htr. }
  split; [done|]. rewrite Forall_forall in Hall.
  split; [|intros err]; intros Hin; exact (Hall _ Hin).
Qed.

(** The dump root cannot be listed: the run throws after connecting. *)
Lemma thrown_run_never_closes_witness :
  ∃ w,
    wrapper unreadable_root_env 3 (directory_options DropNull) initial_world
    = Thrown FsError w
    ∧ (DbClose ∉ trace w).
Proof.
  eexists. split; [reflexivity|].
  eapply (thrown_run_never_closes unreadable_root_env 3 (directory_options DropNull)).
  reflexivity.
Defined.

(** X13.  A run that returns ends with the last callback, and closes the
    connection just before it unless connecting failed.  Its trace is a
    sequence of calls of the run (none of which closes the connection or
    calls the user's callback), followed by the log line [db close] and
    [db.close], followed by the log line [restore stop] and then either
    [callback run] and the user's callback, when one was given, or the
    error logged, when there is one.  The closing pair is absent in one
    case only: the connection attempt, made right after the prelude, was
    answered with an error; then the run made no other call before the
    last callback, which receives that error. *)
Theorem returned_run_ending (env : Env) (fuel : nat) (my : Options) (w : World) :
  wrapper env fuel my initial_world = Returned w →
  ∃ t err,
    Forall (run_call my) t
    ∧ (trace w = t ++ close_events ++ final_events my err
       ∨ (∃ e,
            err = Some e
            ∧ reply_err env (prelude my) (MongoConnect (my_uri my)) = Some e
            ∧ t = prelude my ++ [MongoConnect (my_uri my);
                                 LoggerCall (LogString "db open")]
            ∧ trace w = t ++ final_events my err)).
Proof.
  intros Hret.
  destruct (wrapper_shape env fuel my initial_world)
    as (t & Hall & [(err & w' & Heq & Htr)|[(e & w' & Heq & Ht & Hconnect & Htr)
                   |[(ex' & w' & Heq & Htr)|(w' & Heq & Htr)]]]); try congruence.
  - assert (w' = w) as -> by congruence. exists t, err. split; [done|]. by left.
  - assert (w' = w) as -> by congruence. exists t, (Some e). split; [done|].
    right. exists e. by repeat split.
Qed.

(** The sample archive restored from a live stream. *)
Lemma returned_run_ending_witness :
  ∃ t err,
    Forall (run_call (stream_options true)) t
    ∧ (trace (world_of (wrapper calm_env 3 (stream_options true) initial_world))
       = t ++ close_events ++ final_events (stream_options true) err
       ∨ (∃ e,
            err = Some e
            ∧ reply_err calm_env (prelude (stream_options true))
                (MongoConnect (my_uri (stream_options true))) = Some e
            ∧ t = prelude (stream_options true)
                  ++ [MongoConnect (my_uri (stream_options true));
                      LoggerCall (LogString "db open")]
            ∧ trace (world_of (wrapper calm_env 3 (stream_options true) initial_world))
              = t ++ final_events (stream_options true) err)).
Proof.
  apply (returned_run_ending calm_env 3 (stream_options true)).
  vm_compute. reflexivity.
Defined.

(** X14.  When the connection attempt fails, the run does nothing with
    the database and with the dump: after the prelude it consists of the
    connection attempt, the log line [db open] and the last callback with
    the connection error.  It does not close anything.  This is given
    that the archive file, if the run reads one, can be read; the stream
    of an unreadable file fails with no listener while the connection
    attempt is pending. *)
Theorem connect_failure_run (env : Env) (fuel : nat) (my : Options)
    (parser : Parser) (e : Err) :
  select_parser (my_parser my) = inr parser →
  archive_readable env my →
  reply_err env (prelude my) (MongoConnect (my_uri my)) = Some e →
  ∃ w,
    wrapper env fuel my initial_world = Returned w
    ∧ trace w = prelude my
                ++ [MongoConnect (my_uri my); LoggerCall (LogString "db open")]
                ++ final_events my (Some e).
Proof.
  intros Hp Hread Hconnect.
  destruct (wrapper_go env fuel my parser Hp Hread) as (datasource & w0 & -> & Hw0).
  unfold go. cbn [request]. rewrite Hw0, Hconnect.
  destruct (latest_callback_trace my (Some e)
              (logger (LogString "db open") (emit (MongoConnect (my_uri my)) w0)))
    as (w & Heq & Htr).
  exists w. split; [done|]. rewrite Htr. cbn. by rewrite Hw0, <- !app_assoc.
Qed.

(** An archive restore against a server that cannot be reached: the
    archive file is opened all the same. *)
Lemma connect_failure_run_witness :
  ∃ w,
    wrapper unreachable_env 3 archive_options initial_world = Returned w
    ∧ trace w = [ LoggerCall (LogString "restore start");
                  FsCreateReadStream "/dump/db.tar";
                  MongoConnect "mongodb://localhost/test";
                  LoggerCall (LogString "db open");
                  LoggerCall (LogString "restore stop");
                  LoggerCall (LogString "callback run");
                  UserCallback (Some (ErrorObject "connection refused")) ].
Proof.
  apply (connect_failure_run unreachable_env 3 archive_options bsonParser
           (ErrorObject "connection refused")); [reflexivity| |reflexivity].
  intros _ _. by exists [].
Defined.

(** X15.  When [drop] is set and dropping the database fails, nothing is
    imported: after connecting the run consists of the log line
    [drop database], the drop request, the closing of the connection and
    the last callback with the error of the drop.  This is given that the
    archive file, if the run reads one, can be read. *)
Theorem dropDatabase_failure_run (env : Env) (fuel : nat) (my : Options)
    (parser : Parser) (e : Err) :
  select_parser (my_parser my) = inr parser →
  archive_readable env my →
  my_drop my = true →
  reply_err env (prelude my) (MongoConnect (my_uri my)) = None →
  reply_err env
    (prelude my ++ [MongoConnect (my_uri my); LoggerCall (LogString "db open");
                    LoggerCall (LogString "drop database")])
    DbDropDatabase = Some e →
  ∃ w,
    wrapper env fuel my initial_world = Returned w
    ∧ trace w = prelude my
                ++ [MongoConnect (my_uri my); LoggerCall (LogString "db open");
                    LoggerCall (LogString "drop database"); DbDropDatabase]
                ++ close_events ++ final_events my (Some e).
Proof.
  intros Hp Hread Hdrop Hconnect Hfail.
  destruct (wrapper_go env fuel my parser Hp Hread) as (datasource & w0 & -> & Hw0).
  unfold go. cbn [request]. rewrite Hw0, Hconnect, Hdrop.
  unfold logger, emit. cbn [trace]. rewrite Hw0, <- !app_assoc. cbn [app].
  rewrite Hfail. unfold importDataToDb.
  match goal with
  | |- context [latest_callback my (Some e) ?w1] =>
      destruct (latest_callback_trace my (Some e) w1) as (w & Heq & Htr)
  end.
  exists w. split; [done|]. rewrite Htr. cbn. by rewrite <- !app_assoc.
Qed.

(** The archive restore with [drop] set, against a server that refuses
    the drop. *)
Lemma dropDatabase_failure_run_witness :
  ∃ w,
    wrapper dropDatabase_fails_env 3 archive_options initial_world = Returned w
    ∧ trace w = [ LoggerCall (LogString "restore start");
                  FsCreateReadStream "/dump/db.tar";
                  MongoConnect "mongodb://localhost/test";
                  LoggerCall (LogString "db open");
                  LoggerCall (LogString "drop database");
                  DbDropDatabase;
                  LoggerCall (LogString "db close");
                  DbClose;
                  LoggerCall (LogString "restore stop");
                  LoggerCall (LogString "callback run");
                  UserCallback (Some (ErrorObject "not authorized")) ].
Proof.
  apply (dropDatabase_failure_run dropDatabase_fails_env 3 archive_options bsonParser
           (ErrorObject "not authorized"));
    [reflexivity| |reflexivity|reflexivity|reflexivity].
  intros _ _. by exists [].
Defined.

(** X16.  The drop policy is respected by every run, however it ends:
    the database is dropped only when [drop] is set; a collection is
    dropped only when [drop] is not set, and then only a collection named
    in [dropCollections] when that is an array, or one whose name does not
    start with [system.] when it is another truthy value; the collections
    are listed only in that last case. *)
Theorem drop_policy_respected (env : Env) (fuel : nat) (my : Options) :
  Forall (fun e =>
            match e with
            | DbDropDatabase => my_drop my = true
            | CollectionDrop name =>
                my_drop my = false
                ∧ match my_dropCollections my with
                  | DropArray names => name ∈ names
                  | DropTruthy => systemRegex name = false
                  | DropNull => False
                  end
            | DbCollections => my_drop my = false ∧ my_dropCollections my = DropTruthy
            | _ => True
            end)
         (trace (world_of (wrapper env fuel my initial_world))).
Proof.
  eapply Forall_impl; [apply wrapper_calls|].
  intros e [He|[->|[err ->]]]; [|done|done]. by destruct e.
Qed.

(** X17.  A run reads only its own kind of dump, however it ends.  A
    restore from an archive never lists a directory, and the only file it
    opens is the archive, at the path [root + tar], when no live stream
    was given; with a live stream it opens no file at all.  It connects
    to no address but the configured one. *)
Theorem source_respected (env : Env) (fuel : nat) (my : Options) :
  Forall (fun e =>
            match e with
            | MongoConnect uri => uri = my_uri my
            | FsReaddirSync _ => tar_falsy (my_tar my) = true
            | FsCreateReadStream path =>
                tar_falsy (my_tar my) = true
                ∨ (my_stream my = None ∧ path = tar_path (my_root my) (my_tar my))
            | _ => True
            end)
         (trace (world_of (wrapper env fuel my initial_world))).
Proof.
  eapply Forall_impl; [apply wrapper_calls|].
  intros e [He|[->|[err ->]]]; [|done|done]. by destruct e.
Qed.

(** X26.  In a run with metadata replay on, from any source and with any
    drop policy, no create-indexes request is made while [dataToWrite]
    has an own key.  Either the run ends without a single create-indexes
    request, or it is, from some point on, the index replay [addIndices]
    started from the callback of [drain], in a world whose pending map has
    no key and whose trace holds no create-indexes request; what follows
    the replay is the closing of the connection and the last callback.
    (That the documents of the keys were sent by then is the matter of
    X25.) *)
Theorem index_replay_starts_drained (env : Env) (fuel : nat) (my : Options) :
  my_metadata my = true →
  Forall (fun e => ¬ is_createIndexes e)
         (trace (world_of (wrapper env fuel my initial_world)))
  ∨ ∃ w1,
      dataToWrite w1 = ∅
      ∧ Forall (fun e => ¬ is_createIndexes e) (trace w1)
      ∧ wrapper env fuel my initial_world =
        writer_addIndices env fuel
          (fun err w3 => closing my None (error err w3)) w1.
Proof.
  intros Hsm.
  destruct (wrapper_dispatch env fuel false my initial_world (Inv_initial _ _))
    as [Hends|(parser & w' & HI' & ->)].
  - left. eapply Inv_no_index. exact Hends.
  - rewrite Hsm in *.
    destruct (finish_index_after_drain env fuel parser (closing my) w' HI')
      as [Hnone|(w1 & Hempty & Hnone & Heq)]; [by left|right].
    by exists w1.
Qed.

(** The sample archive, restored with metadata replay on. *)
Lemma index_replay_starts_drained_witness :
  Forall (fun e => ¬ is_createIndexes e)
         (trace (world_of (wrapper calm_env 5 (stream_options true) initial_world)))
  ∨ ∃ w1,
      dataToWrite w1 = ∅
      ∧ Forall (fun e => ¬ is_createIndexes e) (trace w1)
      ∧ wrapper calm_env 5 (stream_options true) initial_world =
        writer_addIndices calm_env 5
          (fun err w3 => closing (stream_options true) None (error err w3)) w1.
Proof.
  apply (index_replay_starts_drained calm_env 5 (stream_options true)). reflexivity.
Defined.

(** ** Further properties: the dump sources *)

(** X18.  An archive without a collection named [__proto__] is imported
    completely and without doubles.  Start from a writer whose
    [dataToWrite] has its first prototype, as the fresh one of a run has.
    Given collection objects and a bound above the number of entries, the
    extraction either reaches the callback, with no error and nothing
    pending, and then for every collection the documents sent are those
    sent or pending before followed by the documents of the archive for
    that collection, in the order of its entries; or it throws at some
    entry, and then what was sent or is pending is what the entries up to
    that one hold.  A blob counts for the collection its path names if
    that is not [.metadata], its stream can be read and its content
    decodes. *)
Theorem archive_documents_conserved (env : Env) (fuel : nat) (parser : Parser)
    (sm : bool) (entries : list TarEntry) (callback : Callback) (w : World) :
  handles_delivered env →
  prototype w = None →
  no_proto_collection entries →
  buffers_nonempty w →
  size (dataToWrite w) + length entries < fuel →
  length (metadata w) + length entries < fuel →
  (∃ w',
     extract_entries (streamListener env parser (writer env fuel) sm) entries callback w
     = callback None w'
     ∧ dataToWrite w' = ∅
     ∧ ∀ n, sent n (trace w') =
            sent n (trace w) ++ pending w n ++ dump_documents env parser n entries)
  ∨ (∃ ex w' before rest,
       extract_entries (streamListener env parser (writer env fuel) sm) entries callback w
       = Thrown ex w'
       ∧ entries = before ++ rest
       ∧ ∀ n, sent n (trace w') ++ pending w' n =
              sent n (trace w) ++ pending w n ++ dump_documents env parser n before).
Proof.
  intros Hh Hproto Hclean Hne Hsize Hmeta. by apply extract_entries_conserves.
Qed.

(** The sample archive: its one document reaches the collection
    [users]. *)
Lemma archive_documents_conserved_witness :
  ∃ w',
    extract_entries (streamListener calm_env jsonParser (writer calm_env 5) true)
      dump_entries (fun _ w => Returned w) initial_world = Returned w'
    ∧ sent "users" (trace w') = [VNumber 2].
Proof.
  destruct (archive_documents_conserved calm_env 5 jsonParser true dump_entries
              (fun _ w => Returned w) initial_world)
    as [(w' & Heq & _ & Hsent)|(ex & w' & before & rest & Heq & _)].
  - intros h name. reflexivity.
  - reflexivity.
  - repeat constructor; intros _; vm_compute; discriminate.
  - intros name docs. cbn. by rewrite lookup_empty.
  - vm_compute. lia.
  - vm_compute. lia.
  - exists w'. split; [exact Heq|]. exact (Hsent "users").
  - vm_compute in Heq. discriminate Heq.
Defined.

(** X19.  The file-system source announces every collection before it
    opens any blob.  Its calls split in two parts: first only listings
    of directories, create-collection requests and logged errors; then,
    from the second listing of the database directory on, listings, the
    opening and reading of blobs, decoding, the calls of the flushes and of
    the index replay, and logged errors, but no create-collection request
    any more.  This holds however [begin] ends. *)
Theorem directories_before_files (env : Env) (fuel : nat) (parser : Parser) (sm : bool)
    (rootDir : string) (callback : Callback) (w : World) :
  ∃ t1 t2 w',
    trace w' = trace w ++ t1 ++ t2
    ∧ Forall directory_phase_event t1
    ∧ Forall file_phase_event t2
    ∧ ((∃ err, fileSystemDataSource_begin env rootDir
                 (streamListener env parser (writer env fuel) sm) callback w
               = callback err w')
       ∨ (∃ ex, fileSystemDataSource_begin env rootDir
                  (streamListener env parser (writer env fuel) sm) callback w
                = Thrown ex w')
       ∨ fileSystemDataSource_begin env rootDir
           (streamListener env parser (writer env fuel) sm) callback w
         = Diverged w').
Proof.
  destruct (fileSystemDataSource_begin_phases env fuel parser sm
              directory_phase_event file_phase_event rootDir callback w)
    as (w1 & w2 & (t1 & Ht1 & Hall1) & (t2 & Ht2 & Hall2) & Hout); [done|done|].
  exists t1, t2, w2. split; [by rewrite Ht2, Ht1, app_assoc|done].
Qed.

(** X20.  Archive entries that are neither directories nor files are
    skipped without any call: the extraction of an archive is the
    extraction of the archive without them. *)
Theorem other_entries_skipped (env : Env) (fuel : nat) (parser : Parser) (sm : bool)
    (entries : list TarEntry) (callback : Callback) (w : World) :
  extract_entries (streamListener env parser (writer env fuel) sm) entries callback w =
  extract_entries (streamListener env parser (writer env fuel) sm)
    (List.filter (fun entry => match header_type entry with
                               | other_type => false
                               | _ => true
                               end) entries)
    callback w.
Proof. apply extract_entries_skips. Qed.

(** X21.  No drop is requested once the import has begun.  The calls of
    a run whose parser option is valid are the prelude, then a first part
    made of the connection attempt, the drop requests with the listing
    and the collection objects they need, and log lines, then a second
    part in which there is no connection attempt, no drop of the
    database or of a collection and no listing of the collections.  The
    calls of the dispatcher, of the writer and of the source, the closing
    of the connection and the user's callback all belong to the second
    part. *)
Theorem drops_precede_import (env : Env) (fuel : nat) (my : Options) (parser : Parser) :
  select_parser (my_parser my) = inr parser →
  ∃ t1 t2,
    trace (world_of (wrapper env fuel my initial_world)) = prelude my ++ t1 ++ t2
    ∧ Forall drop_phase_event t1
    ∧ Forall import_phase_event t2.
Proof. apply wrapper_phases. Qed.

(** The sample archive restored into a database whose collections are
    dropped first, by a server that refuses the drops. *)
Lemma drops_precede_import_witness :
  ∃ t1 t2,
    trace (world_of (wrapper reluctant_env 5 dropping_stream_options initial_world))
    = prelude dropping_stream_options ++ t1 ++ t2
    ∧ Forall drop_phase_event t1
    ∧ Forall import_phase_event t2.
Proof.
  apply (drops_precede_import reluctant_env 5 dropping_stream_options jsonParser).
  reflexivity.
Defined.



(** ** Further properties: the exported function *)

(** X22.  With a live stream, [restore] and the run it starts never look
    at the disk.  Given a [uri], [restore] makes no check of [root] and
    starts the run whatever [root] and [tar] are; the run reads the
    stream: it lists no directory and opens no file, however it ends. *)
Theorem restore_from_stream (env : Env) (fuel : nat) (host : Host) (opt : RawOptions)
    (entries : list TarEntry) :
  truthy_text (opt_uri opt) = true →
  opt_stream opt = Some entries →
  ∃ my,
    restore env fuel host (Some opt) initial_world
    = inr (wrapper env fuel my initial_world)
    ∧ my_stream my = Some entries
    ∧ my_tar my = TarTrue
    ∧ Forall (fun e => match e with
                       | FsReaddirSync _ | FsCreateReadStream _ => False
                       | _ => True
                       end)
             (trace (world_of (wrapper env fuel my initial_world))).
Proof.
  intros Huri Hstream. exists (parsed_options host opt).
  assert (my_stream (parsed_options host opt) = Some entries
          ∧ my_tar (parsed_options host opt) = TarTrue) as [Hs Ht].
  { unfold parsed_options. cbn. by rewrite Hstream. }
  split; [|split; [done|split; [done|]]].
  - unfold restore. change (default no_options (Some opt)) with opt.
    by rewrite Huri, Hstream.
  - eapply Forall_impl; [apply wrapper_calls|].
    intros e [He|[->|[err ->]]]; [|done|done].
    destruct e; try done; cbn in He; rewrite Ht in He; cbn in He.
    + done.
    + destruct He as [He|[He _]]; [done|]. by rewrite Hs in He.
Qed.

(** The sample archive as a live stream, on a host where [root] does
    not exist. *)
Lemma restore_from_stream_witness :
  ∃ my,
    restore calm_env 5 bare_host (Some stream_call) initial_world
    = inr (wrapper calm_env 5 my initial_world)
    ∧ my_stream my = Some dump_entries
    ∧ my_tar my = TarTrue
    ∧ Forall (fun e => match e with
                       | FsReaddirSync _ | FsCreateReadStream _ => False
                       | _ => True
                       end)
             (trace (world_of (wrapper calm_env 5 my initial_world))).
Proof.
  apply (restore_from_stream calm_env 5 bare_host stream_call dump_entries); reflexivity.
Defined.
